(** * Pulse Monitor v4.0: status / incident / alert core

    A shallow embedding of the monitoring core of the repository:

    - [MonitorState]        state/monitorState.js  (statuses, incidents, alerts,
                            contacts, recipient resolution)
    - [MonitorEngine]       monitors/monitorEngine.js (the HTTP probe)
    - [NotificationService] services/notificationService.js (alert dispatch)
    - [SocketHandlers]      handlers/socketHandlers.js (scheduler, self check)

    Conventions of the embedding.
    - The module-level [state] object of monitorState.js is the record
      [State]; every function that mutates it takes and returns a [State].
    - [new Date()] / [Date.now()] is an explicit argument [now : Z]
      (milliseconds); the readings taken inside one synchronous block are
      one instant.  ISO time stamps are kept as the millisecond value.
    - [uuidv4()] draws from the counter [uuidSeed] of the state.
    - [saveState()] only writes the JSON snapshot to disk and is left out;
      so are applications and monitor groups, which no function below
      reads.
    - Numbers are integers ([Z]); counters and time stamps stay far below
      2^53, where JS numbers are exact.
    - JS [Map]s whose iteration order is observable (contacts, contact
      groups, the recipient map) are insertion-ordered association lists;
      the other maps are [gmap]s. *)

From stdpp Require Import gmap strings list fin_maps pretty.
From Stdlib Require Import ZArith Lia Permutation Sorted.

Local Open Scope string_scope.
Local Open Scope list_scope.
Local Open Scope Z_scope.

(** ** JavaScript helpers *)

(** Truthiness of a value that is [null]/[undefined] or a string. *)
Definition truthy (o : option string) : bool :=
  match o with
  | Some s => negb (String.eqb s "")
  | None => false
  end.

(** [`${x}`] for an optional string. *)
Definition js_str (o : option string) : string :=
  match o with
  | Some s => s
  | None => "undefined"
  end.

(** [x || d] for an optional string. *)
Definition or_else (o : option string) (d : string) : string :=
  if truthy o then js_str o else d.

(** The first element satisfying [p] is replaced by its image under [f]:
    [const x = arr.find(p); if (x) { mutate x }] on an array of objects. *)
Fixpoint update_first {A : Type} (p : A -> bool) (f : A -> A) (l : list A) : list A :=
  match l with
  | [] => []
  | x :: t => if p x then f x :: t else x :: update_first p f t
  end.

(** [arr.filter(p).forEach(mutate)]: every element satisfying [p] is mutated
    in place. *)
Definition update_all {A : Type} (p : A -> bool) (f : A -> A) (l : list A) : list A :=
  map (fun x => if p x then f x else x) l.

(** An insertion-ordered JS [Map] with string keys. *)
Definition jsmap (V : Type) : Type := list (string * V).

Fixpoint jsmap_get {V : Type} (k : string) (m : jsmap V) : option V :=
  match m with
  | [] => None
  | (k', v) :: t => if String.eqb k k' then Some v else jsmap_get k t
  end.

(** [m.set(k, v)]: an existing key keeps its position. *)
Fixpoint jsmap_set {V : Type} (k : string) (v : V) (m : jsmap V) : jsmap V :=
  match m with
  | [] => [(k, v)]
  | (k', v') :: t =>
      if String.eqb k k' then (k, v) :: t else (k', v') :: jsmap_set k v t
  end.

Fixpoint jsmap_delete {V : Type} (k : string) (m : jsmap V) : jsmap V :=
  match m with
  | [] => []
  | (k', v') :: t =>
      if String.eqb k k' then t else (k', v') :: jsmap_delete k t
  end.

Definition jsmap_values {V : Type} (m : jsmap V) : list V := map snd m.
Definition jsmap_keys {V : Type} (m : jsmap V) : list string := map fst m.

(** ** state/monitorState.js *)

Module MonitorState.

(** *** Data model *)

Inductive StatusValue := PENDING | UP | DOWN.

Inductive IncidentStatus := ongoing | resolved.

Inductive AlertStatus := active | acknowledged | alert_resolved.

Inductive Severity := critical | warning.

(** [monitor.expectedStatus]: absent, a number, or (old exports) an array. *)
Inductive ExpectedStatus :=
| ExpNone
| ExpNum (n : Z)
| ExpArr (l : list Z).

Record Monitor := {
  mon_id : string;
  mon_name : string;
  mon_type : string;
  mon_enabled : bool;
  mon_url : option string;
  mon_expectedStatus : ExpectedStatus;
  mon_expectedContent : option string;
  mon_schedule : Z
}.

Record SSLInfo := {
  ssl_issuer : string;
  ssl_validFrom : string;
  ssl_validTo : string;
  ssl_daysRemaining : Z;
  ssl_subject : string
}.

(** The status of a probe result: every probe of monitorEngine.js returns
    ['UP'] or ['DOWN']. *)
Inductive CheckStatus := CHECK_UP | CHECK_DOWN.

Definition status_of (c : CheckStatus) : StatusValue :=
  match c with
  | CHECK_UP => UP
  | CHECK_DOWN => DOWN
  end.

(** The normalized result of a probe. *)
Record CheckResult := {
  cr_status : CheckStatus;
  cr_responseTime : Z;
  cr_message : string;
  cr_statusCode : option Z;
  cr_sslInfo : option SSLInfo
}.

Record HistoryEntry := {
  he_timestamp : Z;
  he_status : CheckStatus;
  he_responseTime : Z;
  he_message : string
}.

Record Status := {
  status : StatusValue;
  responseTime : option Z;
  st_message : option string;
  lastCheck : option Z;
  consecutiveFailures : Z;
  totalChecks : Z;
  successfulChecks : Z;
  history : list HistoryEntry;
  sslInfo : option SSLInfo
}.

Record IncidentUpdate := {
  iu_timestamp : Z;
  iu_status : string;
  iu_message : string
}.

Record Incident := {
  inc_id : string;
  inc_monitorId : string;
  inc_monitorName : string;
  inc_status : IncidentStatus;
  inc_message : string;
  inc_startedAt : Z;
  inc_resolvedAt : option Z;
  inc_duration : option Z;
  inc_updates : list IncidentUpdate
}.

Record Alert := {
  al_id : string;
  al_monitorId : string;
  al_monitorName : string;
  al_type : string;
  al_message : string;
  al_severity : Severity;
  al_status : AlertStatus;
  al_acknowledgedAt : option Z;
  al_resolvedAt : option Z;
  al_createdAt : Z
}.

Record Contact := {
  ct_id : string;
  ct_name : string;
  ct_email : option string;
  ct_phone : option string;
  ct_notifyEmail : bool;
  ct_notifySms : bool;
  ct_notifyOnDown : bool;
  ct_notifyOnUp : bool;
  ct_notifyOnIncident : bool
}.

(** [contactIds] is [None] when the stored value is missing or not an array. *)
Record ContactGroup := {
  cg_id : string;
  cg_name : string;
  cg_contactIds : option (list string)
}.

Record Activity := {
  act_id : string;
  act_timestamp : Z;
  act_action : string;
  act_entityType : string;
  act_entityId : string;
  act_entityName : string
}.

Record LogEntry := {
  log_id : string;
  log_timestamp : Z;
  log_level : string;
  log_message : string
}.

Record Settings := {
  consecutiveFailuresThreshold : Z;
  autoResolve : bool;
  soundEnabled : bool;
  ttsEnabled : bool;
  customAlertText : option string;
  emailEnabled : bool;
  smtpHost : string;
  smtpUser : string;
  smsEnabled : bool;
  smsSenderId : option string
}.

Record NetworkStatus := {
  isConnected : bool;
  lastChecked : Z;
  lastConnectedAt : Z
}.

Record State := {
  monitors : gmap string Monitor;
  statuses : gmap string Status;
  contacts : jsmap Contact;
  contactGroups : jsmap ContactGroup;
  incidents : list Incident;
  alerts : list Alert;
  activityLogs : list Activity;
  logs : list LogEntry;
  settings : Settings;
  networkStatus : NetworkStatus;
  uuidSeed : nat
}.

(** *** Field updates *)

Definition set_monitors (v : gmap string Monitor) (s : State) : State :=
  {| monitors := v; statuses := statuses s; contacts := contacts s;
     contactGroups := contactGroups s; incidents := incidents s;
     alerts := alerts s; activityLogs := activityLogs s; logs := logs s;
     settings := settings s; networkStatus := networkStatus s;
     uuidSeed := uuidSeed s |}.

Definition set_statuses (v : gmap string Status) (s : State) : State :=
  {| monitors := monitors s; statuses := v; contacts := contacts s;
     contactGroups := contactGroups s; incidents := incidents s;
     alerts := alerts s; activityLogs := activityLogs s; logs := logs s;
     settings := settings s; networkStatus := networkStatus s;
     uuidSeed := uuidSeed s |}.

Definition set_contacts (v : jsmap Contact) (s : State) : State :=
  {| monitors := monitors s; statuses := statuses s; contacts := v;
     contactGroups := contactGroups s; incidents := incidents s;
     alerts := alerts s; activityLogs := activityLogs s; logs := logs s;
     settings := settings s; networkStatus := networkStatus s;
     uuidSeed := uuidSeed s |}.

Definition set_incidents (v : list Incident) (s : State) : State :=
  {| monitors := monitors s; statuses := statuses s; contacts := contacts s;
     contactGroups := contactGroups s; incidents := v;
     alerts := alerts s; activityLogs := activityLogs s; logs := logs s;
     settings := settings s; networkStatus := networkStatus s;
     uuidSeed := uuidSeed s |}.

Definition set_alerts (v : list Alert) (s : State) : State :=
  {| monitors := monitors s; statuses := statuses s; contacts := contacts s;
     contactGroups := contactGroups s; incidents := incidents s;
     alerts := v; activityLogs := activityLogs s; logs := logs s;
     settings := settings s; networkStatus := networkStatus s;
     uuidSeed := uuidSeed s |}.

Definition set_activityLogs (v : list Activity) (s : State) : State :=
  {| monitors := monitors s; statuses := statuses s; contacts := contacts s;
     contactGroups := contactGroups s; incidents := incidents s;
     alerts := alerts s; activityLogs := v; logs := logs s;
     settings := settings s; networkStatus := networkStatus s;
     uuidSeed := uuidSeed s |}.

Definition set_logs (v : list LogEntry) (s : State) : State :=
  {| monitors := monitors s; statuses := statuses s; contacts := contacts s;
     contactGroups := contactGroups s; incidents := incidents s;
     alerts := alerts s; activityLogs := activityLogs s; logs := v;
     settings := settings s; networkStatus := networkStatus s;
     uuidSeed := uuidSeed s |}.

Definition set_settings (v : Settings) (s : State) : State :=
  {| monitors := monitors s; statuses := statuses s; contacts := contacts s;
     contactGroups := contactGroups s; incidents := incidents s;
     alerts := alerts s; activityLogs := activityLogs s; logs := logs s;
     settings := v; networkStatus := networkStatus s;
     uuidSeed := uuidSeed s |}.

Definition set_networkStatus (v : NetworkStatus) (s : State) : State :=
  {| monitors := monitors s; statuses := statuses s; contacts := contacts s;
     contactGroups := contactGroups s; incidents := incidents s;
     alerts := alerts s; activityLogs := activityLogs s; logs := logs s;
     settings := settings s; networkStatus := v;
     uuidSeed := uuidSeed s |}.

(** [uuidv4()]: the next identifier of the supply. *)
Definition uuidv4 (s : State) : string * State :=
  ("uuid-" +:+ pretty (uuidSeed s),
   {| monitors := monitors s; statuses := statuses s; contacts := contacts s;
      contactGroups := contactGroups s; incidents := incidents s;
      alerts := alerts s; activityLogs := activityLogs s; logs := logs s;
      settings := settings s; networkStatus := networkStatus s;
      uuidSeed := S (uuidSeed s) |}).

(** *** Initial state *)

Definition defaultSettings : Settings :=
  {| consecutiveFailuresThreshold := 3; autoResolve := true;
     soundEnabled := true; ttsEnabled := true; customAlertText := None;
     emailEnabled := false; smtpHost := ""; smtpUser := "";
     smsEnabled := true; smsSenderId := Some "PULSE" |}.

Definition createInitialState (now : Z) : State :=
  {| monitors := ∅; statuses := ∅; contacts := []; contactGroups := [];
     incidents := []; alerts := []; activityLogs := []; logs := [];
     settings := defaultSettings;
     networkStatus := {| isConnected := true; lastChecked := now;
                         lastConnectedAt := now |};
     uuidSeed := O |}.

(** *** Activity and system logs *)

Definition monitorName (s : State) (monitorId : string) : option string :=
  mon_name <$> monitors s !! monitorId.

(** [getEntityName(entityType, entityId)], for the entity types kept in
    [State]. *)
Definition getEntityName (s : State) (entityType entityId : string) : string :=
  if String.eqb entityType "monitor"
  then or_else (monitorName s entityId) entityId
  else if String.eqb entityType "contact"
  then or_else (ct_name <$> jsmap_get entityId (contacts s)) entityId
  else if String.eqb entityType "contactGroup"
  then or_else (cg_name <$> jsmap_get entityId (contactGroups s)) entityId
  else entityId.

(** [addActivity(action, entityType, entityId, details)]; [name] is
    [details.name].  The newest entry is first, at most 5000 are kept. *)
Definition addActivity (now : Z) (action entityType entityId : string)
    (name : option string) (s : State) : State :=
  let '(id, s) := uuidv4 s in
  let activity :=
    {| act_id := id; act_timestamp := now; act_action := action;
       act_entityType := entityType; act_entityId := entityId;
       act_entityName :=
         or_else name (getEntityName s entityType entityId) |} in
  set_activityLogs (take 5000 (activity :: activityLogs s)) s.

(** [addLog(level, message)]: newest first, at most 2000 kept. *)
Definition addLog (now : Z) (level message : string) (s : State) : State :=
  let '(id, s) := uuidv4 s in
  let log :=
    {| log_id := id; log_timestamp := now; log_level := level;
       log_message := message |} in
  set_logs (take 2000 (log :: logs s)) s.

(** *** Monitors *)

Definition initialStatus : Status :=
  {| status := PENDING; responseTime := None; st_message := None;
     lastCheck := None; consecutiveFailures := 0; totalChecks := 0;
     successfulChecks := 0; history := []; sslInfo := None |}.

(** [createMonitor(data)]: [data] is given as the monitor record to store,
    whose [mon_id] is overwritten by the fresh id. *)
Definition createMonitor (now : Z) (data : Monitor) (s : State) : Monitor * State :=
  let '(id, s) := uuidv4 s in
  let monitor :=
    {| mon_id := id; mon_name := mon_name data; mon_type := mon_type data;
       mon_enabled := mon_enabled data; mon_url := mon_url data;
       mon_expectedStatus := mon_expectedStatus data;
       mon_expectedContent := mon_expectedContent data;
       mon_schedule := mon_schedule data |} in
  let s := set_monitors (<[id := monitor]> (monitors s)) s in
  let s := set_statuses (<[id := initialStatus]> (statuses s)) s in
  let s := addActivity now "create" "monitor" id (Some (mon_name monitor)) s in
  let s := addLog now "info" ("Monitor created: " +:+ mon_name monitor) s in
  (monitor, s).

(** [deleteMonitor(id)] *)
Definition deleteMonitor (now : Z) (id : string) (s : State) : bool * State :=
  match monitors s !! id with
  | None => (false, s)
  | Some monitor =>
      let s := set_monitors (delete id (monitors s)) s in
      let s := set_statuses (delete id (statuses s)) s in
      let s := addActivity now "delete" "monitor" id (Some (mon_name monitor)) s in
      let s := addLog now "info" ("Monitor deleted: " +:+ mon_name monitor) s in
      (true, s)
  end.

Definition getMonitor (s : State) (id : string) : option Monitor :=
  monitors s !! id.

Definition getStatus (s : State) (monitorId : string) : option Status :=
  statuses s !! monitorId.

(** *** Alerts *)

(** [createAlert(monitorId, type, message, severity)] *)
Definition createAlert (now : Z) (monitorId type message : string)
    (severity : Severity) (s : State) : Alert * State :=
  let monitor := monitorName s monitorId in
  let '(id, s) := uuidv4 s in
  let alert :=
    {| al_id := id; al_monitorId := monitorId;
       al_monitorName := or_else monitor "Unknown";
       al_type := type; al_message := message; al_severity := severity;
       al_status := active; al_acknowledgedAt := None;
       al_resolvedAt := None; al_createdAt := now |} in
  let s := set_alerts (alert :: alerts s) s in
  let s := addActivity now "alert_created" "monitor" monitorId monitor s in
  let s := addLog now "warn"
             ("Alert: " +:+ js_str monitor +:+ " - " +:+ message) s in
  (alert, s).

Definition alert_has_id (alertId : string) (a : Alert) : bool :=
  String.eqb (al_id a) alertId.

Definition set_alert_status (st : AlertStatus) (a : Alert) : Alert :=
  {| al_id := al_id a; al_monitorId := al_monitorId a;
     al_monitorName := al_monitorName a; al_type := al_type a;
     al_message := al_message a; al_severity := al_severity a;
     al_status := st; al_acknowledgedAt := al_acknowledgedAt a;
     al_resolvedAt := al_resolvedAt a; al_createdAt := al_createdAt a |}.

Definition mark_acknowledged (now : Z) (a : Alert) : Alert :=
  {| al_id := al_id a; al_monitorId := al_monitorId a;
     al_monitorName := al_monitorName a; al_type := al_type a;
     al_message := al_message a; al_severity := al_severity a;
     al_status := acknowledged; al_acknowledgedAt := Some now;
     al_resolvedAt := al_resolvedAt a; al_createdAt := al_createdAt a |}.

(** [a.status = 'resolved'; a.resolvedAt = now] *)
Definition mark_resolved (now : Z) (a : Alert) : Alert :=
  {| al_id := al_id a; al_monitorId := al_monitorId a;
     al_monitorName := al_monitorName a; al_type := al_type a;
     al_message := al_message a; al_severity := al_severity a;
     al_status := alert_resolved; al_acknowledgedAt := al_acknowledgedAt a;
     al_resolvedAt := Some now; al_createdAt := al_createdAt a |}.

(** [acknowledgeAlert(alertId)] *)
Definition acknowledgeAlert (now : Z) (alertId : string) (s : State)
    : option Alert * State :=
  match find (alert_has_id alertId) (alerts s) with
  | None => (None, s)
  | Some a =>
      let s := set_alerts
                 (update_first (alert_has_id alertId) (mark_acknowledged now)
                    (alerts s)) s in
      let s := addActivity now "alert_acknowledged" "monitor"
                 (al_monitorId a) None s in
      (Some (mark_acknowledged now a), s)
  end.

(** [resolveAlert(alertId)] *)
Definition resolveAlert (now : Z) (alertId : string) (s : State)
    : option Alert * State :=
  match find (alert_has_id alertId) (alerts s) with
  | None => (None, s)
  | Some a =>
      let s := set_alerts
                 (update_first (alert_has_id alertId) (mark_resolved now)
                    (alerts s)) s in
      let s := addActivity now "alert_resolved" "monitor"
                 (al_monitorId a) None s in
      (Some (mark_resolved now a), s)
  end.

Definition alert_is_active (a : Alert) : bool :=
  match al_status a with
  | active => true
  | _ => false
  end.

(** [a => a.monitorId === monitorId && a.status === 'active'] *)
Definition active_alert_of (monitorId : string) (a : Alert) : bool :=
  String.eqb (al_monitorId a) monitorId && alert_is_active a.

Definition getActiveAlerts (s : State) : list Alert :=
  List.filter alert_is_active (alerts s).

(** [getAllAlerts()] hands out [state.alerts] itself, not a copy. *)
Definition getAllAlerts (s : State) : list Alert := alerts s.

(** *** Incidents *)

Definition incident_is_ongoing (i : Incident) : bool :=
  match inc_status i with
  | ongoing => true
  | resolved => false
  end.

(** [i => i.monitorId === monitorId && i.status === 'ongoing'] *)
Definition ongoing_incident_of (monitorId : string) (i : Incident) : bool :=
  String.eqb (inc_monitorId i) monitorId && incident_is_ongoing i.

(** [createIncident(monitorId, message)]: the incident is put in front of
    [state.incidents], and one critical alert of type [incident] is created
    with it. *)
Definition createIncident (now : Z) (monitorId message : string) (s : State)
    : Incident * State :=
  let monitor := monitorName s monitorId in
  let '(id, s) := uuidv4 s in
  let incident :=
    {| inc_id := id; inc_monitorId := monitorId;
       inc_monitorName := or_else monitor "Unknown";
       inc_status := ongoing; inc_message := message;
       inc_startedAt := now; inc_resolvedAt := None; inc_duration := None;
       inc_updates :=
         [ {| iu_timestamp := now; iu_status := "started";
              iu_message := "Incident detected: " +:+ message |} ] |} in
  let s := set_incidents (incident :: incidents s) s in
  let s := snd (createAlert now monitorId "incident" message critical s) in
  let s := addActivity now "incident_created" "monitor" monitorId monitor s in
  let s := addLog now "error"
             ("Incident started: " +:+ js_str monitor +:+ " - " +:+ message) s in
  (incident, s).

(** The in-place mutation of the incident found by
    [resolveIncidentForMonitor]. *)
Definition mark_incident_resolved (now : Z) (i : Incident) : Incident :=
  {| inc_id := inc_id i; inc_monitorId := inc_monitorId i;
     inc_monitorName := inc_monitorName i; inc_status := resolved;
     inc_message := inc_message i; inc_startedAt := inc_startedAt i;
     inc_resolvedAt := Some now;
     inc_duration := Some (now - inc_startedAt i);
     inc_updates :=
       inc_updates i ++
       [ {| iu_timestamp := now; iu_status := "resolved";
            iu_message := "Service recovered" |} ] |}.

(** [resolveIncidentForMonitor(monitorId)] *)
Definition resolveIncidentForMonitor (now : Z) (monitorId : string) (s : State)
    : option Incident * State :=
  match find (ongoing_incident_of monitorId) (incidents s) with
  | None => (None, s)
  | Some incident =>
      let s := set_incidents
                 (update_first (ongoing_incident_of monitorId)
                    (mark_incident_resolved now) (incidents s)) s in
      let s := set_alerts
                 (update_all (active_alert_of monitorId) (mark_resolved now)
                    (alerts s)) s in
      let s := addActivity now "incident_resolved" "monitor" monitorId
                 None s in
      let s := addLog now "info"
                 ("Incident resolved: " +:+ inc_monitorName incident) s in
      (Some (mark_incident_resolved now incident), s)
  end.

(** *** Statuses *)

Definition status_eqb (a b : StatusValue) : bool :=
  match a, b with
  | PENDING, PENDING | UP, UP | DOWN, DOWN => true
  | _, _ => false
  end.

(** The default used by [updateStatus] when the monitor has no entry. *)
Definition fallbackStatus : Status :=
  {| status := PENDING; responseTime := None; st_message := None;
     lastCheck := None; consecutiveFailures := 0; totalChecks := 0;
     successfulChecks := 0; history := []; sslInfo := None |}.

(** [updateStatus(monitorId, statusData)] *)
Definition updateStatus (now : Z) (monitorId : string) (statusData : CheckResult)
    (s : State) : Status * State :=
  let currentStatus := default fallbackStatus (statuses s !! monitorId) in
  let monitor := monitorName s monitorId in
  let previousStatus := status currentStatus in
  let newValue := status_of (cr_status statusData) in
  let isUp := status_eqb newValue UP in
  let consecutiveFailures' :=
    if isUp then 0 else consecutiveFailures currentStatus + 1 in
  let historyEntry :=
    {| he_timestamp := now; he_status := cr_status statusData;
       he_responseTime := cr_responseTime statusData;
       he_message := cr_message statusData |} in
  let history' := take 100 (historyEntry :: history currentStatus) in
  let newStatus :=
    {| status := newValue;
       responseTime := Some (cr_responseTime statusData);
       st_message := Some (cr_message statusData);
       lastCheck := Some now;
       consecutiveFailures := consecutiveFailures';
       totalChecks := totalChecks currentStatus + 1;
       successfulChecks :=
         if isUp then successfulChecks currentStatus + 1
         else successfulChecks currentStatus;
       history := history';
       sslInfo := cr_sslInfo statusData |} in
  let s := set_statuses (<[monitorId := newStatus]> (statuses s)) s in
  let s :=
    if negb (status_eqb previousStatus newValue)
    then addActivity now "status_change" "monitor" monitorId monitor s
    else s in
  let s :=
    if status_eqb previousStatus UP && status_eqb newValue DOWN
    then snd (createIncident now monitorId (cr_message statusData) s)
    else if status_eqb previousStatus DOWN && status_eqb newValue DOWN
    then
      if consecutiveFailuresThreshold (settings s) <=? consecutiveFailures'
      then
        match find (ongoing_incident_of monitorId) (incidents s) with
        | Some _ => s
        | None => snd (createIncident now monitorId (cr_message statusData) s)
        end
      else s
    else if status_eqb previousStatus DOWN && status_eqb newValue UP
            && autoResolve (settings s)
    then snd (resolveIncidentForMonitor now monitorId s)
    else s in
  (newStatus, s).

(** *** Contacts and contact groups *)

(** [createContact(data)]: [data] with the fresh id. *)
Definition with_contact_id (id : string) (c : Contact) : Contact :=
  {| ct_id := id; ct_name := ct_name c; ct_email := ct_email c;
     ct_phone := ct_phone c; ct_notifyEmail := ct_notifyEmail c;
     ct_notifySms := ct_notifySms c; ct_notifyOnDown := ct_notifyOnDown c;
     ct_notifyOnUp := ct_notifyOnUp c;
     ct_notifyOnIncident := ct_notifyOnIncident c |}.

Definition createContact (now : Z) (data : Contact) (s : State) : Contact * State :=
  let '(id, s) := uuidv4 s in
  let contact := with_contact_id id data in
  let s := set_contacts (jsmap_set id contact (contacts s)) s in
  let s := addActivity now "create" "contact" id (Some (ct_name contact)) s in
  let s := addLog now "info" ("Contact created: " +:+ ct_name contact) s in
  (contact, s).

(** [updateContact(id, data)]: [{...contact, ...data, id}]; [data] is given
    as the merged record. *)
Definition updateContact (now : Z) (id : string) (data : Contact) (s : State)
    : option Contact * State :=
  match jsmap_get id (contacts s) with
  | None => (None, s)
  | Some _ =>
      let updated := with_contact_id id data in
      let s := set_contacts (jsmap_set id updated (contacts s)) s in
      let s := addActivity now "update" "contact" id (Some (ct_name updated)) s in
      let s := addLog now "info" ("Contact updated: " +:+ ct_name updated) s in
      (Some updated, s)
  end.

(** [deleteContact(id)] *)
Definition deleteContact (now : Z) (id : string) (s : State) : bool * State :=
  match jsmap_get id (contacts s) with
  | None => (false, s)
  | Some contact =>
      let s := set_contacts (jsmap_delete id (contacts s)) s in
      let s := addActivity now "delete" "contact" id (Some (ct_name contact)) s in
      let s := addLog now "info" ("Contact deleted: " +:+ ct_name contact) s in
      (true, s)
  end.

(** [c.notifyOnDown || c.notifyOnUp || c.notifyOnIncident] *)
Definition wantsNotifications (c : Contact) : bool :=
  ct_notifyOnDown c || ct_notifyOnUp c || ct_notifyOnIncident c.

Definition getContactsForAlert (s : State) : list Contact :=
  List.filter wantsNotifications (jsmap_values (contacts s)).

(** [c => c.email && c.notifyEmail] *)
Definition emailEligible (c : Contact) : bool :=
  truthy (ct_email c) && ct_notifyEmail c.

(** [c => c.phone && c.notifySms] *)
Definition smsEligible (c : Contact) : bool :=
  truthy (ct_phone c) && ct_notifySms c.

Record Recipients := {
  emailRecipients : list Contact;
  smsRecipients : list Contact;
  allRecipients : list Contact
}.

(** The first loop of [getRecipientsForAlert]: direct contacts. *)
Definition addDirectContacts (cs : list Contact) (recipientMap : jsmap Contact)
    : jsmap Contact :=
  fold_left
    (fun m contact =>
       if wantsNotifications contact
       then jsmap_set (ct_id contact) contact m
       else m)
    cs recipientMap.

(** The inner loop of [getRecipientsForAlert]: the members of one group. *)
Definition addGroupMembers (store : jsmap Contact) (ids : list string)
    (recipientMap : jsmap Contact) : jsmap Contact :=
  fold_left
    (fun m contactId =>
       match jsmap_get contactId store with
       | Some contact =>
           if wantsNotifications contact
           then jsmap_set (ct_id contact) contact m
           else m
       | None => m
       end)
    ids recipientMap.

(** The second loop of [getRecipientsForAlert]: all groups. *)
Definition expandGroups (store : jsmap Contact) (groups : list ContactGroup)
    (recipientMap : jsmap Contact) : jsmap Contact :=
  fold_left
    (fun m group =>
       match cg_contactIds group with
       | Some ids => addGroupMembers store ids m
       | None => m
       end)
    groups recipientMap.

(** [getRecipientsForAlert()] *)
Definition getRecipientsForAlert (s : State) : Recipients :=
  let contacts := jsmap_values (contacts s) in
  let contactGroups := jsmap_values (contactGroups s) in
  let recipientMap := addDirectContacts contacts [] in
  let recipientMap := expandGroups (MonitorState.contacts s) contactGroups recipientMap in
  let allRecipients := jsmap_values recipientMap in
  {| emailRecipients := List.filter emailEligible allRecipients;
     smsRecipients := List.filter smsEligible allRecipients;
     allRecipients := allRecipients |}.

(** *** Network status *)

Definition getNetworkStatus (s : State) : NetworkStatus := networkStatus s.

(** [setNetworkStatus(isConnected)] *)
Definition setNetworkStatus (now : Z) (connected : bool) (s : State)
    : NetworkStatus * State :=
  let previousStatus := isConnected (networkStatus s) in
  let ns :=
    {| isConnected := connected; lastChecked := now;
       lastConnectedAt :=
         if connected then now else lastConnectedAt (networkStatus s) |} in
  let s := set_networkStatus ns s in
  let s :=
    if negb (Bool.eqb previousStatus connected)
    then addLog now "warn"
           ("Network status: " +:+
            (if connected then "CONNECTED" else "DISCONNECTED")) s
    else s in
  (ns, s).

End MonitorState.

(** ** monitors/monitorEngine.js *)

Module MonitorEngine.
Import MonitorState.

(** [haystack.includes(needle)] *)
Fixpoint includes (haystack needle : string) : bool :=
  String.prefix needle haystack ||
  match haystack with
  | EmptyString => false
  | String _ rest => includes rest needle
  end.

















End MonitorEngine.

(** ** services/notificationService.js *)

Module NotificationService.
Import MonitorState.

(** The requests that leave the process. *)
Inductive Outbound :=
| TtsExec (text : string)
| SmtpSendMail (recipient subject : string)
| SmsApiPost (recipient : list string) (sender message : string).

(** What the outside world answers: [None] is a thrown error. *)
Record Env := {
  axios_post : list string -> string -> string -> option string;
  transporter_sendMail : string -> string -> option string;
  exec_tts : string -> bool;
  platformSupported : bool
}.

Record SendResult := {
  sr_success : bool;
  sr_reason : option string;
  sr_recipientCount : option nat
}.

Definition failed (reason : string) : SendResult :=
  {| sr_success := false; sr_reason := Some reason; sr_recipientCount := None |}.

(** [sendEmail(to, subject, html, text)]; the [null] entity id of its
    activity entry is the empty string. *)
Definition sendEmail (env : Env) (now : Z) (recipient subject : string) (s : State)
    : SendResult * State * list Outbound :=
  let settings := settings s in
  if negb (emailEnabled settings)
  then (failed "Email notifications disabled", s, [])
  else if String.eqb (smtpHost settings) "" || String.eqb (smtpUser settings) ""
  then (failed "Email not configured", s, [])
  else
    match transporter_sendMail env recipient subject with
    | Some messageId =>
        let s := addLog now "info" ("Email sent to " +:+ recipient) s in
        let s := addActivity now "notification_sent" "email" "" None s in
        ({| sr_success := true; sr_reason := None; sr_recipientCount := None |},
         s, [SmtpSendMail recipient subject])
    | None =>
        let s := addLog now "error" "Email failed" s in
        (failed "error", s, [SmtpSendMail recipient subject])
    end.

(** The [phone] argument of [sendSms]: one number or an array. *)
Inductive PhoneArg :=
| OnePhone (p : string)
| PhoneArray (ps : list string).

Definition recipientsOf (phone : PhoneArg) : list string :=
  match phone with
  | OnePhone p => [p]
  | PhoneArray ps => ps
  end.

Fixpoint join (sep : string) (l : list string) : string :=
  match l with
  | [] => ""
  | [x] => x
  | x :: t => x +:+ sep +:+ join sep t
  end.

(** [sendSms(phone, message)]: one POST to the SMS API with the whole
    recipient list.  The text of a thrown error is not kept in the log
    entry. *)
Definition sendSms (env : Env) (now : Z) (phone : PhoneArg) (message : string)
    (s : State) : SendResult * State * list Outbound :=
  let settings := settings s in
  if negb (smsEnabled settings)
  then (failed "SMS notifications disabled", s, [])
  else
    let recipients := recipientsOf phone in
    let sender := or_else (smsSenderId settings) "PulseMonitor" in
    match axios_post env recipients sender message with
    | Some response =>
        let s := addLog now "info" ("SMS sent to " +:+ join ", " recipients) s in
        let s := addActivity now "notification_sent" "sms" "" None s in
        ({| sr_success := true; sr_reason := None;
            sr_recipientCount := Some (length recipients) |},
         s, [SmsApiPost recipients sender message])
    | None =>
        let s := addLog now "error" "SMS failed" s in
        (failed "error", s, [SmsApiPost recipients sender message])
    end.

(** [sendSmsBatch(phones, message)] *)
Definition sendSmsBatch (env : Env) (now : Z) (phones : list string)
    (message : string) (s : State) : SendResult * State * list Outbound :=
  let settings := settings s in
  if negb (smsEnabled settings)
  then (failed "SMS notifications disabled", s, [])
  else match phones with
       | [] => (failed "No phone numbers provided", s, [])
       | _ => sendSms env now (PhoneArray phones) message s
       end.

(** [speak(text)] without [options.force] *)
Definition speak (env : Env) (text : string) (s : State)
    : SendResult * list Outbound :=
  if negb (ttsEnabled (settings s))
  then (failed "TTS disabled", [])
  else if negb (platformSupported env)
  then (failed "Unsupported platform", [])
  else ({| sr_success := exec_tts env text; sr_reason := None;
           sr_recipientCount := None |}, [TtsExec text]).

Definition severityText (sv : Severity) : string :=
  match sv with
  | critical => "critical"
  | warning => "warning"
  end.

Definition severityUpper (sv : Severity) : string :=
  match sv with
  | critical => "CRITICAL"
  | warning => "WARNING"
  end.

(** The [for (const contact of emailRecipients)] loop. *)
Fixpoint sendEmails (env : Env) (now : Z) (subject : string)
    (recipients : list Contact) (s : State) : State * list Outbound :=
  match recipients with
  | [] => (s, [])
  | contact :: rest =>
      let '(_, s, out1) := sendEmail env now (js_str (ct_email contact)) subject s in
      let '(s, out2) := sendEmails env now subject rest s in
      (s, out1 ++ out2)
  end.

Record DispatchResult := {
  emailsSent : nat;
  smsSent : nat;
  ttsFired : bool
}.

(** [sendAlertNotification(alert, monitor)] *)
Definition sendAlertNotification (env : Env) (now : Z) (alert : Alert)
    (monitor : option Monitor) (s : State)
    : DispatchResult * State * list Outbound :=
  let settings := settings s in
  let r := getRecipientsForAlert s in
  let name := mon_name <$> monitor in
  let isDown :=
    String.eqb (al_type alert) "incident" ||
    match al_severity alert with critical => true | _ => false end in
  let alertText := or_else (customAlertText settings) (al_message alert) in
  let outTts :=
    if soundEnabled settings && ttsEnabled settings
    then
      let textToSpeak :=
        or_else (Some alertText)
          ("Alert! " +:+ or_else name "Unknown service" +:+ " is " +:+
           (if isDown then "down" else "recovered") +:+ ". " +:+
           al_message alert) in
      snd (speak env textToSpeak s)
    else [] in
  let '(s, outMail) :=
    if emailEnabled settings && negb (Nat.eqb (length (emailRecipients r)) 0)
    then
      sendEmails env now
        ("[" +:+ severityUpper (al_severity alert) +:+ "] " +:+
         or_else name "Unknown" +:+ ": " +:+ al_type alert)
        (emailRecipients r) s
    else (s, []) in
  let '(s, outSms) :=
    if smsEnabled settings && negb (Nat.eqb (length (smsRecipients r)) 0)
    then
      let smsText :=
        "[" +:+ severityText (al_severity alert) +:+ "] " +:+
        js_str name +:+ ": " +:+ al_message alert in
      let phones :=
        map js_str (List.filter truthy (map ct_phone (smsRecipients r))) in
      match phones with
      | [] => (s, [])
      | _ => let '(_, s, out) := sendSmsBatch env now phones smsText s in (s, out)
      end
    else (s, []) in
  ({| emailsSent := length (emailRecipients r);
      smsSent := length (smsRecipients r);
      ttsFired := soundEnabled settings && ttsEnabled settings |},
   s, outTts ++ outMail ++ outSms).

End NotificationService.

(** ** handlers/socketHandlers.js *)

Module SocketHandlers.
Import MonitorState NotificationService.

(** [lastNetworkNotificationType] *)
Inductive NotificationType := connected | disconnected.

(** What a handler does to the outside, in the order it does it. *)
Inductive Effect :=
| Broadcast (event : string)
| AlertNotification (alert : Alert)
| NetworkNotification (sentAt : Z) (isConnected : bool)
| Request (o : Outbound).

(** The module state of socketHandlers.js next to the shared [state]:
    the timer registry, the checks whose probe has not answered yet (each
    holds the [monitor] object it read before the [await]), and the two
    variables of the self-check cooldown. *)
Record Server := {
  state : State;
  monitorIntervals : gmap string Z;
  inFlight : list (string * Monitor);
  lastNetworkNotificationTime : Z;
  lastNetworkNotificationType : option NotificationType
}.

Definition NETWORK_NOTIFICATION_COOLDOWN : Z := 60000.

Definition set_state (v : State) (srv : Server) : Server :=
  {| state := v; monitorIntervals := monitorIntervals srv;
     inFlight := inFlight srv;
     lastNetworkNotificationTime := lastNetworkNotificationTime srv;
     lastNetworkNotificationType := lastNetworkNotificationType srv |}.

Definition set_monitorIntervals (v : gmap string Z) (srv : Server) : Server :=
  {| state := state srv; monitorIntervals := v;
     inFlight := inFlight srv;
     lastNetworkNotificationTime := lastNetworkNotificationTime srv;
     lastNetworkNotificationType := lastNetworkNotificationType srv |}.

Definition set_inFlight (v : list (string * Monitor)) (srv : Server) : Server :=
  {| state := state srv; monitorIntervals := monitorIntervals srv;
     inFlight := v;
     lastNetworkNotificationTime := lastNetworkNotificationTime srv;
     lastNetworkNotificationType := lastNetworkNotificationType srv |}.

Definition set_lastNotification (time : Z) (type : NotificationType)
    (srv : Server) : Server :=
  {| state := state srv; monitorIntervals := monitorIntervals srv;
     inFlight := inFlight srv;
     lastNetworkNotificationTime := time;
     lastNetworkNotificationType := Some type |}.

(** The process at start-up: no timers, and the cooldown variables at
    [0] / [null]. *)
Definition initialServer (now : Z) : Server :=
  {| state := createInitialState now; monitorIntervals := ∅; inFlight := [];
     lastNetworkNotificationTime := 0;
     lastNetworkNotificationType := None |}.

(** *** Monitor execution *)

(** [a => a.monitorId === monitorId && a.status === 'active' &&
          new Date(a.createdAt) > new Date(Date.now() - 5000)] *)
Definition recent_active_alert_of (now : Z) (monitorId : string) (a : Alert)
    : bool :=
  active_alert_of monitorId a && (now - 5000 <? al_createdAt a).

(** [runCheck], up to its first [await]: the monitor is looked up, and when
    it exists the probe is started with it. *)
Definition runCheck_start (monitorId : string) (srv : Server) : Server :=
  match getMonitor (state srv) monitorId with
  | None => srv
  | Some monitor => set_inFlight (inFlight srv ++ [(monitorId, monitor)]) srv
  end.

(** [runCheck], from the moment [checkMonitorOnce] has answered with
    [result]; [monitor] is the object read before the [await]. *)
Definition runCheck_finish (env : Env) (now : Z) (monitorId : string)
    (monitor : Monitor) (result : CheckResult) (srv : Server)
    : Server * list Effect :=
  let s := state srv in
  let previousStatus := getStatus s monitorId in
  let s := snd (updateStatus now monitorId result s) in
  let eff := [Broadcast "statuses-update"; Broadcast "stats-update"] in
  let changed :=
    match previousStatus with
    | Some st => negb (status_eqb (status st) (status_of (cr_status result)))
    | None => true
    end in
  if changed
  then
    let eff := eff ++ [Broadcast "alerts-update"; Broadcast "incidents-update";
                       Broadcast "logs-update"; Broadcast "activity-update"] in
    match cr_status result with
    | CHECK_DOWN =>
        match find (recent_active_alert_of now monitorId) (getAllAlerts s) with
        | Some alert =>
            let '(_, s, out) := sendAlertNotification env now alert (Some monitor) s in
            (set_state s srv,
             eff ++ [AlertNotification alert] ++ map Request out)
        | None => (set_state s srv, eff)
        end
    | CHECK_UP =>
        match status <$> previousStatus with
        | Some DOWN =>
            match find (active_alert_of monitorId) (getAllAlerts s) with
            | Some alert =>
                let s := set_alerts
                           (update_first (active_alert_of monitorId)
                              (mark_resolved now) (alerts s)) s in
                let alert := mark_resolved now alert in
                let '(_, s, out) := sendAlertNotification env now alert (Some monitor) s in
                (set_state s srv,
                 eff ++ [AlertNotification alert] ++ map Request out ++
                 [Broadcast "alerts-update"])
            | None => (set_state s srv, eff)
            end
        | _ => (set_state s srv, eff)
        end
    end
  else (set_state s srv, eff).

(** [stopMonitorInterval(monitorId)] *)
Definition stopMonitorInterval (monitorId : string) (srv : Server) : Server :=
  match monitorIntervals srv !! monitorId with
  | Some _ => set_monitorIntervals (delete monitorId (monitorIntervals srv)) srv
  | None => srv
  end.

(** [(monitor.schedule || 60) * 1000] *)
Definition intervalMs (monitor : Monitor) : Z :=
  (if mon_schedule monitor =? 0 then 60 else mon_schedule monitor) * 1000.

(** [startMonitorInterval(io, monitorId)] *)
Definition startMonitorInterval (now : Z) (monitorId : string) (srv : Server)
    : Server :=
  match getMonitor (state srv) monitorId with
  | None => srv
  | Some monitor =>
      if negb (mon_enabled monitor) then srv
      else
        let srv := stopMonitorInterval monitorId srv in
        let srv := set_monitorIntervals
                     (<[monitorId := intervalMs monitor]> (monitorIntervals srv))
                     srv in
        set_state
          (addLog now "info" ("Started monitoring: " +:+ mon_name monitor)
             (state srv)) srv
  end.

(** [socket.on('monitor:create', ...)] for a configuration that passed
    validation. *)
Definition onMonitorCreate (now : Z) (data : Monitor) (srv : Server)
    : Server * list Effect :=
  let '(monitor, s) := createMonitor now data (state srv) in
  let srv := set_state s srv in
  let eff := [Broadcast "monitors-update"; Broadcast "statuses-update"] in
  if mon_enabled monitor
  then (runCheck_start (mon_id monitor)
          (startMonitorInterval now (mon_id monitor) srv), eff)
  else (srv, eff).

(** [socket.on('monitor:delete', ...)] *)
Definition onMonitorDelete (now : Z) (id : string) (srv : Server)
    : Server * list Effect :=
  let srv := stopMonitorInterval id srv in
  let '(result, s) := deleteMonitor now id (state srv) in
  let srv := set_state s srv in
  if result
  then (srv, [Broadcast "monitors-update"; Broadcast "statuses-update";
              Broadcast "applications-update"])
  else (srv, []).

(** *** The event loop

    Between two [await]s a handler runs to completion, so the process is a
    sequence of atomic steps: a timer fires, a probe answers, a client sends
    a message. *)
Inductive Event :=
| TimerFires (monitorId : string)
| CheckNow (monitorId : string)
| ProbeAnswers (monitorId : string) (result : CheckResult)
| ClientCreates (data : Monitor)
| ClientDeletes (monitorId : string).

(** The oldest pending check of [monitorId] is taken out of the list. *)
Fixpoint takeInFlight (monitorId : string) (l : list (string * Monitor))
    : option (Monitor * list (string * Monitor)) :=
  match l with
  | [] => None
  | (id, monitor) :: rest =>
      if String.eqb id monitorId then Some (monitor, rest)
      else match takeInFlight monitorId rest with
           | Some (m, rest') => Some (m, (id, monitor) :: rest')
           | None => None
           end
  end.

Definition step (env : Env) (now : Z) (e : Event) (srv : Server)
    : Server * list Effect :=
  match e with
  | TimerFires monitorId =>
      match monitorIntervals srv !! monitorId with
      | Some _ => (runCheck_start monitorId srv, [])
      | None => (srv, [])
      end
  | CheckNow monitorId => (runCheck_start monitorId srv, [])
  | ProbeAnswers monitorId result =>
      match takeInFlight monitorId (inFlight srv) with
      | Some (monitor, rest) =>
          runCheck_finish env now monitorId monitor result
            (set_inFlight rest srv)
      | None => (srv, [])
      end
  | ClientCreates data => onMonitorCreate now data srv
  | ClientDeletes monitorId => onMonitorDelete now monitorId srv
  end.

Fixpoint run (env : Env) (events : list (Z * Event)) (srv : Server)
    : Server * list Effect :=
  match events with
  | [] => (srv, [])
  | (now, e) :: rest =>
      let '(srv, eff1) := step env now e srv in
      let '(srv, eff2) := run env rest srv in
      (srv, eff1 ++ eff2)
  end.

(** *** Network connectivity check *)

(** [sendNetworkStatusNotification(io, isConnected)] *)
Definition sendNetworkStatusNotification (env : Env) (now : Z)
    (isConnected : bool) (s : State) : State * list Outbound :=
  let settings := settings s in
  let contacts := getContactsForAlert s in
  let outTts :=
    if soundEnabled settings && ttsEnabled settings
    then snd (speak env
                (if isConnected
                 then "Network connectivity has been restored. All systems operational."
                 else "Warning! Network connectivity has been lost. Services may not function properly.")
                s)
    else [] in
  let '(s, outMail) :=
    if emailEnabled settings && negb (Nat.eqb (length contacts) 0)
    then
      sendEmails env now
        (if isConnected
         then "[INFO] Network Connectivity Restored"
         else "[CRITICAL] Network Connectivity Lost")
        (List.filter emailEligible contacts) s
    else (s, []) in
  (s, outTts ++ outMail).

(** [lastNetworkNotificationType !== type] *)
Definition lastTypeIsNot (type : NotificationType) (srv : Server) : bool :=
  match lastNetworkNotificationType srv, type with
  | Some connected, connected => false
  | Some disconnected, disconnected => false
  | _, _ => true
  end.

(** The guard in front of both calls of [sendNetworkStatusNotification]:
    [timeSinceLastNotification > NETWORK_NOTIFICATION_COOLDOWN &&
     lastNetworkNotificationType !== type]. *)
Definition mayNotify (now : Z) (type : NotificationType) (srv : Server) : bool :=
  (NETWORK_NOTIFICATION_COOLDOWN <? now - lastNetworkNotificationTime srv)
  && lastTypeIsNot type srv.

(** [checkNetworkConnectivity(io)], run when the request to the reference
    host has succeeded ([reachable = true]) or failed; [now] is the time at
    which the outcome is handled. *)
Definition checkNetworkConnectivity (env : Env) (now : Z) (reachable : bool)
    (srv : Server) : Server * list Effect :=
  let previousStatus := isConnected (getNetworkStatus (state srv)) in
  if reachable
  then
    let '(newStatus, s) := setNetworkStatus now true (state srv) in
    let srv := set_state s srv in
    if negb previousStatus
    then
      let s := addLog now "info" "Network connectivity restored" (state srv) in
      let srv := set_state s srv in
      if mayNotify now connected srv
      then
        let srv := set_lastNotification now connected srv in
        let '(s, out) := sendNetworkStatusNotification env now true (state srv) in
        (set_state s srv,
         [Broadcast "network-status"; NetworkNotification now true]
         ++ map Request out)
      else (srv, [Broadcast "network-status"])
    else (srv, [Broadcast "network-status"])
  else
    let '(newStatus, s) := setNetworkStatus now false (state srv) in
    let srv := set_state s srv in
    if previousStatus
    then
      let s := addLog now "error" "Network connectivity lost" (state srv) in
      let s := snd (createIncident now "NETWORK"
                      "Internet connectivity lost - services may not function properly" s) in
      let s := snd (createAlert now "NETWORK" "connectivity"
                      "Internet connectivity lost" critical s) in
      let srv := set_state s srv in
      let eff := [Broadcast "network-status"; Broadcast "incidents-update";
                  Broadcast "alerts-update"] in
      if mayNotify now disconnected srv
      then
        let srv := set_lastNotification now disconnected srv in
        let '(s, out) := sendNetworkStatusNotification env now false (state srv) in
        (set_state s srv,
         eff ++ [NetworkNotification now false] ++ map Request out)
      else (srv, eff)
    else (srv, [Broadcast "network-status"]).

(** The self-check loop: one call of [checkNetworkConnectivity] per tick,
    each with the time and the outcome of its request. *)
Fixpoint runNetworkChecks (env : Env) (ticks : list (Z * bool)) (srv : Server)
    : Server * list Effect :=
  match ticks with
  | [] => (srv, [])
  | (now, reachable) :: rest =>
      let '(srv, eff1) := checkNetworkConnectivity env now reachable srv in
      let '(srv, eff2) := runNetworkChecks env rest srv in
      (srv, eff1 ++ eff2)
  end.

(** The calls of [sendNetworkStatusNotification] among the effects. *)
Fixpoint networkNotifications (eff : list Effect) : list (Z * bool) :=
  match eff with
  | [] => []
  | NetworkNotification sentAt isConnected :: rest =>
      (sentAt, isConnected) :: networkNotifications rest
  | _ :: rest => networkNotifications rest
  end.

End SocketHandlers.

(** ** monitors/monitorEngine.js: dispatch and validation *)

Module MonitorDispatch.
Import MonitorState.

(** A field of a configuration object as [validateMonitorConfig] looks at
    it: absent, [undefined] or [null]; a string; or a value of another
    type (number, boolean, object, array), of which only the truthiness
    matters. *)
Inductive JsValue :=
| JsNullish
| JsString (s : string)
| JsOther (truthy : bool).

(** [!!v] *)
Definition isTruthy (v : JsValue) : bool :=
  match v with
  | JsNullish => false
  | JsString s => negb (String.eqb s "")
  | JsOther b => b
  end.

Definition lowerAscii (c : Ascii.ascii) : Ascii.ascii :=
  let n := Ascii.N_of_ascii c in
  if ((65 <=? n) && (n <=? 90))%N then Ascii.ascii_of_N (n + 32) else c.

(** [s.toLowerCase()] for a string of ASCII characters: the letters A to
    Z are lowered and every other character is kept.  On other strings it
    still tells whether the lower case is a monitor type, since no
    character outside A to Z has a letter of a monitor type for its lower
    case. *)
Fixpoint toLowerCase (s : string) : string :=
  match s with
  | EmptyString => EmptyString
  | String c rest => String (lowerAscii c) (toLowerCase rest)
  end.

(** Whether every character of [s] is an ASCII character. *)
Fixpoint isAscii (s : string) : bool :=
  match s with
  | EmptyString => true
  | String c rest => (Ascii.N_of_ascii c <? 128)%N && isAscii rest
  end.

(** [s.toLowerCase()] for any string: the lower case of a string with
    other characters than ASCII follows the Unicode tables of the engine,
    [engineLower]. *)
Definition lowerCase (engineLower : string -> string) (s : string) : string :=
  if isAscii s then toLowerCase s else engineLower s.

(** The outcomes of the six probes; which one is run is all that
    [checkMonitorOnce] decides. *)
Record Probes := {
  probeHttp : Monitor -> CheckResult;
  probeIcmp : Monitor -> CheckResult;
  probeTcp : Monitor -> CheckResult;
  probeSsh : Monitor -> CheckResult;
  probeTelnet : Monitor -> CheckResult;
  probeSftp : Monitor -> CheckResult
}.

(** [checkMonitorOnce(monitor)] *)
Definition checkMonitorOnce (engineLower : string -> string) (probes : Probes)
    (monitor : Monitor) : CheckResult :=
  let type := lowerCase engineLower (mon_type monitor) in
  if String.eqb type "http" || String.eqb type "https"
  then probeHttp probes monitor
  else if String.eqb type "icmp" || String.eqb type "ping"
  then probeIcmp probes monitor
  else if String.eqb type "tcp" then probeTcp probes monitor
  else if String.eqb type "ssh" then probeSsh probes monitor
  else if String.eqb type "telnet" then probeTelnet probes monitor
  else if String.eqb type "sftp" then probeSftp probes monitor
  else {| cr_status := CHECK_DOWN; cr_responseTime := 0;
          cr_message := "Unknown monitor type: " +:+ type;
          cr_statusCode := None; cr_sslInfo := None |}.

(** The fields of a configuration that [validateMonitorConfig] reads. *)
Record Config := {
  cfg_name : JsValue;
  cfg_type : JsValue;
  cfg_url : JsValue;
  cfg_host : JsValue;
  cfg_port : JsValue;
  cfg_username : JsValue;
  cfg_password : JsValue;
  cfg_privateKey : JsValue
}.

(** [config.type?.toLowerCase()]: [Some None] is [undefined], and [None]
    the TypeError of a value that has no [toLowerCase].  The verdict of
    the validation depends on the lowered type through its comparisons
    with the type names only, which [toLowerCase] decides as the engine
    does. *)
Definition lowerType (v : JsValue) : option (option string) :=
  match v with
  | JsNullish => Some None
  | JsString s => Some (Some (toLowerCase s))
  | JsOther _ => None
  end.

(** [case label:] of a [switch (type)] *)
Definition isCase (type : option string) (label : string) : bool :=
  match type with
  | Some t => String.eqb t label
  | None => false
  end.

(** [if (missing) errors.push(e)] *)
Definition pushIf (missing : bool) (e : string) (errors : list string)
    : list string :=
  if missing then errors ++ [e] else errors.

Record Validation := {
  valid : bool;
  errors : list string
}.

(** [validateMonitorConfig(config)]; [None] when it throws. *)
Definition validateMonitorConfig (config : Config) : option Validation :=
  let missing v := negb (isTruthy v) in
  let errors := [] in
  let errors := pushIf (missing (cfg_name config)) "Name is required" errors in
  let errors := pushIf (missing (cfg_type config)) "Type is required" errors in
  match lowerType (cfg_type config) with
  | None => None
  | Some type =>
      let errors :=
        if isCase type "http" || isCase type "https"
        then pushIf (missing (cfg_url config))
               "URL is required for HTTP/HTTPS monitors" errors
        else if isCase type "icmp" || isCase type "ping"
        then pushIf (missing (cfg_host config))
               "Host is required for ICMP monitors" errors
        else if isCase type "tcp"
        then
          let errors := pushIf (missing (cfg_host config))
                          "Host is required for TCP monitors" errors in
          pushIf (missing (cfg_port config))
            "Port is required for TCP monitors" errors
        else if isCase type "ssh" || isCase type "sftp"
        then
          let errors := pushIf (missing (cfg_host config))
                          "Host is required" errors in
          let errors := pushIf (missing (cfg_username config))
                          "Username is required" errors in
          pushIf (missing (cfg_password config)
                  && missing (cfg_privateKey config))
            "Password or private key is required" errors
        else if isCase type "telnet"
        then pushIf (missing (cfg_host config))
               "Host is required for Telnet monitors" errors
        else errors ++ ["Unknown monitor type: " +:+ js_str type]
      in
      Some {| valid := Nat.eqb (length errors) 0; errors := errors |}
  end.

End MonitorDispatch.

(** ** Editing monitors: state/monitorState.js, handlers/socketHandlers.js
       and routes/apiRoutes.js *)

Module MonitorHandlers.
Import MonitorState NotificationService SocketHandlers.

(** The [data] of an update: the fields it carries replace those of the
    monitor, the others are kept. *)
Record MonitorPatch := {
  pt_name : option string;
  pt_type : option string;
  pt_enabled : option bool;
  pt_url : option (option string);
  pt_expectedStatus : option ExpectedStatus;
  pt_expectedContent : option (option string);
  pt_schedule : option Z
}.

(** [{ ...monitor, ...data, id }] *)
Definition spread (id : string) (monitor : Monitor) (data : MonitorPatch)
    : Monitor :=
  {| mon_id := id;
     mon_name := default (mon_name monitor) (pt_name data);
     mon_type := default (mon_type monitor) (pt_type data);
     mon_enabled := default (mon_enabled monitor) (pt_enabled data);
     mon_url := default (mon_url monitor) (pt_url data);
     mon_expectedStatus :=
       default (mon_expectedStatus monitor) (pt_expectedStatus data);
     mon_expectedContent :=
       default (mon_expectedContent monitor) (pt_expectedContent data);
     mon_schedule := default (mon_schedule monitor) (pt_schedule data) |}.

(** [updateMonitor(id, data)] *)
Definition updateMonitor (now : Z) (id : string) (data : MonitorPatch)
    (s : State) : option Monitor * State :=
  match monitors s !! id with
  | None => (None, s)
  | Some monitor =>
      let updated := spread id monitor data in
      let s := set_monitors (<[id := updated]> (monitors s)) s in
      let s := addActivity now "update" "monitor" id (Some (mon_name updated)) s in
      let s := addLog now "info" ("Monitor updated: " +:+ mon_name updated) s in
      (Some updated, s)
  end.

(** [socket.on('monitor:update', ...)]; [id] is [data.id]. *)
Definition onMonitorUpdate (now : Z) (id : string) (data : MonitorPatch)
    (srv : Server) : Server * list Effect :=
  let '(monitor, s) := updateMonitor now id data (state srv) in
  let srv := set_state s srv in
  match monitor with
  | Some monitor =>
      let eff := [Broadcast "monitors-update"; Broadcast "applications-update"] in
      let srv := stopMonitorInterval id srv in
      if mon_enabled monitor
      then (startMonitorInterval now (mon_id monitor) srv, eff)
      else (srv, eff)
  | None => (srv, [])
  end.

(** [{ enabled: !monitor.enabled }] *)
Definition toggled (monitor : Monitor) : MonitorPatch :=
  {| pt_name := None; pt_type := None;
     pt_enabled := Some (negb (mon_enabled monitor));
     pt_url := None; pt_expectedStatus := None; pt_expectedContent := None;
     pt_schedule := None |}.

(** [socket.on('monitor:toggle', ...)] *)
Definition onMonitorToggle (now : Z) (id : string) (srv : Server)
    : Server * list Effect :=
  match getMonitor (state srv) id with
  | Some monitor =>
      let '(updated, s) := updateMonitor now id (toggled monitor) (state srv) in
      let srv := set_state s srv in
      match updated with
      | Some updated =>
          let srv :=
            if mon_enabled updated
            then runCheck_start id (startMonitorInterval now id srv)
            else stopMonitorInterval id srv in
          (srv, [Broadcast "monitors-update"])
      | None => (srv, [])
      end
  | None => (srv, [])
  end.

(** [router.post('/monitors', ...)] for a configuration that passed
    validation: the monitor is stored and returned. *)
Definition postMonitor (now : Z) (data : Monitor) (srv : Server)
    : Server * Monitor :=
  let '(monitor, s) := createMonitor now data (state srv) in
  (set_state s srv, monitor).

(** [router.put('/monitors/:id', ...)]; [None] is the answer 404. *)
Definition putMonitor (now : Z) (id : string) (data : MonitorPatch)
    (srv : Server) : Server * option Monitor :=
  let '(monitor, s) := updateMonitor now id data (state srv) in
  (set_state s srv, monitor).

(** [router.delete('/monitors/:id', ...)]; [false] is the answer 404. *)
Definition deleteMonitorRoute (now : Z) (id : string) (srv : Server)
    : Server * bool :=
  let '(result, s) := deleteMonitor now id (state srv) in
  (set_state s srv, result).

(** [router.post('/monitors/:id/check', ...)], from the moment
    [checkMonitorOnce] has answered with [result]: the result is recorded
    and returned. *)
Definition checkRoute_finish (now : Z) (id : string) (result : CheckResult)
    (srv : Server) : Server * CheckResult :=
  (set_state (snd (updateStatus now id result (state srv))) srv, result).

End MonitorHandlers.

(** ** Contact groups: state/monitorState.js, handlers/socketHandlers.js
       and routes/apiRoutes.js *)

Module ContactGroups.
Import MonitorState.

Definition set_contactGroups (v : jsmap ContactGroup) (s : State) : State :=
  {| monitors := monitors s; statuses := statuses s; contacts := contacts s;
     contactGroups := v; incidents := incidents s;
     alerts := alerts s; activityLogs := activityLogs s; logs := logs s;
     settings := settings s; networkStatus := networkStatus s;
     uuidSeed := uuidSeed s |}.

Definition getContactGroup (s : State) (id : string) : option ContactGroup :=
  jsmap_get id (contactGroups s).

(** [createContactGroup(data)]: [contactIds: data.contactIds || []] *)
Definition createContactGroup (now : Z) (data : ContactGroup) (s : State)
    : ContactGroup * State :=
  let '(id, s) := uuidv4 s in
  let group :=
    {| cg_id := id; cg_name := cg_name data;
       cg_contactIds := Some (default [] (cg_contactIds data)) |} in
  let s := set_contactGroups (jsmap_set id group (contactGroups s)) s in
  let s := addActivity now "create" "contactGroup" id (Some (cg_name group)) s in
  let s := addLog now "info" ("Contact group created: " +:+ cg_name group) s in
  (group, s).

(** The [data] of an update: the fields it carries replace those of the
    group. *)
Record ContactGroupPatch := {
  cgp_name : option string;
  cgp_contactIds : option (option (list string))
}.

(** [updateContactGroup(id, data)]: [{ ...group, ...data, id }] *)
Definition updateContactGroup (now : Z) (id : string) (data : ContactGroupPatch)
    (s : State) : option ContactGroup * State :=
  match jsmap_get id (contactGroups s) with
  | None => (None, s)
  | Some group =>
      let updated :=
        {| cg_id := id;
           cg_name := default (cg_name group) (cgp_name data);
           cg_contactIds := default (cg_contactIds group) (cgp_contactIds data) |} in
      let s := set_contactGroups (jsmap_set id updated (contactGroups s)) s in
      let s := addActivity now "update" "contactGroup" id
                 (Some (cg_name updated)) s in
      (Some updated, s)
  end.

(** [deleteContactGroup(id)] *)
Definition deleteContactGroup (now : Z) (id : string) (s : State) : bool * State :=
  match jsmap_get id (contactGroups s) with
  | None => (false, s)
  | Some group =>
      let s := set_contactGroups (jsmap_delete id (contactGroups s)) s in
      let s := addActivity now "delete" "contactGroup" id
                 (Some (cg_name group)) s in
      (true, s)
  end.

(** A group object handed to [updateContactGroup] as its [data]. *)
Definition asPatch (group : ContactGroup) : ContactGroupPatch :=
  {| cgp_name := Some (cg_name group);
     cgp_contactIds := Some (cg_contactIds group) |}.

(** [group.contactIds = ids] on the object that the map holds under
    [groupId]. *)
Definition withContactIds (ids : list string) (group : ContactGroup)
    : ContactGroup :=
  {| cg_id := cg_id group; cg_name := cg_name group;
     cg_contactIds := Some ids |}.

Definition mutateStored (groupId : string) (group : ContactGroup) (s : State)
    : State :=
  set_contactGroups (jsmap_set groupId group (contactGroups s)) s.

(** [ids.includes(contactId)] *)
Definition includesId (ids : list string) (contactId : string) : bool :=
  existsb (fun id => String.eqb id contactId) ids.

(** [ids.filter(id => id !== contactId)] *)
Definition withoutId (ids : list string) (contactId : string) : list string :=
  List.filter (fun id => negb (String.eqb id contactId)) ids.

(** What a handler answers; [Thrown]: the handler of a route throws, and
    the answer is the 500 of Express. *)
Inductive Reply :=
| Success (group : ContactGroup)
| Failure (error : string)
| Thrown (error : string).

(** A [contactIds] that is no array, for which [cg_contactIds] is [None]:
    missing or another falsy value, or a truthy value, given by what its
    [includes(contactId)] answers.  That is [None] when the call throws, as
    it does for a number or an object, which have no such method, and the
    substring test for a string.  A value that is no array has no
    [push]. *)
Inductive NotAnArray :=
| Falsy
| Truthy (includes : string -> option bool).

(** [group.contactIds] after [if (!group.contactIds) group.contactIds = []]:
    an array, or the [includes] of a truthy value that is none. *)
Definition contactIdsOrEmpty (unlisted : NotAnArray) (group : ContactGroup)
    : list string + (string -> option bool) :=
  match cg_contactIds group, unlisted with
  | Some ids, _ => inl ids
  | None, Falsy => inl []
  | None, Truthy includes => inr includes
  end.

(** [socket.on('contactGroup:add-member', ...)]: [unlisted] tells what the
    [contactIds] of the group is when it is no array, and [typeError] is
    the message of the [TypeError] that the engine raises for a call of
    what is no function; the [catch] of the handler answers with it. *)
Definition onAddMember (unlisted : NotAnArray) (typeError : string) (now : Z)
    (groupId contactId : string) (s : State) : Reply * State :=
  match getContactGroup s groupId with
  | None => (Failure "Contact group not found", s)
  | Some group =>
      match contactIdsOrEmpty unlisted group with
      | inl ids =>
          if negb (includesId ids contactId)
          then
            let group := withContactIds (ids ++ [contactId]) group in
            let s := mutateStored groupId group s in
            let s := snd (updateContactGroup now groupId (asPatch group) s) in
            let s := addActivity now "member_added" "contactGroup" groupId
                       (Some (cg_name group)) s in
            (Success group, s)
          else (Failure "Contact already in group", s)
      | inr includes =>
          match includes contactId with
          | Some true => (Failure "Contact already in group", s)
          | Some false => (Failure typeError, s)
          | None => (Failure typeError, s)
          end
      end
  end.

(** [socket.on('contactGroup:remove-member', ...)] *)
Definition onRemoveMember (now : Z) (groupId contactId : string) (s : State)
    : Reply * State :=
  match getContactGroup s groupId with
  | None => (Failure "Contact group not found", s)
  | Some group =>
      match cg_contactIds group with
      | Some ids =>
          let group := withContactIds (withoutId ids contactId) group in
          let s := mutateStored groupId group s in
          let s := snd (updateContactGroup now groupId (asPatch group) s) in
          let s := addActivity now "member_removed" "contactGroup" groupId
                     (Some (cg_name group)) s in
          (Success group, s)
      | None => (Failure "Failed to remove member", s)
      end
  end.

(** [router.post('/contact-groups/:id/members/:contactId', ...)], with the
    status code of the answer.  The route has no [try]: a [TypeError] goes
    to Express, which answers 500. *)
Definition postMember (unlisted : NotAnArray) (typeError : string) (now : Z)
    (groupId contactId : string) (s : State) : Z * Reply * State :=
  match getContactGroup s groupId with
  | None => (404, Failure "Contact group not found", s)
  | Some group =>
      match contactIdsOrEmpty unlisted group with
      | inl ids =>
          if negb (includesId ids contactId)
          then
            let group := withContactIds (ids ++ [contactId]) group in
            let s := mutateStored groupId group s in
            let s := snd (updateContactGroup now groupId (asPatch group) s) in
            (201, Success group, s)
          else (409, Failure "Contact already in group", s)
      | inr includes =>
          match includes contactId with
          | Some true => (409, Failure "Contact already in group", s)
          | Some false => (500, Thrown typeError, s)
          | None => (500, Thrown typeError, s)
          end
      end
  end.

(** [router.delete('/contact-groups/:id/members/:contactId', ...)] *)
Definition deleteMember (now : Z) (groupId contactId : string) (s : State)
    : Z * Reply * State :=
  match getContactGroup s groupId with
  | None => (404, Failure "Contact group not found", s)
  | Some group =>
      match cg_contactIds group with
      | Some ids =>
          let group := withContactIds (withoutId ids contactId) group in
          let s := mutateStored groupId group s in
          let s := snd (updateContactGroup now groupId (asPatch group) s) in
          (200, Success group, s)
      | None => (404, Failure "Contact not in group", s)
      end
  end.

End ContactGroups.

(** ** Reading the incidents: state/monitorState.js and routes/apiRoutes.js *)

Module Queries.
Import MonitorState.

(** [arr.slice(0, limit)] for an integer [limit]: a negative [limit]
    counts from the end. *)
Definition slice0 {A : Type} (limit : Z) (l : list A) : list A :=
  if limit <? 0
  then take (Z.to_nat (Z.max 0 (Z.of_nat (length l) + limit))) l
  else take (Z.to_nat limit) l.

(** [getIncidents(limit = 100)] *)
Definition getIncidents (limit : option Z) (s : State) : list Incident :=
  slice0 (default 100 limit) (incidents s).

(** [router.get('/incidents', ...)]: [parsed] is
    [parseInt(req.query.limit)], [None] for NaN. *)
Definition incidentsRoute (parsed : option Z) (s : State) : list Incident :=
  let limit :=
    match parsed with
    | Some n => if n =? 0 then 100 else n
    | None => 100
    end in
  getIncidents (Some limit) s.

End Queries.

(** * Specification vocabulary *)

Import MonitorState.

(** The status record [updateStatus] starts from for [monitorId]. *)
Definition currentStatus (s : State) (monitorId : string) : Status :=
  default fallbackStatus (statuses s !! monitorId).

(** The check results of one endpoint, applied in order; each comes with
    the time at which it is applied. *)
Definition feed (monitorId : string) (samples : list (Z * CheckResult))
    (s : State) : State :=
  fold_left (fun s sample => snd (updateStatus sample.1 monitorId sample.2 s))
    samples s.

(** Length of the run of DOWN samples a list starts with. *)
Fixpoint leadingDowns (l : list CheckStatus) : Z :=
  match l with
  | CHECK_DOWN :: t => 1 + leadingDowns t
  | _ => 0
  end.

(** Number of DOWN samples since the last UP sample (or since the start). *)
Definition downsSinceLastUp (samples : list (Z * CheckResult)) : Z :=
  leadingDowns (rev (map (fun sample => cr_status sample.2) samples)).

(** No UP sample at all. *)
Definition allDown (samples : list (Z * CheckResult)) : bool :=
  forallb (fun sample => match cr_status sample.2 with
                         | CHECK_DOWN => true
                         | CHECK_UP => false
                         end) samples.

(** The ongoing incidents of an endpoint. *)
Definition ongoingIncidents (s : State) (monitorId : string) : list Incident :=
  List.filter (ongoing_incident_of monitorId) (incidents s).

(** The active alerts of an endpoint. *)
Definition activeAlerts (s : State) (monitorId : string) : list Alert :=
  List.filter (active_alert_of monitorId) (alerts s).

(** A new incident of [monitorId], opened at [now] with [message]. *)
Definition opensIncident (now : Z) (monitorId message : string) (s s' : State)
    : Prop :=
  exists i a,
    incidents s' = i :: incidents s /\
    inc_monitorId i = monitorId /\ inc_status i = ongoing /\
    inc_message i = message /\ inc_startedAt i = now /\
    alerts s' = a :: alerts s /\
    al_monitorId a = monitorId /\ al_type a = "incident" /\
    al_message a = message /\ al_severity a = critical /\
    al_status a = active /\ al_createdAt a = now.

Definition untouched (s s' : State) : Prop :=
  incidents s' = incidents s /\ alerts s' = alerts s.


(** The status record [updateStatus] stores. *)
Definition nextStatus (now : Z) (r : CheckResult) (cur : Status) : Status :=
  {| status := status_of (cr_status r);
     responseTime := Some (cr_responseTime r);
     st_message := Some (cr_message r);
     lastCheck := Some now;
     consecutiveFailures :=
       if status_eqb (status_of (cr_status r)) UP then 0
       else consecutiveFailures cur + 1;
     totalChecks := totalChecks cur + 1;
     successfulChecks :=
       if status_eqb (status_of (cr_status r)) UP then successfulChecks cur + 1
       else successfulChecks cur;
     history :=
       take 100
         ({| he_timestamp := now; he_status := cr_status r;
             he_responseTime := cr_responseTime r;
             he_message := cr_message r |} :: history cur);
     sslInfo := cr_sslInfo r |}.

(** The state of [updateStatus] when it reaches its incident branches. *)
Definition recorded (now : Z) (m : string) (r : CheckResult) (s : State) : State :=
  let s1 := set_statuses
              (<[m := nextStatus now r (currentStatus s m)]> (statuses s)) s in
  if negb (status_eqb (status (currentStatus s m)) (status_of (cr_status r)))
  then addActivity now "status_change" "monitor" m (monitorName s m) s1
  else s1.

(** The incident branches of [updateStatus]. *)
Definition incidentBranch (now : Z) (m : string) (r : CheckResult)
    (previousStatus : StatusValue) (failures : Z) (s : State) : State :=
  if status_eqb previousStatus UP && status_eqb (status_of (cr_status r)) DOWN
  then (createIncident now m (cr_message r) s).2
  else if status_eqb previousStatus DOWN && status_eqb (status_of (cr_status r)) DOWN
  then
    if consecutiveFailuresThreshold (settings s) <=? failures
    then
      match find (ongoing_incident_of m) (incidents s) with
      | Some _ => s
      | None => (createIncident now m (cr_message r) s).2
      end
    else s
  else if status_eqb previousStatus DOWN && status_eqb (status_of (cr_status r)) UP
          && autoResolve (settings s)
  then (resolveIncidentForMonitor now m s).2
  else s.

(** Same state but for the fields no property below looks at. *)
Definition sameCore (s s' : State) : Prop :=
  monitors s' = monitors s /\ contacts s' = contacts s /\
  contactGroups s' = contactGroups s /\ settings s' = settings s /\
  networkStatus s' = networkStatus s.

(** At most one ongoing incident of the endpoint, and none unless the
    endpoint is DOWN. *)
Definition singleOngoing (s : State) (monitorId : string) : Prop :=
  (length (ongoingIncidents s monitorId) <= 1)%nat /\
  (status (currentStatus s monitorId) <> DOWN -> ongoingIncidents s monitorId = []).

(** *** Example data *)

Definition exampleMonitor : Monitor :=
  {| mon_id := ""; mon_name := "api"; mon_type := "https"; mon_enabled := true;
     mon_url := Some "https://example.org/health";
     mon_expectedStatus := ExpNum 200; mon_expectedContent := None;
     mon_schedule := 60 |}.

Definition sampleAt (now : Z) (c : CheckStatus) : Z * CheckResult :=
  (now,
   {| cr_status := c; cr_responseTime := 12;
      cr_message := match c with
                    | CHECK_UP => "HTTP 200 OK"
                    | CHECK_DOWN => "ECONNREFUSED"
                    end;
      cr_statusCode := None; cr_sslInfo := None |}).

(** [updateSettings({ autoResolve: b })] without its log entries. *)
Definition withAutoResolve (b : bool) (s : State) : State :=
  set_settings
    {| consecutiveFailuresThreshold := consecutiveFailuresThreshold (settings s);
       autoResolve := b; soundEnabled := soundEnabled (settings s);
       ttsEnabled := ttsEnabled (settings s);
       customAlertText := customAlertText (settings s);
       emailEnabled := emailEnabled (settings s);
       smtpHost := smtpHost (settings s); smtpUser := smtpUser (settings s);
       smsEnabled := smsEnabled (settings s);
       smsSenderId := smsSenderId (settings s) |} s.

(** A state with one freshly created monitor, ["uuid-0"]. *)
Definition oneMonitor (autoResolve : bool) : State :=
  (createMonitor 0 exampleMonitor
     (withAutoResolve autoResolve (createInitialState 0))).2.

Import NotificationService SocketHandlers.

Definition exampleEnv : Env :=
  {| axios_post := fun _ _ _ => Some "ok";
     transporter_sendMail := fun _ _ => Some "message-id";
     exec_tts := fun _ => true;
     platformSupported := true |}.

(** The process right after start-up, with the auto-resolve setting [b]. *)
Definition serverWithAutoResolve (b : bool) : Server :=
  set_state (withAutoResolve b (createInitialState 0)) (initialServer 0).

(** A monitor is created, answers UP, then DOWN one minute later, and its
    timer has fired once more: the third check is waiting for its probe. *)
Definition outageEvents : list (Z * Event) :=
  [ (0, ClientCreates exampleMonitor);
    (100, ProbeAnswers "uuid-0" (sampleAt 100 CHECK_UP).2);
    (60000, TimerFires "uuid-0");
    (60100, ProbeAnswers "uuid-0" (sampleAt 60100 CHECK_DOWN).2);
    (120000, TimerFires "uuid-0") ].

Definition serverInOutage (b : bool) : Server :=
  (run exampleEnv outageEvents (serverWithAutoResolve b)).1.

(** *** The self check *)

(** The ticks at which the observed connectivity differs from the one
    observed before ([connected] at the start): the transitions. *)
Fixpoint observedTransitions (connected : bool) (ticks : list (Z * bool))
    : list (Z * bool) :=
  match ticks with
  | [] => []
  | (now, reachable) :: rest =>
      if Bool.eqb connected reachable
      then observedTransitions reachable rest
      else (now, reachable) :: observedTransitions reachable rest
  end.

(** The notification type of a connectivity value. *)
Definition typeOf (isConnected : bool) : NotificationType :=
  if isConnected then connected else disconnected.

(** [b] was sent more than the cooldown after [a]. *)
Definition cooldownApart (a b : Z * bool) : Prop :=
  NETWORK_NOTIFICATION_COOLDOWN < b.1 - a.1.

(** Each notification comes more than the cooldown after the previous one
    and is of the other type; the first one is measured against
    [lastTime] / [lastType]. *)
Fixpoint gated (lastTime : Z) (lastType : option NotificationType)
    (sent : list (Z * bool)) : Prop :=
  match sent with
  | [] => True
  | (sentAt, isConnected) :: rest =>
      NETWORK_NOTIFICATION_COOLDOWN < sentAt - lastTime /\
      lastType <> Some (typeOf isConnected) /\
      gated sentAt (Some (typeOf isConnected)) rest
  end.

(** *** The HTTP probe *)





(** *** Dispatch *)

(** The SMS API requests among the outbound requests, with their
    recipient lists. *)
Fixpoint smsApiRequests (out : list Outbound) : list (list string) :=
  match out with
  | [] => []
  | SmsApiPost recipient _ _ :: rest => recipient :: smsApiRequests rest
  | _ :: rest => smsApiRequests rest
  end.

(** Everything but the logs and the id supply is the same. *)
Definition onlyLogs (s s' : State) : Prop :=
  sameCore s s' /\ statuses s' = statuses s /\
  incidents s' = incidents s /\ alerts s' = alerts s.

Definition contactWithPhone (id phone : string) : Contact :=
  {| ct_id := id; ct_name := id; ct_email := None; ct_phone := Some phone;
     ct_notifyEmail := false; ct_notifySms := true; ct_notifyOnDown := true;
     ct_notifyOnUp := true; ct_notifyOnIncident := true |}.

(** Three contacts with a phone and the SMS flag, one group with two of
    them. *)
Definition threeSmsContacts : State :=
  let s := createInitialState 0 in
  let s := set_contacts
             [("c1", contactWithPhone "c1" "0241234567");
              ("c2", contactWithPhone "c2" "0201234567");
              ("c3", contactWithPhone "c3" "0271234567")] s in
  {| monitors := monitors s; statuses := statuses s; contacts := contacts s;
     contactGroups :=
       [("g1", {| cg_id := "g1"; cg_name := "On-Call Team";
                  cg_contactIds := Some ["c2"; "c1"] |})];
     incidents := incidents s; alerts := alerts s;
     activityLogs := activityLogs s; logs := logs s; settings := settings s;
     networkStatus := networkStatus s; uuidSeed := uuidSeed s |}.

Definition exampleAlert : Alert :=
  {| al_id := "a1"; al_monitorId := "uuid-0"; al_monitorName := "api";
     al_type := "incident"; al_message := "ECONNREFUSED";
     al_severity := critical; al_status := active;
     al_acknowledgedAt := None; al_resolvedAt := None; al_createdAt := 1000 |}.

(** *** Contacts *)

(** Every entry of the contacts map is stored under the id it carries, as
    [createContact], [updateContact] and [importData] store it. *)
Definition keyedById (m : jsmap Contact) : Prop :=
  Forall (fun entry => ct_id entry.2 = entry.1) m.

(** A contacts map: no key twice, every contact under its own id. *)
Definition wellFormedContacts (m : jsmap Contact) : Prop :=
  NoDup (jsmap_keys m) /\ keyedById m.

(** The same contacts, with a group listing one of them twice, another
    group overlapping the first, and the map in another order. *)
Definition threeSmsContactsReordered : State :=
  let s := threeSmsContacts in
  {| monitors := monitors s; statuses := statuses s;
     contacts :=
       [("c3", contactWithPhone "c3" "0271234567");
        ("c1", contactWithPhone "c1" "0241234567");
        ("c2", contactWithPhone "c2" "0201234567")];
     contactGroups :=
       [("g2", {| cg_id := "g2"; cg_name := "Backup";
                  cg_contactIds := Some ["c1"; "c3"; "c1"] |});
        ("g1", {| cg_id := "g1"; cg_name := "On-Call Team";
                  cg_contactIds := Some ["c1"; "c2"] |})];
     incidents := incidents s; alerts := alerts s;
     activityLogs := activityLogs s; logs := logs s; settings := settings s;
     networkStatus := networkStatus s; uuidSeed := uuidSeed s |}.

(** *** Counters, history and the records of other endpoints *)

Definition isUpSample (sample : Z * CheckResult) : bool :=
  match cr_status sample.2 with
  | CHECK_UP => true
  | CHECK_DOWN => false
  end.

(** Number of UP samples. *)
Definition upCount (samples : list (Z * CheckResult)) : Z :=
  Z.of_nat (length (List.filter isUpSample samples)).

(** The history entry of a sample. *)
Definition historyEntryOf (sample : Z * CheckResult) : HistoryEntry :=
  {| he_timestamp := sample.1; he_status := cr_status sample.2;
     he_responseTime := cr_responseTime sample.2;
     he_message := cr_message sample.2 |}.

(** All incidents of an endpoint, ongoing or not. *)
Definition incidentsOf (s : State) (monitorId : string) : list Incident :=
  List.filter (fun i => String.eqb (inc_monitorId i) monitorId) (incidents s).

(** All alerts of an endpoint, whatever their status. *)
Definition alertsOf (s : State) (monitorId : string) : list Alert :=
  List.filter (fun a => String.eqb (al_monitorId a) monitorId) (alerts s).

(** What identifies an incident, as opposed to its resolution. *)
Definition incidentIdentity (i : Incident) : string * string * string * Z :=
  (inc_id i, inc_monitorId i, inc_message i, inc_startedAt i).

(** What identifies an alert, as opposed to its handling. *)
Definition alertIdentity (a : Alert) : string * string * string * Z :=
  (al_id a, al_monitorId a, al_message a, al_createdAt a).

(** A state whose only alert is [exampleAlert]. *)
Definition oneAlert : State := set_alerts [exampleAlert] (oneMonitor false).

(** The mails handed to the SMTP transport, by recipient address. *)
Fixpoint smtpRequests (out : list Outbound) : list string :=
  match out with
  | [] => []
  | SmtpSendMail recipient _ :: rest => recipient :: smtpRequests rest
  | _ :: rest => smtpRequests rest
  end.

(** [settings.emailEnabled] with an SMTP host and user that [sendEmail]
    accepts. *)
Definition emailConfigured (s : State) : bool :=
  emailEnabled (settings s)
  && negb (String.eqb (smtpHost (settings s)) "")
  && negb (String.eqb (smtpUser (settings s)) "").

(** The calls of [sendAlertNotification] among the effects. *)
Fixpoint alertNotifications (eff : list Effect) : list Alert :=
  match eff with
  | [] => []
  | AlertNotification alert :: rest => alert :: alertNotifications rest
  | _ :: rest => alertNotifications rest
  end.

(** The requests that leave the process among the effects. *)
Fixpoint requests (eff : list Effect) : list Outbound :=
  match eff with
  | [] => []
  | Request o :: rest => o :: requests rest
  | _ :: rest => requests rest
  end.



(** A server whose one monitor has been created and has answered UP. *)
Definition serverAfterUp (autoResolve : bool) : Server :=
  (run exampleEnv
     [ (0, ClientCreates exampleMonitor);
       (100, ProbeAnswers "uuid-0" (sampleAt 100 CHECK_UP).2) ]
     (serverWithAutoResolve autoResolve)).1.


(** The number of ticks at which the connection is observed to be lost. *)
Definition lostTransitions (connected : bool) (ticks : list (Z * bool)) : nat :=
  length (List.filter (fun tick => negb tick.2)
            (observedTransitions connected ticks)).

(** The contacts of [threeSmsContacts] with no contact group at all. *)
Definition threeSmsContactsUngrouped : State :=
  set_contacts (contacts threeSmsContacts) (createInitialState 0).

(** *** Validation *)

Import MonitorDispatch.

(** The monitor types, in lower case. *)
Definition knownTypes : list string :=
  ["http"; "https"; "icmp"; "ping"; "tcp"; "ssh"; "telnet"; "sftp"].

(** Whether a configuration has the fields its type needs; [None] for a
    type that is not a monitor type. *)
Definition requiredFieldsPresent (type : string) (config : Config) : option bool :=
  if existsb (String.eqb type) ["http"; "https"]
  then Some (isTruthy (cfg_url config))
  else if existsb (String.eqb type) ["icmp"; "ping"; "telnet"]
  then Some (isTruthy (cfg_host config))
  else if String.eqb type "tcp"
  then Some (isTruthy (cfg_host config) && isTruthy (cfg_port config))
  else if existsb (String.eqb type) ["ssh"; "sftp"]
  then Some (isTruthy (cfg_host config) && isTruthy (cfg_username config)
             && (isTruthy (cfg_password config)
                 || isTruthy (cfg_privateKey config)))
  else None.

(** The results of the six probes for a monitor. *)
Definition probeResults (probes : Probes) (monitor : Monitor) : list CheckResult :=
  [probeHttp probes monitor; probeIcmp probes monitor; probeTcp probes monitor;
   probeSsh probes monitor; probeTelnet probes monitor; probeSftp probes monitor].

Definition exampleConfig : Config :=
  {| cfg_name := JsString "api"; cfg_type := JsString "HTTPS";
     cfg_url := JsString "https://example.org/health";
     cfg_host := JsNullish; cfg_port := JsNullish; cfg_username := JsNullish;
     cfg_password := JsNullish; cfg_privateKey := JsNullish |}.

Definition exampleProbes : Probes :=
  {| probeHttp := fun _ => (sampleAt 0 CHECK_UP).2;
     probeIcmp := fun _ => (sampleAt 0 CHECK_DOWN).2;
     probeTcp := fun _ => (sampleAt 0 CHECK_DOWN).2;
     probeSsh := fun _ => (sampleAt 0 CHECK_DOWN).2;
     probeTelnet := fun _ => (sampleAt 0 CHECK_DOWN).2;
     probeSftp := fun _ => (sampleAt 0 CHECK_DOWN).2 |}.

(** [exampleMonitor] with its type as [exampleConfig] spells it. *)
Definition upperCaseMonitor : Monitor :=
  {| mon_id := ""; mon_name := "api"; mon_type := "HTTPS"; mon_enabled := true;
     mon_url := Some "https://example.org/health";
     mon_expectedStatus := ExpNum 200; mon_expectedContent := None;
     mon_schedule := 60 |}.

(** *** The scheduler *)

Import MonitorHandlers.

(** The timer an endpoint is meant to have: one that fires every
    [intervalMs] when the monitor is enabled, none otherwise. *)
Definition timerOf (monitor : Monitor) : option Z :=
  if mon_enabled monitor then Some (intervalMs monitor) else None.

(** The timer registry agrees with the monitors: every enabled monitor has
    a timer of its own interval, and there is no other timer. *)
Definition scheduled (srv : Server) : Prop :=
  monitorIntervals srv = omap timerOf (monitors (state srv)).

(** The id that the next [uuidv4()] returns. *)
Definition nextId (s : State) : string := (uuidv4 s).1.

(** *** Contact groups *)

Import ContactGroups.

(** The member ids of a group, none for a group that does not exist or
    has no list. *)
Definition members (s : State) (groupId : string) : list string :=
  default [] (getContactGroup s groupId ≫= cg_contactIds).

(** *** Retention *)

(** The system log and the activity log are within their limits. *)
Definition logsBounded (s : State) : Prop :=
  (length (logs s) <= 2000)%nat /\ (length (activityLogs s) <= 5000)%nat.

(** *** Queries *)

Import Queries.

(** * Properties *)

(** ** What logging leaves alone *)

Section Frames.
Variables (now : Z) (s : State).

Lemma addActivity_frame action entityType entityId name :
  let s' := addActivity now action entityType entityId name s in
  monitors s' = monitors s /\ statuses s' = statuses s /\
  contacts s' = contacts s /\ contactGroups s' = contactGroups s /\
  incidents s' = incidents s /\ alerts s' = alerts s /\
  settings s' = settings s /\ networkStatus s' = networkStatus s.
Proof. repeat split. Qed.

Lemma addLog_frame level message :
  let s' := addLog now level message s in
  monitors s' = monitors s /\ statuses s' = statuses s /\
  contacts s' = contacts s /\ contactGroups s' = contactGroups s /\
  incidents s' = incidents s /\ alerts s' = alerts s /\
  settings s' = settings s /\ networkStatus s' = networkStatus s.
Proof. repeat split. Qed.

Lemma createAlert_spec monitorId type message severity :
  let r := createAlert now monitorId type message severity s in
  monitors r.2 = monitors s /\ statuses r.2 = statuses s /\
  contacts r.2 = contacts s /\ contactGroups r.2 = contactGroups s /\
  incidents r.2 = incidents s /\ alerts r.2 = r.1 :: alerts s /\
  settings r.2 = settings s /\ networkStatus r.2 = networkStatus s /\
  al_monitorId r.1 = monitorId /\ al_type r.1 = type /\
  al_message r.1 = message /\ al_severity r.1 = severity /\
  al_status r.1 = active /\ al_createdAt r.1 = now.
Proof. repeat split. Qed.

Lemma createIncident_spec monitorId message :
  let r := createIncident now monitorId message s in
  monitors r.2 = monitors s /\ statuses r.2 = statuses s /\
  contacts r.2 = contacts s /\ contactGroups r.2 = contactGroups s /\
  incidents r.2 = r.1 :: incidents s /\
  settings r.2 = settings s /\ networkStatus r.2 = networkStatus s /\
  inc_monitorId r.1 = monitorId /\ inc_status r.1 = ongoing /\
  inc_message r.1 = message /\ inc_startedAt r.1 = now /\
  inc_resolvedAt r.1 = None /\
  exists a, alerts r.2 = a :: alerts s /\
    al_monitorId a = monitorId /\ al_type a = "incident" /\
    al_message a = message /\ al_severity a = critical /\
    al_status a = active /\ al_createdAt a = now.
Proof. repeat split. eexists. repeat split. Qed.

End Frames.

(** ** The state machine: [updateStatus] *)

Section IncidentBranch.
Variables (now : Z) (m : string) (r : CheckResult) (failures : Z).

Lemma resolveIncident_spec s :
  let p := resolveIncidentForMonitor now m s in
  sameCore s p.2 /\ statuses p.2 = statuses s /\
  match find (ongoing_incident_of m) (incidents s) with
  | Some i =>
      p.1 = Some (mark_incident_resolved now i) /\
      incidents p.2 =
        update_first (ongoing_incident_of m) (mark_incident_resolved now)
          (incidents s) /\
      alerts p.2 =
        update_all (active_alert_of m) (mark_resolved now) (alerts s)
  | None => p.1 = None /\ untouched s p.2
  end.
Proof.
  unfold resolveIncidentForMonitor, untouched, sameCore.
  destruct (find (ongoing_incident_of m) (incidents s)); repeat split.
Qed.

Lemma createIncident_opens message s :
  opensIncident now m message s (createIncident now m message s).2.
Proof. unfold opensIncident. do 2 eexists. repeat split. Qed.

Lemma incidentBranch_frame previous s :
  let s' := incidentBranch now m r previous failures s in
  sameCore s s' /\ statuses s' = statuses s.
Proof.
  unfold incidentBranch, sameCore.
  pose proof (resolveIncident_spec s) as (Hc & Hs & _).
  repeat case_match; try (repeat split; fail).
  split; [exact Hc | exact Hs].
Qed.

Lemma incidentBranch_policy previous s :
  let s' := incidentBranch now m r previous failures s in
  match previous, cr_status r with
  | UP, CHECK_DOWN => opensIncident now m (cr_message r) s s'
  | DOWN, CHECK_DOWN =>
      if consecutiveFailuresThreshold (settings s) <=? failures
      then match find (ongoing_incident_of m) (incidents s) with
           | Some _ => untouched s s'
           | None => opensIncident now m (cr_message r) s s'
           end
      else untouched s s'
  | DOWN, CHECK_UP =>
      if autoResolve (settings s)
      then match find (ongoing_incident_of m) (incidents s) with
           | Some _ =>
               incidents s' =
                 update_first (ongoing_incident_of m)
                   (mark_incident_resolved now) (incidents s) /\
               alerts s' =
                 update_all (active_alert_of m) (mark_resolved now) (alerts s)
           | None => untouched s s'
           end
      else untouched s s'
  | _, _ => untouched s s'
  end.
Proof.
  unfold incidentBranch.
  pose proof (resolveIncident_spec s) as (_ & _ & Hres).
  destruct previous, (cr_status r);
    cbn [status_eqb status_of negb andb]; try (split; reflexivity).
  - apply createIncident_opens.
  - destruct (autoResolve (settings s)); [|split; reflexivity].
    destruct (find (ongoing_incident_of m) (incidents s)); tauto.
  - destruct (_ <=? _); [|split; reflexivity].
    destruct (find (ongoing_incident_of m) (incidents s)); [split; reflexivity|].
    apply createIncident_opens.
Qed.

End IncidentBranch.

Section UpdateStatus.
Variables (now : Z) (m : string) (r : CheckResult) (s : State).

Lemma updateStatus_unfold :
  updateStatus now m r s =
  (nextStatus now r (currentStatus s m),
   incidentBranch now m r (status (currentStatus s m))
     (consecutiveFailures (nextStatus now r (currentStatus s m)))
     (recorded now m r s)).
Proof. reflexivity. Qed.

Lemma recorded_frame :
  sameCore s (recorded now m r s) /\ untouched s (recorded now m r s) /\
  statuses (recorded now m r s) =
    <[m := nextStatus now r (currentStatus s m)]> (statuses s).
Proof.
  unfold recorded, sameCore, untouched.
  destruct (negb _); repeat split.
Qed.

Lemma updateStatus_frame :
  let s' := (updateStatus now m r s).2 in
  sameCore s s' /\
  statuses s' = <[m := nextStatus now r (currentStatus s m)]> (statuses s).
Proof.
  cbv zeta. rewrite updateStatus_unfold. cbn [snd].
  destruct recorded_frame as (Hc & _ & Hs).
  revert Hc Hs. generalize (recorded now m r s). intros s1 Hc Hs.
  match goal with
  | |- context [incidentBranch ?a ?b ?c ?d ?e s1] =>
      destruct (incidentBranch_frame a b c e d s1) as [Hc' Hs']
  end.
  unfold sameCore in *. intuition congruence.
Qed.

Lemma updateStatus_policy :
  let cur := currentStatus s m in
  let s' := (updateStatus now m r s).2 in
  match status cur, cr_status r with
  | UP, CHECK_DOWN => opensIncident now m (cr_message r) s s'
  | DOWN, CHECK_DOWN =>
      if consecutiveFailuresThreshold (settings s) <=? consecutiveFailures cur + 1
      then match find (ongoing_incident_of m) (incidents s) with
           | Some _ => untouched s s'
           | None => opensIncident now m (cr_message r) s s'
           end
      else untouched s s'
  | DOWN, CHECK_UP =>
      if autoResolve (settings s)
      then match find (ongoing_incident_of m) (incidents s) with
           | Some _ =>
               incidents s' =
                 update_first (ongoing_incident_of m)
                   (mark_incident_resolved now) (incidents s) /\
               alerts s' =
                 update_all (active_alert_of m) (mark_resolved now) (alerts s)
           | None => untouched s s'
           end
      else untouched s s'
  | _, _ => untouched s s'
  end.
Proof.
  cbv zeta. rewrite updateStatus_unfold. cbn [snd].
  destruct recorded_frame as ((_ & _ & _ & Hset & _) & (Hi & Ha) & _).
  pose proof (incidentBranch_policy now m r
                (consecutiveFailures (nextStatus now r (currentStatus s m)))
                (status (currentStatus s m)) (recorded now m r s))
    as Hpol.
  cbv zeta in Hpol. revert Hpol.
  generalize (incidentBranch now m r (status (currentStatus s m))
                (consecutiveFailures (nextStatus now r (currentStatus s m)))
                (recorded now m r s)).
  revert Hset Hi Ha. generalize (recorded now m r s).
  intros s1 Hset Hi Ha s' Hpol.
  unfold opensIncident, untouched in *.
  rewrite Hset, Hi, Ha in Hpol.
  unfold nextStatus in Hpol. cbn [consecutiveFailures] in Hpol.
  destruct (status (currentStatus s m)), (cr_status r); exact Hpol.
Qed.

End UpdateStatus.

Lemma updateStatus_current now m r s :
  currentStatus (updateStatus now m r s).2 m = nextStatus now r (currentStatus s m).
Proof.
  unfold currentStatus at 1.
  destruct (updateStatus_frame now m r s) as (_ & ->).
  rewrite lookup_insert_eq. reflexivity.
Qed.

Lemma updateStatus_counter now m r s :
  consecutiveFailures (currentStatus (updateStatus now m r s).2 m) =
  match cr_status r with
  | CHECK_UP => 0
  | CHECK_DOWN => consecutiveFailures (currentStatus s m) + 1
  end.
Proof. rewrite updateStatus_current. unfold nextStatus. destruct (cr_status r); reflexivity. Qed.

Lemma updateStatus_status now m r s :
  status (currentStatus (updateStatus now m r s).2 m) = status_of (cr_status r).
Proof. rewrite updateStatus_current. reflexivity. Qed.

Lemma updateStatus_settings now m r s :
  settings (updateStatus now m r s).2 = settings s.
Proof. destruct (updateStatus_frame now m r s) as ((_ & _ & _ & H & _) & _). exact H. Qed.

Lemma feed_snoc m samples sample s :
  feed m (samples ++ [sample]) s =
  (updateStatus sample.1 m sample.2 (feed m samples s)).2.
Proof. unfold feed. rewrite fold_left_app. reflexivity. Qed.

Lemma downsSinceLastUp_snoc samples sample :
  downsSinceLastUp (samples ++ [sample]) =
  match cr_status sample.2 with
  | CHECK_UP => 0
  | CHECK_DOWN => 1 + downsSinceLastUp samples
  end.
Proof.
  unfold downsSinceLastUp. rewrite map_app, rev_app_distr. cbn [map rev app].
  destruct (cr_status sample.2); reflexivity.
Qed.

Lemma allDown_snoc samples sample :
  allDown (samples ++ [sample]) =
  allDown samples && match cr_status sample.2 with
                     | CHECK_DOWN => true
                     | CHECK_UP => false
                     end.
Proof. unfold allDown. rewrite forallb_app. cbn [forallb]. rewrite andb_true_r. reflexivity. Qed.

Lemma createMonitor_status now data s :
  currentStatus (createMonitor now data s).2 (mon_id (createMonitor now data s).1)
  = initialStatus.
Proof.
  unfold currentStatus, createMonitor, uuidv4.
  cbn [fst snd mon_id statuses addLog addActivity uuidv4 set_logs
       set_activityLogs set_statuses set_monitors].
  rewrite lookup_insert_eq. reflexivity.
Qed.

Lemma feed_counter m samples s :
  consecutiveFailures (currentStatus (feed m samples s) m) =
    downsSinceLastUp samples +
    (if allDown samples then consecutiveFailures (currentStatus s m) else 0).
Proof.
  induction samples as [|sample samples IH] using rev_ind.
  - reflexivity.
  - rewrite feed_snoc, updateStatus_counter, downsSinceLastUp_snoc, allDown_snoc.
    destruct (cr_status sample.2).
    + rewrite andb_false_r. reflexivity.
    + rewrite andb_true_r, IH. lia.
Qed.

(** Claim C2.  For every sequence of check results fed to the state machine
    of one endpoint, the stored [consecutiveFailures] counter is the number
    of DOWN samples since the last UP sample: an UP sample sets it to 0, a
    DOWN sample adds exactly one.  (When the sequence holds no UP sample the
    count continues from the counter stored before; a freshly created
    monitor starts at 0.) *)
Theorem consecutiveFailures_counts_downs (m : string)
    (samples : list (Z * CheckResult)) (s : State) :
  let s' := feed m samples s in
  consecutiveFailures (currentStatus s' m) =
    downsSinceLastUp samples +
    (if allDown samples then consecutiveFailures (currentStatus s m) else 0)
  /\ (forall now r,
       consecutiveFailures (currentStatus (updateStatus now m r s').2 m) =
       match cr_status r with
       | CHECK_UP => 0
       | CHECK_DOWN => consecutiveFailures (currentStatus s' m) + 1
       end)
  /\ (forall now data,
       let created := createMonitor now data s in
       consecutiveFailures
         (currentStatus (feed (mon_id created.1) samples created.2)
            (mon_id created.1))
       = downsSinceLastUp samples).
Proof.
  cbv zeta. split; [apply feed_counter|].
  split; [intros; apply updateStatus_counter|].
  intros now data. rewrite feed_counter, createMonitor_status.
  cbn [consecutiveFailures initialStatus]. destruct (allDown samples); lia.
Qed.

(** Claim C3.  When [updateStatus] processes a DOWN sample for an endpoint
    whose previous status is UP, exactly one incident with status [ongoing]
    and exactly one alert of severity [critical] and status [active] are put
    in front of the stored incidents and alerts, for that endpoint, whatever
    the configured threshold of the state is. *)
Theorem up_to_down_opens_one_incident (now : Z) (m : string) (r : CheckResult)
    (s : State) :
  status (currentStatus s m) = UP ->
  cr_status r = CHECK_DOWN ->
  let s' := (updateStatus now m r s).2 in
  exists i a,
    incidents s' = i :: incidents s /\
    inc_monitorId i = m /\ inc_status i = ongoing /\
    inc_message i = cr_message r /\ inc_startedAt i = now /\
    alerts s' = a :: alerts s /\
    al_monitorId a = m /\ al_type a = "incident" /\
    al_message a = cr_message r /\ al_severity a = critical /\
    al_status a = active /\ al_createdAt a = now.
Proof.
  intros Hup Hdown. pose proof (updateStatus_policy now m r s) as H.
  cbv zeta in H. rewrite Hup, Hdown in H. exact H.
Qed.

Lemma find_ongoing_nil s m :
  ongoingIncidents s m = [] <-> find (ongoing_incident_of m) (incidents s) = None.
Proof.
  unfold ongoingIncidents. induction (incidents s) as [|i l IH]; cbn [List.filter find].
  - tauto.
  - destruct (ongoing_incident_of m i); [split; discriminate | exact IH].
Qed.

Lemma ongoing_incident_of_new m i :
  inc_monitorId i = m -> inc_status i = ongoing -> ongoing_incident_of m i = true.
Proof.
  intros <- Hs. unfold ongoing_incident_of, incident_is_ongoing.
  rewrite String.eqb_refl, Hs. reflexivity.
Qed.

Lemma length_snoc {A} (l : list A) x :
  Z.of_nat (length (l ++ [x])) = Z.of_nat (length l) + 1.
Proof. rewrite length_app. cbn [length]. lia. Qed.

Section AllDown.
Variables (m : string) (s : State).
Hypothesis Hpending : status (currentStatus s m) = PENDING.
Hypothesis Hzero : consecutiveFailures (currentStatus s m) = 0.
Hypothesis Hnone : ongoingIncidents s m = [].

Let k := Z.max 2 (consecutiveFailuresThreshold (settings s)).

Lemma allDown_invariant samples :
  allDown samples = true ->
  let s' := feed m samples s in
  let n := Z.of_nat (length samples) in
  settings s' = settings s /\
  consecutiveFailures (currentStatus s' m) = n /\
  (samples <> [] -> status (currentStatus s' m) = DOWN) /\
  (n < k -> untouched s s') /\
  (k <= n -> exists i a,
     incidents s' = i :: incidents s /\ alerts s' = a :: alerts s /\
     inc_monitorId i = m /\ inc_status i = ongoing /\
     al_monitorId a = m /\ al_severity a = critical /\ al_status a = active).
Proof.
  induction samples as [|sample samples IH] using rev_ind; intros Hall.
  - cbv zeta. unfold feed, untouched. cbn [fold_left length Z.of_nat].
    repeat split; [exact Hzero | congruence | intros; subst k; lia].
  - rewrite allDown_snoc in Hall. apply andb_true_iff in Hall as [Hall Hdown].
    destruct (IH Hall) as (Hset & Hcnt & Hst & Hlt & Hge). clear IH.
    destruct (cr_status sample.2) eqn:Hs; [discriminate|].
    cbv zeta. rewrite feed_snoc, length_snoc.
    set (s1 := feed m samples s) in *.
    set (n := Z.of_nat (length samples)) in *.
    pose proof (updateStatus_policy sample.1 m sample.2 s1) as Hpol.
    cbv zeta in Hpol. rewrite Hs in Hpol.
    split; [rewrite updateStatus_settings; exact Hset|].
    split; [rewrite updateStatus_counter, Hs; lia|].
    split; [intros _; rewrite updateStatus_status, Hs; reflexivity|].
    revert Hpol. generalize (updateStatus sample.1 m sample.2 s1).2.
    intros s2 Hpol. unfold untouched, opensIncident in *.
    destruct samples as [|x xs _] using rev_ind.
    + (* first sample: the status is still PENDING *)
      subst s1 n. unfold feed in *. cbn [fold_left length Z.of_nat] in *.
      rewrite Hpending in Hpol.
      split; [intros _; exact Hpol | subst k; lia].
    + rewrite Hst in Hpol by (destruct xs; discriminate).
      rewrite Hcnt, Hset in Hpol.
      assert (1 <= n) by (subst n; rewrite length_snoc; lia).
      destruct (Z.leb_spec (consecutiveFailuresThreshold (settings s)) (n + 1))
        as [Hle|Hgt].
      * split; [subst k; lia|]. intros _.
        destruct (Z.lt_ge_cases n k) as [Hn|Hn].
        -- destruct (Hlt Hn) as [Hi Ha].
           rewrite Hi, Ha in Hpol. apply find_ongoing_nil in Hnone.
           rewrite Hnone in Hpol.
           destruct Hpol as (i & a & Hi' & Hm & Ho & _ & _ & Ha' & Hma & _ & _ & Hsev & Hact & _).
           exists i, a. tauto.
        -- destruct (Hge Hn) as (i & a & Hi & Ha & Hm & Ho & Hrest).
           rewrite Hi in Hpol. cbn [find] in Hpol.
           rewrite (ongoing_incident_of_new _ _ Hm Ho) in Hpol.
           destruct Hpol as [Hi' Ha'].
           exists i, a. rewrite Hi', Ha'. tauto.
      * split; [|subst k; lia]. intros Hk.
        destruct Hpol as [Hi' Ha'].
        destruct (Hlt ltac:(subst k; lia)) as [Hi Ha].
        split; congruence.
Qed.
End AllDown.

Lemma createMonitor_frame now data s :
  let s' := (createMonitor now data s).2 in
  incidents s' = incidents s /\ alerts s' = alerts s /\ settings s' = settings s.
Proof. repeat split. Qed.

(** Claim C10.  A freshly created monitor has status PENDING, and a first
    DOWN sample opens neither an incident nor an alert.  For an endpoint
    that is DOWN from its first check on, with [k] the larger of 2 and the
    configured threshold: fewer than [k] DOWN samples leave incidents and
    alerts untouched; from the [k]-th on (a DOWN to DOWN step at which the
    counter has reached the threshold) there is exactly one new incident,
    ongoing, with its critical active alert. *)
Theorem pending_monitor_first_incident (now : Z) (data : Monitor) (s0 : State)
    (samples : list (Z * CheckResult)) :
  let created := createMonitor now data s0 in
  let m := mon_id created.1 in
  let s := created.2 in
  let s' := feed m samples s in
  let n := Z.of_nat (length samples) in
  let k := Z.max 2 (consecutiveFailuresThreshold (settings s)) in
  ongoingIncidents s0 m = [] ->
  allDown samples = true ->
  status (currentStatus s m) = PENDING /\
  (n = 1 -> incidents s' = incidents s /\ alerts s' = alerts s) /\
  (n < k -> incidents s' = incidents s /\ alerts s' = alerts s) /\
  (k <= n ->
     status (currentStatus s' m) = DOWN /\
     consecutiveFailuresThreshold (settings s')
       <= consecutiveFailures (currentStatus s' m) /\
     exists i a,
       incidents s' = i :: incidents s /\ alerts s' = a :: alerts s /\
       inc_monitorId i = m /\ inc_status i = ongoing /\
       al_monitorId a = m /\ al_severity a = critical /\ al_status a = active).
Proof.
  cbv zeta. intros Hfresh Hall.
  set (created := createMonitor now data s0).
  pose proof (createMonitor_status now data s0) as Hinit. fold created in Hinit.
  pose proof (createMonitor_frame now data s0) as (Hi & _ & _).
  cbv zeta in Hi. fold created in Hi.
  assert (Hnone : ongoingIncidents created.2 (mon_id created.1) = []).
  { unfold ongoingIncidents in *. rewrite Hi. exact Hfresh. }
  assert (Hpending : status (currentStatus created.2 (mon_id created.1)) = PENDING)
    by (rewrite Hinit; reflexivity).
  assert (Hzero : consecutiveFailures (currentStatus created.2 (mon_id created.1)) = 0)
    by (rewrite Hinit; reflexivity).
  destruct (allDown_invariant _ _ Hpending Hzero Hnone samples Hall)
    as (Hset & Hcnt & Hst & Hlt & Hge).
  cbv zeta in *.
  split; [exact Hpending|].
  split; [intros H1; apply Hlt; lia|].
  split; [exact Hlt|].
  intros Hk. split; [|split; [|exact (Hge Hk)]].
  - apply Hst. intros ->. cbn [length Z.of_nat] in Hk. lia.
  - rewrite Hset, Hcnt. lia.
Qed.

Lemma pending_monitor_first_incident_witness :
  let s := oneMonitor true in
  let first := feed "uuid-0" [sampleAt 1000 CHECK_DOWN] s in
  let third := feed "uuid-0"
                 [sampleAt 1000 CHECK_DOWN; sampleAt 2000 CHECK_DOWN;
                  sampleAt 3000 CHECK_DOWN] s in
  consecutiveFailuresThreshold (settings s) = 3 /\
  (incidents first = incidents s /\ alerts first = alerts s) /\
  exists i a,
    incidents third = i :: incidents s /\ alerts third = a :: alerts s /\
    inc_monitorId i = "uuid-0" /\ inc_status i = ongoing /\
    al_monitorId a = "uuid-0" /\ al_severity a = critical /\
    al_status a = active.
Proof.
  split; [reflexivity|]. split.
  - apply (pending_monitor_first_incident 0 exampleMonitor
             (withAutoResolve true (createInitialState 0))
             [sampleAt 1000 CHECK_DOWN]); reflexivity.
  - apply (pending_monitor_first_incident 0 exampleMonitor
             (withAutoResolve true (createInitialState 0))
             [sampleAt 1000 CHECK_DOWN; sampleAt 2000 CHECK_DOWN;
              sampleAt 3000 CHECK_DOWN]);
      [reflexivity | reflexivity | vm_compute; discriminate].
Defined.

Lemma up_to_down_opens_one_incident_witness :
  let s := feed "uuid-0" [sampleAt 1000 CHECK_UP] (oneMonitor true) in
  let s' := (updateStatus 2000 "uuid-0" (sampleAt 2000 CHECK_DOWN).2 s).2 in
  exists i a,
    incidents s' = i :: incidents s /\
    inc_monitorId i = "uuid-0" /\ inc_status i = ongoing /\
    inc_message i = "ECONNREFUSED" /\ inc_startedAt i = 2000 /\
    alerts s' = a :: alerts s /\
    al_monitorId a = "uuid-0" /\ al_type a = "incident" /\
    al_message a = "ECONNREFUSED" /\ al_severity a = critical /\
    al_status a = active /\ al_createdAt a = 2000.
Proof.
  apply (up_to_down_opens_one_incident 2000 "uuid-0"
           (sampleAt 2000 CHECK_DOWN).2
           (feed "uuid-0" [sampleAt 1000 CHECK_UP] (oneMonitor true)));
    reflexivity.
Defined.

(** Claim C1, at the input where the code leaves it.  Auto-resolve is off;
    the samples UP, DOWN, UP have left the endpoint UP with its incident
    still ongoing; the next DOWN sample makes [updateStatus] open a second
    ongoing incident for the same endpoint. *)
Theorem second_ongoing_incident_without_autoResolve :
  let s := feed "uuid-0"
             [sampleAt 1000 CHECK_UP; sampleAt 2000 CHECK_DOWN;
              sampleAt 3000 CHECK_UP] (oneMonitor false) in
  let s' := (updateStatus 4000 "uuid-0" (sampleAt 4000 CHECK_DOWN).2 s).2 in
  status (currentStatus s "uuid-0") = UP /\
  length (ongoingIncidents s "uuid-0") = 1%nat /\
  length (ongoingIncidents s' "uuid-0") = 2%nat.
Proof. vm_compute. repeat split. Qed.

(** ** Recovery: the DOWN to UP transition *)

Section ListUpdates.
Context {A : Type} (p : A -> bool) (f : A -> A).
Hypothesis p_f : forall x, p (f x) = false.

Lemma filter_update_all l : List.filter p (update_all p f l) = [].
Proof.
  induction l as [|x l IH]; [reflexivity|].
  cbn [update_all map List.filter] in *. destruct (p x) eqn:Hx.
  - rewrite p_f. exact IH.
  - rewrite Hx. exact IH.
Qed.

Lemma filter_update_first l :
  List.filter p (update_first p f l) = tail (List.filter p l).
Proof.
  induction l as [|x l IH]; [reflexivity|].
  cbn [update_first List.filter]. destruct (p x) eqn:Hx.
  - cbn [List.filter tail]. rewrite p_f. reflexivity.
  - cbn [List.filter]. rewrite Hx. exact IH.
Qed.

Lemma find_update_first l x :
  find p l = Some x -> In (f x) (update_first p f l).
Proof.
  induction l as [|y l IH]; [discriminate|].
  cbn [find update_first]. destruct (p y).
  - intros [= ->]. left. reflexivity.
  - intros H. right. exact (IH H).
Qed.

End ListUpdates.

Lemma resolved_incident_not_ongoing m now i :
  ongoing_incident_of m (mark_incident_resolved now i) = false.
Proof. unfold ongoing_incident_of. apply andb_false_r. Qed.

Lemma resolved_alert_not_active m now a :
  active_alert_of m (mark_resolved now a) = false.
Proof. unfold active_alert_of. apply andb_false_r. Qed.

(** With auto-resolve on, [updateStatus] resolves the most recent ongoing
    incident of the endpoint (resolve time [now], duration since its start)
    and every active alert of the endpoint. *)
Lemma recovery_with_autoResolve (now : Z) (m : string) (r : CheckResult)
    (s : State) (i : Incident) :
  status (currentStatus s m) = DOWN ->
  cr_status r = CHECK_UP ->
  autoResolve (settings s) = true ->
  find (ongoing_incident_of m) (incidents s) = Some i ->
  let s' := (updateStatus now m r s).2 in
  let i' := mark_incident_resolved now i in
  In i' (incidents s') /\
  inc_id i' = inc_id i /\ inc_status i' = resolved /\
  inc_resolvedAt i' = Some now /\
  inc_duration i' = Some (now - inc_startedAt i) /\
  ongoingIncidents s' m = tail (ongoingIncidents s m) /\
  alerts s' = update_all (active_alert_of m) (mark_resolved now) (alerts s) /\
  activeAlerts s' m = [].
Proof.
  intros Hdown Hup Hauto Hfind. cbv zeta.
  pose proof (updateStatus_policy now m r s) as H. cbv zeta in H.
  rewrite Hdown, Hup, Hauto, Hfind in H. destruct H as [Hi Ha].
  unfold ongoingIncidents, activeAlerts. rewrite Hi, Ha.
  split; [apply find_update_first; exact Hfind|].
  repeat split.
  - apply filter_update_first. intros x. apply resolved_incident_not_ongoing.
  - apply filter_update_all. intros x. apply resolved_alert_not_active.
Qed.

(** With auto-resolve off, [updateStatus] leaves every incident and every
    alert as it is. *)
Lemma recovery_without_autoResolve (now : Z) (m : string) (r : CheckResult)
    (s : State) :
  status (currentStatus s m) = DOWN ->
  cr_status r = CHECK_UP ->
  autoResolve (settings s) = false ->
  let s' := (updateStatus now m r s).2 in
  incidents s' = incidents s /\ alerts s' = alerts s.
Proof.
  intros Hdown Hup Hauto. cbv zeta.
  pose proof (updateStatus_policy now m r s) as H. cbv zeta in H.
  rewrite Hdown, Hup, Hauto in H. exact H.
Qed.

(** Claim C4, at the input where the code leaves it.  Auto-resolve is off,
    the endpoint is DOWN with one ongoing incident and one active alert; the
    probe of the running check answers UP.  [runCheck] leaves the incident
    ongoing but marks the alert resolved. *)
Theorem recovery_resolves_alert_without_autoResolve :
  let before := serverInOutage false in
  let after :=
    (step exampleEnv 120100
       (ProbeAnswers "uuid-0" (sampleAt 120100 CHECK_UP).2) before).1 in
  autoResolve (settings (state before)) = false /\
  status (currentStatus (state before) "uuid-0") = DOWN /\
  map inc_status (incidents (state before)) = [ongoing] /\
  map al_status (alerts (state before)) = [active] /\
  status (currentStatus (state after) "uuid-0") = UP /\
  map inc_status (incidents (state after)) = [ongoing] /\
  map al_status (alerts (state after)) = [alert_resolved] /\
  map al_resolvedAt (alerts (state after)) = [Some 120100].
Proof. vm_compute. repeat split. Qed.

(** ** One ongoing incident per endpoint, as long as auto-resolve is on *)

Lemma ongoingIncidents_eq s s' m :
  incidents s' = incidents s -> ongoingIncidents s' m = ongoingIncidents s m.
Proof. unfold ongoingIncidents. intros ->. reflexivity. Qed.

Lemma autoResolve_keeps_single_ongoing now m r s :
  autoResolve (settings s) = true ->
  singleOngoing s m -> singleOngoing (updateStatus now m r s).2 m.
Proof.
  intros Hauto [Hlen Hquiet].
  pose proof (updateStatus_policy now m r s) as Hpol. cbv zeta in Hpol.
  pose proof (updateStatus_status now m r s) as Hst.
  revert Hpol Hst. generalize (updateStatus now m r s).2. intros s' Hpol Hst.
  unfold singleOngoing, untouched, opensIncident in *. rewrite Hst.
  assert (Hopen : ongoingIncidents s m = [] ->
            (exists i a, incidents s' = i :: incidents s /\
               inc_monitorId i = m /\ inc_status i = ongoing /\
               inc_message i = cr_message r /\ inc_startedAt i = now /\
               alerts s' = a :: alerts s /\ al_monitorId a = m /\
               al_type a = "incident" /\ al_message a = cr_message r /\
               al_severity a = critical /\ al_status a = active /\
               al_createdAt a = now) ->
            (length (ongoingIncidents s' m) <= 1)%nat).
  { intros Hnil (i & a & Hi & Hm & Ho & _). unfold ongoingIncidents in *.
    rewrite Hi. cbn [List.filter].
    rewrite (ongoing_incident_of_new _ _ Hm Ho), Hnil. cbn [length]. lia. }
  destruct (status (currentStatus s m)) eqn:Hprev, (cr_status r) eqn:Hr;
    cbn [status_of].
  - destruct Hpol as [Hi _]. rewrite (ongoingIncidents_eq _ _ _ Hi).
    split; [exact Hlen | intros _; apply Hquiet; discriminate].
  - destruct Hpol as [Hi _]. rewrite (ongoingIncidents_eq _ _ _ Hi).
    split; [exact Hlen | tauto].
  - destruct Hpol as [Hi _]. rewrite (ongoingIncidents_eq _ _ _ Hi).
    split; [exact Hlen | intros _; apply Hquiet; discriminate].
  - split; [|tauto]. apply Hopen; [apply Hquiet; discriminate | exact Hpol].
  - rewrite Hauto in Hpol.
    destruct (find (ongoing_incident_of m) (incidents s)) eqn:Hfind.
    + destruct Hpol as [Hi _].
      assert (Hnil : ongoingIncidents s' m = []).
      { unfold ongoingIncidents in *. rewrite Hi, filter_update_first
          by (intros x; apply resolved_incident_not_ongoing).
        destruct (List.filter (ongoing_incident_of m) (incidents s))
          as [|x [|y l]]; [reflexivity | reflexivity | cbn in Hlen; lia]. }
      rewrite Hnil. split; [cbn; lia | reflexivity].
    + destruct Hpol as [Hi _]. rewrite (ongoingIncidents_eq _ _ _ Hi).
      apply find_ongoing_nil in Hfind. rewrite Hfind. split; [cbn; lia | reflexivity].
  - split; [|tauto].
    destruct (_ <=? _).
    + destruct (find (ongoing_incident_of m) (incidents s)) eqn:Hfind.
      * destruct Hpol as [Hi _]. rewrite (ongoingIncidents_eq _ _ _ Hi). exact Hlen.
      * apply Hopen; [apply find_ongoing_nil; exact Hfind | exact Hpol].
    + destruct Hpol as [Hi _]. rewrite (ongoingIncidents_eq _ _ _ Hi). exact Hlen.
Qed.

(** With auto-resolve on, no sequence of check results gives an endpoint a
    second ongoing incident. *)
Lemma single_ongoing_with_autoResolve m samples s :
  autoResolve (settings s) = true ->
  singleOngoing s m ->
  singleOngoing (feed m samples s) m /\
  settings (feed m samples s) = settings s.
Proof.
  intros Hauto Hinv.
  induction samples as [|sample samples IH] using rev_ind.
  - split; [exact Hinv | reflexivity].
  - destruct IH as [IH Hset]. rewrite feed_snoc, updateStatus_settings.
    split; [|exact Hset].
    apply autoResolve_keeps_single_ongoing; [rewrite Hset; exact Hauto | exact IH].
Qed.

(** ** Deleting a monitor *)

Lemma stopMonitorInterval_spec id srv :
  monitorIntervals (stopMonitorInterval id srv) = delete id (monitorIntervals srv)
  /\ state (stopMonitorInterval id srv) = state srv.
Proof.
  unfold stopMonitorInterval.
  destruct (monitorIntervals srv !! id) eqn:H; [split; reflexivity|].
  cbn. rewrite delete_id by exact H. split; reflexivity.
Qed.

Lemma deleteMonitor_spec now id s :
  let p := deleteMonitor now id s in
  monitors p.2 !! id = None /\
  (is_Some (monitors s !! id) -> statuses p.2 !! id = None).
Proof.
  cbv zeta. unfold deleteMonitor.
  destruct (monitors s !! id) eqn:Hm.
  - cbn [snd addLog addActivity uuidv4 set_logs set_activityLogs set_statuses
         set_monitors monitors statuses].
    rewrite !lookup_delete_eq. split; [reflexivity | intros _; reflexivity].
  - cbn [snd]. split; [exact Hm | intros [? [=]]].
Qed.

(** The handler removes the timer, the monitor and its status. *)
Lemma delete_stops_timer now id srv :
  let srv' := (onMonitorDelete now id srv).1 in
  monitorIntervals srv' !! id = None /\
  monitors (state srv') !! id = None /\
  (is_Some (monitors (state srv) !! id) -> statuses (state srv') !! id = None).
Proof.
  cbv zeta. unfold onMonitorDelete.
  destruct (stopMonitorInterval_spec id srv) as [Hint Hst].
  revert Hint Hst. generalize (stopMonitorInterval id srv). intros srv1 Hint Hst.
  rewrite Hst.
  pose proof (deleteMonitor_spec now id (state srv)) as [Hm Hs].
  destruct (deleteMonitor now id (state srv)) as [result s2].
  cbn [fst snd] in *.
  destruct result; cbn [fst state monitorIntervals set_state];
    rewrite Hint, lookup_delete_eq; repeat split; assumption.
Qed.

(** A check that starts after the deletion stops at once. *)
Lemma check_after_delete env now id srv :
  monitors (state srv) !! id = None ->
  step env now (TimerFires id) srv = (srv, []) /\
  step env now (CheckNow id) srv = (srv, []).
Proof.
  intros H. unfold step, runCheck_start, getMonitor. rewrite H.
  destruct (monitorIntervals srv !! id); split; reflexivity.
Qed.

(** Claim C9, at the input where the code leaves it.  An enabled monitor is
    created, its first check is waiting for the probe; the monitor is
    deleted (timer, monitor and status are gone); then the probe answers and
    [runCheck] stores a status under the deleted id. *)
Theorem probe_result_applied_after_delete :
  let created := (run exampleEnv [(0, ClientCreates exampleMonitor)]
                    (initialServer 0)).1 in
  let deleted := (step exampleEnv 50 (ClientDeletes "uuid-0") created).1 in
  let after :=
    (step exampleEnv 100
       (ProbeAnswers "uuid-0" (sampleAt 100 CHECK_DOWN).2) deleted).1 in
  mon_enabled <$> monitors (state created) !! "uuid-0" = Some true /\
  monitorIntervals created !! "uuid-0" = Some 60000 /\
  monitorIntervals deleted !! "uuid-0" = None /\
  monitors (state deleted) !! "uuid-0" = None /\
  statuses (state deleted) !! "uuid-0" = None /\
  monitors (state after) !! "uuid-0" = None /\
  totalChecks <$> statuses (state after) !! "uuid-0" = Some 1 /\
  status <$> statuses (state after) !! "uuid-0" = Some DOWN.
Proof. vm_compute. repeat split. Qed.

(** ** The self check of the network *)

Lemma onlyLogs_refl s : onlyLogs s s.
Proof. repeat split. Qed.

Lemma onlyLogs_trans s1 s2 s3 : onlyLogs s1 s2 -> onlyLogs s2 s3 -> onlyLogs s1 s3.
Proof. unfold onlyLogs, sameCore. intuition congruence. Qed.

Lemma sendEmail_onlyLogs env now recipient subject s :
  onlyLogs s (sendEmail env now recipient subject s).1.2.
Proof.
  unfold sendEmail. repeat case_match; repeat split.
Qed.

Lemma sendEmails_onlyLogs env now subject recipients s :
  onlyLogs s (sendEmails env now subject recipients s).1.
Proof.
  revert s. induction recipients as [|c rest IH]; intros s; [apply onlyLogs_refl|].
  cbn [sendEmails].
  pose proof (sendEmail_onlyLogs env now (js_str (ct_email c)) subject s) as H1.
  destruct (sendEmail env now (js_str (ct_email c)) subject s) as [[res s1] out1].
  cbn [fst snd] in H1. specialize (IH s1).
  destruct (sendEmails env now subject rest s1) as [s2 out2].
  cbn [fst] in *. eapply onlyLogs_trans; eassumption.
Qed.

Lemma sendNetworkStatusNotification_onlyLogs env now c s :
  onlyLogs s (sendNetworkStatusNotification env now c s).1.
Proof.
  unfold sendNetworkStatusNotification.
  destruct (emailEnabled (settings s) && _); [|apply onlyLogs_refl].
  match goal with
  | |- context [sendEmails ?e ?n ?subj ?l s] =>
      pose proof (sendEmails_onlyLogs e n subj l s) as H;
      destruct (sendEmails e n subj l s) as [s1 out]
  end.
  exact H.
Qed.

Lemma networkNotifications_app l1 l2 :
  networkNotifications (l1 ++ l2) = networkNotifications l1 ++ networkNotifications l2.
Proof.
  induction l1 as [|e l1 IH]; [reflexivity|].
  destruct e; cbn [app networkNotifications]; rewrite IH; reflexivity.
Qed.

Lemma networkNotifications_requests out :
  networkNotifications (map Request out) = [].
Proof. induction out as [|o out IH]; [reflexivity | exact IH]. Qed.

Lemma mayNotify_state now type s srv :
  mayNotify now type (set_state s srv) = mayNotify now type srv.
Proof. reflexivity. Qed.

(** One tick of the self check. *)
Lemma checkNetworkConnectivity_step env now reachable srv :
  let p := checkNetworkConnectivity env now reachable srv in
  let previous := isConnected (networkStatus (state srv)) in
  isConnected (networkStatus (state p.1)) = reachable /\
  if negb (Bool.eqb previous reachable) && mayNotify now (typeOf reachable) srv
  then networkNotifications p.2 = [(now, reachable)] /\
       lastNetworkNotificationTime p.1 = now /\
       lastNetworkNotificationType p.1 = Some (typeOf reachable)
  else networkNotifications p.2 = [] /\
       lastNetworkNotificationTime p.1 = lastNetworkNotificationTime srv /\
       lastNetworkNotificationType p.1 = lastNetworkNotificationType srv.
Proof.
  cbv zeta. unfold checkNetworkConnectivity, getNetworkStatus, setNetworkStatus.
  destruct reachable, (isConnected (networkStatus (state srv)));
    cbn [negb Bool.eqb andb typeOf fst snd];
    try (repeat split; fail).
  - (* restored *)
    rewrite !mayNotify_state.
    destruct (mayNotify now connected srv); [|repeat split].
    match goal with
    | |- context [sendNetworkStatusNotification ?e ?n ?c ?s] =>
        pose proof (sendNetworkStatusNotification_onlyLogs e n c s)
          as ((_ & _ & _ & _ & Hn) & _);
        destruct (sendNetworkStatusNotification e n c s) as [s1 out]
    end.
    cbn [fst snd state set_state] in *.
    split; [rewrite Hn; reflexivity|].
    cbn [app networkNotifications]. rewrite networkNotifications_requests.
    repeat split.
  - (* lost *)
    rewrite !mayNotify_state.
    destruct (mayNotify now disconnected srv); [|repeat split].
    match goal with
    | |- context [sendNetworkStatusNotification ?e ?n ?c ?s] =>
        pose proof (sendNetworkStatusNotification_onlyLogs e n c s)
          as ((_ & _ & _ & _ & Hn) & _);
        destruct (sendNetworkStatusNotification e n c s) as [s1 out]
    end.
    cbn [fst snd state set_state] in *.
    split; [rewrite Hn; reflexivity|].
    rewrite !networkNotifications_app.
    cbn [app networkNotifications]. rewrite networkNotifications_requests.
    repeat split.
Qed.

Lemma runNetworkChecks_cons env now reachable rest srv :
  runNetworkChecks env ((now, reachable) :: rest) srv =
  let p := checkNetworkConnectivity env now reachable srv in
  let q := runNetworkChecks env rest p.1 in
  (q.1, p.2 ++ q.2).
Proof.
  cbn [runNetworkChecks].
  destruct (checkNetworkConnectivity env now reachable srv) as [srv1 eff1].
  cbn [fst snd]. destruct (runNetworkChecks env rest srv1). reflexivity.
Qed.

Lemma mayNotify_true now type srv :
  mayNotify now type srv = true ->
  NETWORK_NOTIFICATION_COOLDOWN < now - lastNetworkNotificationTime srv /\
  lastNetworkNotificationType srv <> Some type.
Proof.
  unfold mayNotify, lastTypeIsNot. intros H.
  apply andb_true_iff in H as [Ht Hk]. apply Z.ltb_lt in Ht.
  split; [exact Ht|].
  destruct (lastNetworkNotificationType srv) as [[]|], type;
    discriminate || (intros [=]).
Qed.

(** A tick that observes the connectivity already stored sends nothing. *)
Lemma same_state_never_notifies env now reachable srv :
  isConnected (networkStatus (state srv)) = reachable ->
  networkNotifications (checkNetworkConnectivity env now reachable srv).2 = [].
Proof.
  intros H. destruct (checkNetworkConnectivity_step env now reachable srv) as [_ Hs].
  cbv zeta in Hs. rewrite H, Bool.eqb_reflx in Hs. cbn [negb andb] in Hs.
  apply Hs.
Qed.

Lemma notifications_gated env ticks srv :
  gated (lastNetworkNotificationTime srv) (lastNetworkNotificationType srv)
    (networkNotifications (runNetworkChecks env ticks srv).2).
Proof.
  revert srv. induction ticks as [|[now reachable] rest IH]; intros srv.
  - exact I.
  - rewrite runNetworkChecks_cons. cbv zeta. cbn [snd].
    rewrite networkNotifications_app.
    destruct (checkNetworkConnectivity_step env now reachable srv) as [_ Hs].
    cbv zeta in Hs. specialize (IH (checkNetworkConnectivity env now reachable srv).1).
    destruct (negb _ && mayNotify now (typeOf reachable) srv) eqn:Hc.
    + destruct Hs as (-> & Ht & Hk). rewrite Ht, Hk in IH.
      apply andb_true_iff in Hc as [_ Hc]. apply mayNotify_true in Hc as [? ?].
      cbn [app gated]. auto.
    + destruct Hs as (-> & Ht & Hk). rewrite Ht, Hk in IH. exact IH.
Qed.

Lemma notifications_are_transitions env ticks srv :
  sublist (networkNotifications (runNetworkChecks env ticks srv).2)
    (observedTransitions (isConnected (networkStatus (state srv))) ticks).
Proof.
  revert srv. induction ticks as [|[now reachable] rest IH]; intros srv.
  - constructor.
  - rewrite runNetworkChecks_cons. cbv zeta. cbn [snd observedTransitions].
    rewrite networkNotifications_app.
    destruct (checkNetworkConnectivity_step env now reachable srv) as [Hconn Hs].
    cbv zeta in Hs. specialize (IH (checkNetworkConnectivity env now reachable srv).1).
    rewrite Hconn in IH.
    destruct (Bool.eqb (isConnected (networkStatus (state srv))) reachable).
    + cbn [negb andb] in Hs. destruct Hs as (-> & _). exact IH.
    + cbn [negb andb] in Hs.
      destruct (mayNotify now (typeOf reachable) srv); destruct Hs as (-> & _).
      * cbn [app]. apply sublist_skip. exact IH.
      * cbn [app]. apply sublist_cons. exact IH.
Qed.

Lemma observedTransitions_ticks connected ticks n :
  In n (observedTransitions connected ticks) -> In n ticks.
Proof.
  revert connected. induction ticks as [|[now reachable] rest IH]; intros c; [tauto|].
  cbn [observedTransitions]. destruct (Bool.eqb c reachable).
  - intros H. right. eauto.
  - intros [<-|H]; [left; reflexivity | right; eauto].
Qed.

Lemma gated_spaced lastTime lastType sent :
  gated lastTime lastType sent ->
  StronglySorted cooldownApart sent /\
  Forall (fun n => NETWORK_NOTIFICATION_COOLDOWN < n.1 - lastTime) sent.
Proof.
  revert lastTime lastType.
  induction sent as [|[sentAt c] rest IH]; intros lastTime lastType.
  - intros _. split; constructor.
  - cbn [gated]. intros (Ht & _ & Hrest).
    destruct (IH _ _ Hrest) as [Hsorted Hall]. split.
    + constructor; [exact Hsorted | exact Hall].
    + constructor; [exact Ht|].
      eapply Forall_impl; [exact Hall|].
      intros n Hn. cbn [fst] in *. unfold NETWORK_NOTIFICATION_COOLDOWN in *. lia.
Qed.

Lemma mayNotify_false now type srv :
  mayNotify now type srv = false ->
  now - lastNetworkNotificationTime srv <= NETWORK_NOTIFICATION_COOLDOWN \/
  lastNetworkNotificationType srv = Some type.
Proof.
  unfold mayNotify, lastTypeIsNot. intros H.
  apply andb_false_iff in H as [Ht|Hk].
  - left. apply Z.ltb_ge in Ht. exact Ht.
  - right. destruct (lastNetworkNotificationType srv) as [[]|], type;
      discriminate || reflexivity.
Qed.

(** Claim C5.  In the self check of the network, with its cooldown of 60
    seconds: a tick that observes the connectivity already stored sends no
    notification; a tick that observes a transition sends one exactly when
    more than the cooldown has passed since the last notification and the
    last notification was not of the same type, however long ago it was
    sent.  So the notifications of a run are among its observed
    transitions, each comes more than the cooldown after the previous one
    and is of the other type, any two are more than the cooldown apart, and
    the ticks of one window send at most one.  When a disconnect is itself
    announced, every tick within the cooldown after it stays silent: two
    disconnects within the window then give exactly one notification. *)
Theorem network_notifications_only_on_transitions_with_cooldown
    (env : Env) (ticks : list (Z * bool)) (srv : Server) :
  let sent := networkNotifications (runNetworkChecks env ticks srv).2 in
  NETWORK_NOTIFICATION_COOLDOWN = 60000
  /\ (forall now reachable srv0,
        isConnected (networkStatus (state srv0)) = reachable ->
        networkNotifications (checkNetworkConnectivity env now reachable srv0).2
        = [])
  /\ (forall now reachable srv0,
        isConnected (networkStatus (state srv0)) <> reachable ->
        let sentNow :=
          networkNotifications
            (checkNetworkConnectivity env now reachable srv0).2 in
        (NETWORK_NOTIFICATION_COOLDOWN < now - lastNetworkNotificationTime srv0 ->
         lastNetworkNotificationType srv0 <> Some (typeOf reachable) ->
         sentNow = [(now, reachable)]) /\
        (now - lastNetworkNotificationTime srv0 <= NETWORK_NOTIFICATION_COOLDOWN \/
         lastNetworkNotificationType srv0 = Some (typeOf reachable) ->
         sentNow = []))
  /\ sublist sent
       (observedTransitions (isConnected (networkStatus (state srv))) ticks)
  /\ gated (lastNetworkNotificationTime srv) (lastNetworkNotificationType srv) sent
  /\ StronglySorted cooldownApart sent
  /\ (forall t0 reachable rest,
        ticks = (t0, reachable) :: rest ->
        Forall (fun tick => t0 <= tick.1 <= t0 + NETWORK_NOTIFICATION_COOLDOWN)
          rest ->
        (length sent <= 1)%nat)
  /\ (forall t0 rest,
        ticks = (t0, false) :: rest ->
        isConnected (networkStatus (state srv)) = true ->
        NETWORK_NOTIFICATION_COOLDOWN < t0 - lastNetworkNotificationTime srv ->
        lastNetworkNotificationType srv <> Some disconnected ->
        Forall (fun tick => tick.1 <= t0 + NETWORK_NOTIFICATION_COOLDOWN) rest ->
        sent = [(t0, false)]).
Proof.
  cbv zeta.
  split; [reflexivity|].
  split; [intros; apply same_state_never_notifies; assumption|].
  split.
  { intros now reachable srv0 Hne.
    destruct (checkNetworkConnectivity_step env now reachable srv0) as [_ Hs].
    cbv zeta in Hs.
    assert (Hb : Bool.eqb (isConnected (networkStatus (state srv0))) reachable
                 = false).
    { destruct (isConnected (networkStatus (state srv0))), reachable;
        try reflexivity; destruct Hne; reflexivity. }
    rewrite Hb in Hs. cbn [negb andb] in Hs.
    destruct (mayNotify now (typeOf reachable) srv0) eqn:Hmay.
    - apply mayNotify_true in Hmay as [Ht Hk]. destruct Hs as (Hsent & _).
      split; [intros _ _; exact Hsent|].
      intros [Hearly | Hsame]; [lia | contradiction].
    - apply mayNotify_false in Hmay. destruct Hs as (Hsent & _).
      split; [|intros _; exact Hsent].
      intros Ht Hk. destruct Hmay as [Hearly | Hsame]; [lia | contradiction]. }
  split; [apply notifications_are_transitions|].
  split; [apply notifications_gated|].
  split; [eapply gated_spaced, notifications_gated|].
  split.
  { intros t0 reachable rest Hticks Hwin.
    pose proof (notifications_are_transitions env ticks srv) as Hsub.
    destruct (gated_spaced _ _ _ (notifications_gated env ticks srv))
      as [Hsorted _].
    destruct (networkNotifications (runNetworkChecks env ticks srv).2)
      as [|a [|b more]]; cbn [length]; [lia | lia | exfalso].
    assert (Hin : forall n, n ∈ a :: b :: more ->
                  t0 <= n.1 <= t0 + NETWORK_NOTIFICATION_COOLDOWN).
    { intros n Hn. eapply elem_of_sublist in Hn; [|exact Hsub].
      apply list_elem_of_In, observedTransitions_ticks in Hn.
      rewrite Hticks in Hn. destruct Hn as [<-|Hn].
      - cbn [fst]. unfold NETWORK_NOTIFICATION_COOLDOWN. lia.
      - rewrite Forall_forall in Hwin. apply Hwin, list_elem_of_In, Hn. }
    pose proof (Hin a ltac:(left)) as Ha.
    pose proof (Hin b ltac:(right; left)) as Hb.
    apply StronglySorted_inv in Hsorted as [_ Hapart].
    apply Forall_inv in Hapart. unfold cooldownApart in Hapart. lia. }
  intros t0 rest -> Hconn Hlate Hkind Hwin.
  assert (Hmay : mayNotify t0 disconnected srv = true).
  { destruct (mayNotify t0 disconnected srv) eqn:Hmay; [reflexivity|].
    apply mayNotify_false in Hmay as [Hearly | Hsame]; [lia | contradiction]. }
  rewrite runNetworkChecks_cons. cbv zeta. cbn [snd].
  rewrite networkNotifications_app.
  destruct (checkNetworkConnectivity_step env t0 false srv) as [Hc Hs].
  cbv zeta in Hs. rewrite Hconn in Hs. cbn [typeOf Bool.eqb negb andb] in Hs.
  rewrite Hmay in Hs. destruct Hs as (-> & Ht & Hk).
  set (srv1 := (checkNetworkConnectivity env t0 false srv).1) in *.
  pose proof (notifications_gated env rest srv1) as Hg.
  pose proof (notifications_are_transitions env rest srv1) as Hsub.
  destruct (networkNotifications (runNetworkChecks env rest srv1).2)
    as [|[t c] more]; [reflexivity|].
  exfalso. rewrite Ht in Hg. destruct Hg as (Hlate' & _).
  assert (Hin : In (t, c) rest).
  { eapply observedTransitions_ticks. apply list_elem_of_In.
    eapply elem_of_sublist; [|exact Hsub]. left. }
  rewrite Forall_forall in Hwin. apply list_elem_of_In in Hin.
  specialize (Hwin _ Hin). cbn [fst] in Hwin. lia.
Qed.

Lemma network_notifications_only_on_transitions_with_cooldown_witness :
  networkNotifications
    (runNetworkChecks exampleEnv
       [(1000000, false); (1010000, true); (1020000, false)]
       (initialServer 0)).2
  = [(1000000, false)].
Proof.
  destruct (network_notifications_only_on_transitions_with_cooldown exampleEnv
              [(1000000, false); (1010000, true); (1020000, false)]
              (initialServer 0)) as (_ & _ & _ & _ & _ & _ & _ & Hone).
  apply (Hone 1000000 [(1010000, true); (1020000, false)]).
  - reflexivity.
  - reflexivity.
  - vm_compute. reflexivity.
  - vm_compute. discriminate.
  - repeat constructor; cbn; unfold NETWORK_NOTIFICATION_COOLDOWN; lia.
Defined.

(** Claim C5, the case that the wording of the claim leaves out: two
    disconnects within one window that give no notification.  In the first
    run a fresh process announces the loss at 1000000 and the recovery at
    1100000; the loss at 1110000, the recovery at 1120000 and the loss at
    1130000 all fall into the cooldown of that and nothing is sent.  In the
    second run the recovery at 1010000 falls into the cooldown of the
    announced loss, so the last notification stays a disconnect: the loss
    observed a day later, at 90000000, is not announced although the
    cooldown has long passed; the recovery at 90010000 is, and the loss at
    90020000 falls into the cooldown of that. *)
Lemma two_disconnects_within_the_window_unannounced :
  networkNotifications
    (runNetworkChecks exampleEnv
       [(1000000, false); (1100000, true);
        (1110000, false); (1120000, true); (1130000, false)]
       (initialServer 0)).2
  = [(1000000, false); (1100000, true)] /\
  networkNotifications
    (runNetworkChecks exampleEnv
       [(1110000, false); (1120000, true); (1130000, false)]
       (runNetworkChecks exampleEnv
          [(1000000, false); (1100000, true)] (initialServer 0)).1).2
  = [] /\
  networkNotifications
    (runNetworkChecks exampleEnv
       [(1000000, false); (1010000, true);
        (90000000, false); (90010000, true); (90020000, false)]
       (initialServer 0)).2
  = [(1000000, false); (90010000, true)] /\
  networkNotifications
    (runNetworkChecks exampleEnv
       [(90000000, false); (90010000, true); (90020000, false)]
       (runNetworkChecks exampleEnv
          [(1000000, false); (1010000, true)] (initialServer 0)).1).2
  = [(90010000, true)].
Proof. vm_compute. repeat split. Qed.

(** ** The HTTP probe *)

Section CheckHttp.
Import MonitorEngine.








Variables (monitor : Monitor) (startTime endTime catchTime tlsTime : Z)
  (hostname typeError : string).





End CheckHttp.



(** ** Dispatch of an alert *)

Lemma smsApiRequests_app l1 l2 :
  smsApiRequests (l1 ++ l2) = smsApiRequests l1 ++ smsApiRequests l2.
Proof.
  induction l1 as [|o l1 IH]; [reflexivity|].
  destruct o; cbn [app smsApiRequests]; rewrite IH; reflexivity.
Qed.

Lemma speak_no_sms env text s : smsApiRequests (speak env text s).2 = [].
Proof. unfold speak. repeat case_match; reflexivity. Qed.

Lemma sendEmail_no_sms env now recipient subject s :
  smsApiRequests (sendEmail env now recipient subject s).2 = [].
Proof. unfold sendEmail. repeat case_match; reflexivity. Qed.

Lemma sendEmails_no_sms env now subject recipients s :
  smsApiRequests (sendEmails env now subject recipients s).2 = [].
Proof.
  revert s. induction recipients as [|c rest IH]; intros s; [reflexivity|].
  cbn [sendEmails].
  pose proof (sendEmail_no_sms env now (js_str (ct_email c)) subject s) as H1.
  destruct (sendEmail env now (js_str (ct_email c)) subject s) as [[res s1] out1].
  specialize (IH s1).
  destruct (sendEmails env now subject rest s1) as [s2 out2].
  cbn [snd] in *. rewrite smsApiRequests_app, H1, IH. reflexivity.
Qed.

(** [sendSms] issues one request, whatever the API answers. *)
Lemma sendSms_one_request env now phone message s :
  smsEnabled (settings s) = true ->
  smsApiRequests (sendSms env now phone message s).2 = [recipientsOf phone].
Proof.
  intros H. unfold sendSms. rewrite H. cbn [negb].
  destruct (axios_post env _ _ _); reflexivity.
Qed.

Lemma sendSmsBatch_one_request env now phones message s :
  smsEnabled (settings s) = true -> phones <> [] ->
  smsApiRequests (sendSmsBatch env now phones message s).2 = [phones].
Proof.
  intros H Hne. unfold sendSmsBatch. rewrite H. cbn [negb].
  destruct phones; [contradiction|].
  apply (sendSms_one_request env now (PhoneArray _)). exact H.
Qed.

Lemma smsEligible_phones recipients :
  map js_str (List.filter truthy (map ct_phone (List.filter smsEligible recipients)))
  = map (fun c => js_str (ct_phone c)) (List.filter smsEligible recipients).
Proof.
  induction recipients as [|c rest IH]; [reflexivity|].
  cbn [List.filter]. destruct (smsEligible c) eqn:Hc; [|exact IH].
  cbn [map List.filter]. unfold smsEligible in Hc.
  apply andb_true_iff in Hc as [-> _]. cbn [map]. rewrite IH. reflexivity.
Qed.

Lemma length_zero_nil {A} (l : list A) : Nat.eqb (length l) 0 = false <-> l <> [].
Proof. destruct l; cbn; split; congruence. Qed.

(** Claim C7.  With the SMS channel enabled and N >= 1 SMS-eligible
    recipients (contacts with a non-empty phone and the SMS flag),
    [sendAlertNotification] issues exactly one request to the SMS API, and
    the recipient list of that request holds the N phone numbers. *)
Theorem alert_sends_one_batched_sms_request (env : Env) (now : Z)
    (alert : Alert) (monitor : option Monitor) (s : State) :
  let recipients := smsRecipients (getRecipientsForAlert s) in
  let out := (sendAlertNotification env now alert monitor s).2 in
  smsEnabled (settings s) = true ->
  recipients <> [] ->
  recipients = List.filter smsEligible (allRecipients (getRecipientsForAlert s)) /\
  smsApiRequests out = [map (fun c => js_str (ct_phone c)) recipients] /\
  Forall (fun phones => length phones = length recipients) (smsApiRequests out) /\
  length (smsApiRequests out) = 1%nat.
Proof.
  cbv zeta. intros Hsms Hne.
  split; [reflexivity|].
  assert (Hout : smsApiRequests (sendAlertNotification env now alert monitor s).2
                 = [map (fun c => js_str (ct_phone c))
                      (smsRecipients (getRecipientsForAlert s))]).
  { unfold sendAlertNotification.
    set (r := getRecipientsForAlert s) in *.
    rewrite Hsms. apply length_zero_nil in Hne. rewrite Hne. cbn [negb andb].
    set (outTts := if soundEnabled (settings s) && ttsEnabled (settings s)
                   then _ else _).
    assert (HoutTts : smsApiRequests outTts = []).
    { subst outTts.
    destruct (soundEnabled (settings s) && ttsEnabled (settings s));
      [apply speak_no_sms | reflexivity]. }
    clearbody outTts.
    match goal with
    | |- context [if ?c then sendEmails ?e ?n ?subj ?l s else (s, [])] =>
        assert (Hmail :
          smsApiRequests (if c then sendEmails e n subj l s else (s, [])).2 = []
          /\ settings (if c then sendEmails e n subj l s else (s, [])).1
             = settings s);
        [ destruct c;
          [ split; [apply sendEmails_no_sms|];
            destruct (sendEmails_onlyLogs e n subj l s)
              as ((_ & _ & _ & Hx & _) & _); exact Hx
          | split; reflexivity ]
        | destruct (if c then sendEmails e n subj l s else (s, []))
            as [s1 outMail] ]
    end.
    cbn [fst snd] in Hmail. destruct Hmail as [HoutMail Hset].
    assert (Hr : smsRecipients r = List.filter smsEligible (allRecipients r))
      by reflexivity.
    rewrite Hr, !smsEligible_phones, <- Hr.
    assert (Hphones : map (fun c => js_str (ct_phone c)) (smsRecipients r) <> []).
    { apply length_zero_nil in Hne. destruct (smsRecipients r);
        [contradiction | discriminate]. }
    pose proof (sendSmsBatch_one_request env now _
                  ("[" +:+ severityText (al_severity alert) +:+ "] " +:+
                   js_str (mon_name <$> monitor) +:+ ": " +:+ al_message alert)
                  s1 ltac:(rewrite Hset; exact Hsms) Hphones) as Hbatch.
    destruct (map (fun c => js_str (ct_phone c)) (smsRecipients r)) eqn:Hp;
      [contradiction|].
    destruct (sendSmsBatch env now _ _ s1) as [[res s2] outSms].
    cbn [snd] in *.
    rewrite !smsApiRequests_app, HoutTts, HoutMail, Hbatch. reflexivity. }
  rewrite Hout. split; [reflexivity|]. split; [|reflexivity].
  constructor; [apply length_map | constructor].
Qed.

Lemma alert_sends_one_batched_sms_request_witness :
  smsApiRequests
    (sendAlertNotification exampleEnv 2000 exampleAlert (Some exampleMonitor)
       threeSmsContacts).2
  = [["0241234567"; "0201234567"; "0271234567"]].
Proof.
  apply (alert_sends_one_batched_sms_request exampleEnv 2000 exampleAlert
           (Some exampleMonitor) threeSmsContacts);
    [reflexivity | discriminate].
Defined.

(** Without the SMS channel, or without an eligible recipient, no request
    goes to the SMS API. *)
Lemma no_sms_request_when_disabled_or_empty env now alert monitor s :
  smsEnabled (settings s) = false \/ smsRecipients (getRecipientsForAlert s) = [] ->
  smsApiRequests (sendAlertNotification env now alert monitor s).2 = [].
Proof.
  intros H. unfold sendAlertNotification.
  set (r := getRecipientsForAlert s) in *.
  assert (Hc : smsEnabled (settings s)
               && negb (Nat.eqb (length (smsRecipients r)) 0) = false).
  { destruct H as [Hd | He]; [rewrite Hd | rewrite He, andb_false_r]; reflexivity. }
  rewrite Hc.
  set (outTts := if soundEnabled (settings s) && ttsEnabled (settings s)
                 then _ else _).
  assert (HoutTts : smsApiRequests outTts = []).
  { subst outTts.
    destruct (soundEnabled (settings s) && ttsEnabled (settings s));
      [apply speak_no_sms | reflexivity]. }
  clearbody outTts.
  match goal with
  | |- context [if ?c then sendEmails ?e ?n ?subj ?l s else (s, [])] =>
      assert (Hmail :
        smsApiRequests (if c then sendEmails e n subj l s else (s, [])).2 = []);
      [ destruct c; [apply sendEmails_no_sms | reflexivity]
      | destruct (if c then sendEmails e n subj l s else (s, []))
          as [s1 outMail] ]
  end.
  cbn [snd] in *. rewrite !smsApiRequests_app, HoutTts, Hmail. reflexivity.
Qed.

(** ** Recipient resolution *)

Section JsMap.
Context {V : Type}.
Implicit Types (m : jsmap V) (k : string) (v : V).

Lemma jsmap_set_fresh k v m :
  ~ In k (jsmap_keys m) -> jsmap_set k v m = m ++ [(k, v)].
Proof.
  induction m as [|[k' v'] m IH]; intros Hk; [reflexivity|].
  cbn [jsmap_set]. destruct (String.eqb_spec k k') as [->|Hne].
  - exfalso. apply Hk. left. reflexivity.
  - cbn [app]. rewrite IH; [reflexivity|]. intros H. apply Hk. right. exact H.
Qed.

Lemma jsmap_set_keys k v m :
  In k (jsmap_keys m) -> jsmap_keys (jsmap_set k v m) = jsmap_keys m.
Proof.
  induction m as [|[k' v'] m IH]; intros Hk; [destruct Hk|].
  cbn [jsmap_set]. destruct (String.eqb_spec k k') as [->|Hne]; [reflexivity|].
  unfold jsmap_keys in *. cbn [map fst] in *. rewrite IH; [reflexivity|].
  destruct Hk as [Hk|Hk]; [congruence | exact Hk].
Qed.

Lemma jsmap_set_same k v m :
  NoDup (jsmap_keys m) -> In (k, v) m -> jsmap_set k v m = m.
Proof.
  induction m as [|[k' v'] m IH]; intros Hnd Hin; [destruct Hin|].
  unfold jsmap_keys in Hnd. cbn [map fst] in Hnd.
  apply NoDup_cons in Hnd as [Hk' Hnd].
  cbn [jsmap_set]. destruct (String.eqb_spec k k') as [->|Hne].
  - destruct Hin as [Hin|Hin]; [congruence|].
    exfalso. apply Hk'. apply list_elem_of_In.
    apply (in_map fst) in Hin. exact Hin.
  - destruct Hin as [Hin|Hin]; [congruence|].
    rewrite IH; [reflexivity | exact Hnd | exact Hin].
Qed.

Lemma jsmap_set_NoDup k v m :
  NoDup (jsmap_keys m) -> NoDup (jsmap_keys (jsmap_set k v m)).
Proof.
  intros Hnd. destruct (in_dec String.string_dec k (jsmap_keys m)) as [Hin|Hnin].
  - rewrite jsmap_set_keys by exact Hin. exact Hnd.
  - rewrite jsmap_set_fresh by exact Hnin. unfold jsmap_keys in *.
    rewrite map_app. cbn [map fst].
    apply NoDup_app. split; [exact Hnd|]. split.
    + intros x Hx Hx'. apply list_elem_of_In in Hx'. destruct Hx' as [<-|[]].
      apply Hnin. apply list_elem_of_In. exact Hx.
    + apply NoDup_singleton.
Qed.

Lemma jsmap_get_In k v m : jsmap_get k m = Some v -> In (k, v) m.
Proof.
  induction m as [|[k' v'] m IH]; [discriminate|].
  cbn [jsmap_get]. destruct (String.eqb_spec k k') as [->|Hne].
  - intros [= ->]. left. reflexivity.
  - intros H. right. exact (IH H).
Qed.

End JsMap.

Lemma jsmap_set_keyed k c m :
  keyedById m -> ct_id c = k -> keyedById (jsmap_set k c m).
Proof.
  unfold keyedById. intros Hm Hc.
  induction m as [|[k' c'] m IH]; cbn [jsmap_set].
  - constructor; [exact Hc | constructor].
  - apply Forall_cons in Hm as [Hk' Hm].
    destruct (String.eqb k k'); constructor; auto.
Qed.

Lemma keyedById_ids m :
  keyedById m -> map ct_id (jsmap_values m) = jsmap_keys m.
Proof.
  unfold keyedById, jsmap_values, jsmap_keys.
  induction 1 as [|[k c] m Hk _ IH]; [reflexivity|].
  cbn [map fst snd] in *. congruence.
Qed.

(** The recipient map stays a map keyed by contact id. *)
Lemma recipientMap_wellFormed s :
  let recipientMap :=
    expandGroups (contacts s) (jsmap_values (contactGroups s))
      (addDirectContacts (jsmap_values (contacts s)) []) in
  wellFormedContacts recipientMap.
Proof.
  cbv zeta.
  assert (Hset : forall c m, wellFormedContacts m ->
                   wellFormedContacts (jsmap_set (ct_id c) c m)).
  { intros c m [Hnd Hk]. split;
      [apply jsmap_set_NoDup; exact Hnd | apply jsmap_set_keyed; auto]. }
  assert (Hdirect : forall cs m, wellFormedContacts m ->
                      wellFormedContacts (addDirectContacts cs m)).
  { unfold addDirectContacts. induction cs as [|c cs IH]; intros m Hm; [exact Hm|].
    cbn [fold_left]. apply IH. destruct (wantsNotifications c); auto. }
  assert (Hmembers : forall ids m, wellFormedContacts m ->
                       wellFormedContacts (addGroupMembers (contacts s) ids m)).
  { unfold addGroupMembers. induction ids as [|id ids IH]; intros m Hm; [exact Hm|].
    cbn [fold_left]. apply IH.
    destruct (jsmap_get id (contacts s)) as [c|]; [|exact Hm].
    destruct (wantsNotifications c); auto. }
  assert (Hgroups : forall gs m, wellFormedContacts m ->
                      wellFormedContacts (expandGroups (contacts s) gs m)).
  { unfold expandGroups. induction gs as [|g gs IH]; intros m Hm; [exact Hm|].
    cbn [fold_left]. apply IH. destruct (cg_contactIds g); auto. }
  apply Hgroups, Hdirect. split; constructor.
Qed.

Lemma NoDup_ids_filter (p : Contact -> bool) l :
  NoDup (map ct_id l) -> NoDup (map ct_id (List.filter p l)).
Proof.
  induction l as [|c l IH]; [intros _; constructor|].
  cbn [map List.filter]. intros [Hc Hl]%NoDup_cons.
  destruct (p c); [|auto]. cbn [map]. apply NoDup_cons. split; [|auto].
  intros Hin. apply Hc. apply list_elem_of_In in Hin. apply list_elem_of_In.
  apply in_map_iff in Hin as (x & Hx & Hin).
  apply in_map_iff. exists x. split; [exact Hx|].
  apply List.filter_In in Hin. tauto.
Qed.

(** With a well-formed contacts map the first loop collects the contacts
    that want notifications, in map order. *)
Lemma addDirectContacts_filter l acc :
  NoDup (jsmap_keys acc ++ jsmap_keys l) -> keyedById l ->
  addDirectContacts (jsmap_values l) acc
  = acc ++ List.filter (fun entry => wantsNotifications entry.2) l.
Proof.
  revert acc. induction l as [|[k c] l IH]; intros acc Hnd Hk.
  - cbn. rewrite app_nil_r. reflexivity.
  - apply Forall_cons in Hk as [Hc Hk]. cbn [snd fst] in Hc.
    unfold addDirectContacts, jsmap_values in *. cbn [map snd fold_left List.filter].
    unfold jsmap_keys in Hnd. cbn [map fst] in Hnd.
    assert (Hfresh : ~ In k (jsmap_keys acc)).
    { intros Hin. apply NoDup_app in Hnd as (_ & Hd & _).
      apply (Hd k); [apply list_elem_of_In; exact Hin | left]. }
    destruct (wantsNotifications c).
    + rewrite Hc, jsmap_set_fresh by exact Hfresh.
      rewrite IH; [rewrite <- app_assoc; reflexivity | | exact Hk].
      unfold jsmap_keys. rewrite map_app, <- app_assoc. exact Hnd.
    + apply IH; [|exact Hk]. unfold jsmap_keys.
      apply NoDup_app in Hnd as (Ha & Hd & Hl).
      apply NoDup_cons in Hl as [_ Hl].
      apply NoDup_app. split; [exact Ha|]. split; [|exact Hl].
      intros x Hx Hx'. apply (Hd x Hx). right. exact Hx'.
Qed.

(** The second loop then finds every member already in the map. *)
Lemma expandGroups_nothing_new store groups :
  wellFormedContacts store ->
  let recipientMap := List.filter (fun entry => wantsNotifications entry.2) store in
  expandGroups store groups recipientMap = recipientMap.
Proof.
  intros [Hnd Hk]. cbv zeta.
  set (rm := List.filter (fun entry => wantsNotifications entry.2) store).
  assert (Hrm : NoDup (jsmap_keys rm)).
  { subst rm. unfold jsmap_keys in *. clear Hk.
    induction store as [|[k c] store IH]; [constructor|].
    cbn [map fst List.filter] in *. apply NoDup_cons in Hnd as [Hc Hnd].
    destruct (wantsNotifications (k, c).2); [|auto].
    cbn [map fst]. apply NoDup_cons. split; [|auto].
    intros Hin. apply Hc. apply list_elem_of_In in Hin. apply list_elem_of_In.
    apply in_map_iff in Hin as (x & Hx & Hin).
    apply in_map_iff. exists x. split; [exact Hx|].
    apply List.filter_In in Hin. tauto. }
  assert (Hmembers : forall ids, addGroupMembers store ids rm = rm).
  { unfold addGroupMembers. induction ids as [|id ids IH]; [reflexivity|].
    cbn [fold_left]. destruct (jsmap_get id store) as [c|] eqn:Hget; [|exact IH].
    destruct (wantsNotifications c) eqn:Hw; [|exact IH].
    apply jsmap_get_In in Hget.
    assert (Hid : ct_id c = id).
    { unfold keyedById in Hk. rewrite Forall_forall in Hk.
      apply list_elem_of_In in Hget. exact (Hk _ Hget). }
    rewrite Hid, jsmap_set_same; [exact IH | exact Hrm |].
    subst rm. apply List.filter_In. split; [exact Hget | exact Hw]. }
  unfold expandGroups. induction groups as [|g groups IH]; [reflexivity|].
  cbn [fold_left]. destruct (cg_contactIds g); [rewrite Hmembers|]; exact IH.
Qed.

Lemma filter_values (p : Contact -> bool) (m : jsmap Contact) :
  jsmap_values (List.filter (fun entry => p entry.2) m)
  = List.filter p (jsmap_values m).
Proof.
  unfold jsmap_values. induction m as [|[k c] m IH]; [reflexivity|].
  cbn [List.filter map snd]. destruct (p c); cbn [map snd]; congruence.
Qed.

Lemma allRecipients_direct s :
  wellFormedContacts (contacts s) ->
  allRecipients (getRecipientsForAlert s)
  = List.filter wantsNotifications (jsmap_values (contacts s)).
Proof.
  intros Hwf. unfold getRecipientsForAlert. cbn [allRecipients].
  rewrite addDirectContacts_filter; [| apply Hwf | apply Hwf].
  cbn [app]. rewrite expandGroups_nothing_new by exact Hwf.
  apply filter_values.
Qed.

Lemma Permutation_filter {A} (p : A -> bool) l1 l2 :
  Permutation l1 l2 -> Permutation (List.filter p l1) (List.filter p l2).
Proof.
  induction 1 as [|x l1 l2 _ IH|x y l|l1 l2 l3 _ IH1 _ IH2];
    cbn [List.filter].
  - constructor.
  - destruct (p x); [constructor|]; exact IH.
  - destruct (p x), (p y); try reflexivity. constructor.
  - etransitivity; eassumption.
Qed.

(** Claim C6.  [getRecipientsForAlert] depends on the contacts and contact
    groups only, so resolving twice on unchanged data gives the same
    recipients; no contact id occurs twice among the recipients, whatever
    the groups list; and for a contacts map keyed by contact id every
    contact that wants notifications is there exactly once, and listing the
    same contacts in another order (with any groups over them) gives the
    same email and SMS recipients up to order. *)
Theorem recipients_resolved_once_in_any_order (s : State) :
  let r := getRecipientsForAlert s in
  (forall s2, contacts s2 = contacts s -> contactGroups s2 = contactGroups s ->
     getRecipientsForAlert s2 = r)
  /\ NoDup (map ct_id (allRecipients r))
  /\ NoDup (map ct_id (emailRecipients r))
  /\ NoDup (map ct_id (smsRecipients r))
  /\ (wellFormedContacts (contacts s) ->
      (forall c, In c (jsmap_values (contacts s)) ->
         wantsNotifications c = true ->
         In c (allRecipients r) /\ count_occ String.string_dec (map ct_id (allRecipients r)) (ct_id c) = 1%nat)
      /\ (forall s2, wellFormedContacts (contacts s2) ->
            Permutation (contacts s) (contacts s2) ->
            Permutation (emailRecipients r)
              (emailRecipients (getRecipientsForAlert s2)) /\
            Permutation (smsRecipients r)
              (smsRecipients (getRecipientsForAlert s2)))).
Proof.
  cbv zeta.
  assert (Hall : NoDup (map ct_id (allRecipients (getRecipientsForAlert s)))).
  { destruct (recipientMap_wellFormed s) as [Hnd Hk]. cbv zeta in *.
    unfold getRecipientsForAlert. cbn [allRecipients].
    rewrite keyedById_ids by exact Hk. exact Hnd. }
  split.
  { intros s2 Hc Hg. unfold getRecipientsForAlert. rewrite Hc, Hg. reflexivity. }
  split; [exact Hall|].
  split; [apply NoDup_ids_filter; exact Hall|].
  split; [apply NoDup_ids_filter; exact Hall|].
  intros Hwf. split.
  - intros c Hin Hw.
    assert (Hc : In c (allRecipients (getRecipientsForAlert s))).
    { rewrite allRecipients_direct by exact Hwf.
      apply List.filter_In. split; assumption. }
    split; [exact Hc|].
    apply NoDup_count_occ'; [apply NoDup_ListNoDup; exact Hall|].
    apply in_map. exact Hc.
  - intros s2 Hwf2 Hperm.
    assert (Hp : Permutation (allRecipients (getRecipientsForAlert s))
                   (allRecipients (getRecipientsForAlert s2))).
    { rewrite !allRecipients_direct by assumption.
      apply Permutation_filter. unfold jsmap_values.
      apply Permutation_map. exact Hperm. }
    split; apply Permutation_filter; exact Hp.
Qed.

Lemma recipients_resolved_once_in_any_order_witness :
  Permutation (smsRecipients (getRecipientsForAlert threeSmsContacts))
    (smsRecipients (getRecipientsForAlert threeSmsContactsReordered)).
Proof.
  destruct (recipients_resolved_once_in_any_order threeSmsContacts)
    as (_ & _ & _ & _ & H).
  assert (Hwf : wellFormedContacts (contacts threeSmsContacts)).
  { split; [apply (bool_decide_unpack _); vm_compute; reflexivity
           | repeat constructor]. }
  assert (Hwf2 : wellFormedContacts (contacts threeSmsContactsReordered)).
  { split; [apply (bool_decide_unpack _); vm_compute; reflexivity
           | repeat constructor]. }
  destruct (H Hwf) as [_ Hperm].
  apply Hperm; [exact Hwf2|].
  apply (Permutation_cons_app [_] [_]). apply perm_swap.
Defined.

(** The operations on contacts keep the map well-formed. *)
Lemma jsmap_delete_wellFormed k m :
  wellFormedContacts m -> wellFormedContacts (jsmap_delete k m).
Proof.
  unfold wellFormedContacts, keyedById, jsmap_keys.
  induction m as [|[k' c'] m IH]; intros [Hnd Hk]; [split; assumption|].
  cbn [map fst] in Hnd. apply NoDup_cons in Hnd as [Hk' Hnd].
  apply Forall_cons in Hk as [Hc Hk].
  cbn [jsmap_delete]. destruct (String.eqb k k'); [split; assumption|].
  destruct (IH (conj Hnd Hk)) as [Hnd' Hkd]. split.
  - cbn [map fst]. apply NoDup_cons. split; [|exact Hnd'].
    intros Hin. apply Hk'. clear -Hin.
    induction m as [|[k2 c2] m IHm]; [exact Hin|].
    cbn [jsmap_delete map fst] in *. destruct (String.eqb k k2).
    + right. exact Hin.
    + apply elem_of_cons in Hin as [->|Hin]; [left | right; auto].
  - constructor; assumption.
Qed.

Lemma contacts_stay_wellFormed now id data s :
  wellFormedContacts (contacts s) ->
  wellFormedContacts (contacts (createContact now data s).2) /\
  wellFormedContacts (contacts (updateContact now id data s).2) /\
  wellFormedContacts (contacts (deleteContact now id s).2).
Proof.
  intros [Hnd Hk]. split; [|split].
  - unfold createContact, uuidv4. cbn [snd contacts addLog addActivity uuidv4
      set_logs set_activityLogs set_contacts].
    split; [apply jsmap_set_NoDup; exact Hnd | apply jsmap_set_keyed; auto].
  - unfold updateContact. destruct (jsmap_get id (contacts s)); [|split; assumption].
    cbn [snd contacts addLog addActivity uuidv4 set_logs set_activityLogs
         set_contacts].
    split; [apply jsmap_set_NoDup; exact Hnd | apply jsmap_set_keyed; auto].
  - unfold deleteContact. destruct (jsmap_get id (contacts s)); [|split; assumption].
    cbn [snd contacts addLog addActivity uuidv4 set_logs set_activityLogs
         set_contacts].
    apply jsmap_delete_wellFormed. split; assumption.
Qed.

(** * Further properties *)

(** ** Counters and history of a status *)

Lemma upCount_snoc samples sample :
  upCount (samples ++ [sample]) =
  upCount samples + (if isUpSample sample then 1 else 0).
Proof.
  unfold upCount. rewrite List.filter_app, length_app. cbn [List.filter].
  destruct (isUpSample sample); cbn [length]; lia.
Qed.

Lemma feed_checks m samples s :
  totalChecks (currentStatus (feed m samples s) m)
  = totalChecks (currentStatus s m) + Z.of_nat (length samples) /\
  successfulChecks (currentStatus (feed m samples s) m)
  = successfulChecks (currentStatus s m) + upCount samples.
Proof.
  induction samples as [|sample samples [IHt IHs]] using rev_ind.
  - unfold upCount. cbn. split; lia.
  - rewrite feed_snoc, updateStatus_current, length_snoc, upCount_snoc.
    unfold nextStatus, isUpSample. cbn [totalChecks successfulChecks].
    rewrite IHt, IHs. destruct (cr_status sample.2); cbn [status_of status_eqb];
      split; lia.
Qed.

(** Property X1.  Every check is counted once in [totalChecks] and every
    UP check once more in [successfulChecks], so the successful checks never
    outnumber the checks; from a freshly created monitor the two counters
    are the number of samples and the number of UP samples. *)
Theorem checks_are_counted (m : string) (samples : list (Z * CheckResult))
    (s : State) :
  let before := currentStatus s m in
  let after := currentStatus (feed m samples s) m in
  totalChecks after = totalChecks before + Z.of_nat (length samples) /\
  successfulChecks after = successfulChecks before + upCount samples /\
  (0 <= successfulChecks before <= totalChecks before ->
   0 <= successfulChecks after <= totalChecks after) /\
  (forall now data,
     let created := createMonitor now data s in
     let last := currentStatus (feed (mon_id created.1) samples created.2)
                   (mon_id created.1) in
     totalChecks last = Z.of_nat (length samples) /\
     successfulChecks last = upCount samples).
Proof.
  cbv zeta. destruct (feed_checks m samples s) as [Ht Hs].
  split; [exact Ht|]. split; [exact Hs|]. split.
  - intros H. rewrite Ht, Hs.
    assert (0 <= upCount samples <= Z.of_nat (length samples)).
    { unfold upCount. pose proof (List.filter_length_le isUpSample samples). lia. }
    lia.
  - intros now data.
    destruct (feed_checks (mon_id (createMonitor now data s).1) samples
                (createMonitor now data s).2) as [Ht' Hs'].
    rewrite Ht', Hs', createMonitor_status. cbn [totalChecks successfulChecks
      initialStatus]. split; lia.
Qed.

Lemma checks_are_counted_witness :
  let after := currentStatus
                 (feed "uuid-0"
                    [sampleAt 1000 CHECK_UP; sampleAt 2000 CHECK_DOWN;
                     sampleAt 3000 CHECK_UP] (oneMonitor true)) "uuid-0" in
  0 <= successfulChecks after <= totalChecks after.
Proof.
  apply (checks_are_counted "uuid-0"
           [sampleAt 1000 CHECK_UP; sampleAt 2000 CHECK_DOWN;
            sampleAt 3000 CHECK_UP] (oneMonitor true)).
  vm_compute. split; discriminate.
Defined.

Lemma take_cons_take {A} n (x : A) l :
  take (S n) (x :: take (S n) l) = take (S n) (x :: l).
Proof.
  cbn [take]. f_equal. rewrite take_take. f_equal. lia.
Qed.

Lemma feed_history m samples s :
  history (currentStatus (feed m samples s) m)
  = match samples with
    | [] => history (currentStatus s m)
    | _ => take 100 (rev (map historyEntryOf samples)
                     ++ history (currentStatus s m))
    end.
Proof.
  induction samples as [|sample samples IH] using rev_ind; [reflexivity|].
  rewrite feed_snoc, updateStatus_current. unfold nextStatus at 1.
  cbn [history]. rewrite IH, map_app, rev_app_distr. cbn [map rev app].
  destruct samples as [|x xs]; [reflexivity|].
  destruct (x :: xs ++ [sample]) eqn:E; [destruct xs; discriminate|].
  apply (take_cons_take 99).
Qed.

(** Property X2.  The history of a status record holds the check results
    newest first, in front of what was there, cut to the 100 most recent
    entries. *)
Theorem history_is_recent_window (m : string)
    (samples : list (Z * CheckResult)) (sample : Z * CheckResult) (s : State) :
  let after := currentStatus (feed m (samples ++ [sample]) s) m in
  history after
  = take 100 (rev (map historyEntryOf (samples ++ [sample]))
              ++ history (currentStatus s m)) /\
  head (history after) = Some (historyEntryOf sample) /\
  (length (history after) <= 100)%nat /\
  length (history after)
  = Nat.min 100 (length samples + 1 + length (history (currentStatus s m))).
Proof.
  cbv zeta. rewrite feed_history.
  destruct (samples ++ [sample]) eqn:E; [destruct samples; discriminate|].
  rewrite <- E. clear E.
  split; [reflexivity|]. rewrite map_app, rev_app_distr. cbn [map rev app].
  split; [reflexivity|]. cbn [take length].
  rewrite length_take, length_app, length_rev, length_map. lia.
Qed.

(** ** Updates in place *)

Section UpdatesInPlace.
Context {A : Type} (p : A -> bool) (f : A -> A).

Lemma filter_update_first_other (q : A -> bool) l :
  (forall x, p x = true -> q x = false /\ q (f x) = false) ->
  List.filter q (update_first p f l) = List.filter q l.
Proof.
  intros H. induction l as [|x t IH]; [reflexivity|].
  cbn [update_first]. destruct (p x) eqn:E.
  - destruct (H x E) as [H1 H2]. cbn [List.filter]. now rewrite H1, H2.
  - cbn [List.filter]. now rewrite IH.
Qed.

Lemma filter_update_all_other (q : A -> bool) l :
  (forall x, p x = true -> q x = false /\ q (f x) = false) ->
  List.filter q (update_all p f l) = List.filter q l.
Proof.
  intros H. unfold update_all. induction l as [|x t IH]; [reflexivity|].
  cbn [map List.filter]. rewrite IH. destruct (p x) eqn:E; [|reflexivity].
  destruct (H x E) as [H1 H2]. now rewrite H1, H2.
Qed.

Lemma map_update_first {B} (g : A -> B) l :
  (forall x, g (f x) = g x) -> map g (update_first p f l) = map g l.
Proof.
  intros H. induction l as [|x t IH]; [reflexivity|].
  cbn [update_first]. destruct (p x); cbn [map]; [now rewrite H|now rewrite IH].
Qed.

Lemma map_update_all {B} (g : A -> B) l :
  (forall x, g (f x) = g x) -> map g (update_all p f l) = map g l.
Proof.
  intros H. unfold update_all. rewrite map_map. apply map_ext.
  intros x. destruct (p x); [apply H|reflexivity].
Qed.

Lemma In_update_first_keep l x :
  In x l -> p x = false -> In x (update_first p f l).
Proof.
  intros Hin Hp. induction l as [|y t IH]; [destruct Hin|].
  cbn [update_first]. destruct Hin as [->|Hin].
  - rewrite Hp. now left.
  - destruct (p y); right; [exact Hin|now apply IH].
Qed.

Lemma In_update_all_keep l x :
  In x l -> p x = false -> In x (update_all p f l).
Proof.
  intros Hin Hp. unfold update_all. apply in_map_iff. exists x.
  now rewrite Hp.
Qed.

End UpdatesInPlace.

Lemma eqb_other m m' : m' <> m -> String.eqb m m' = false.
Proof. intros H. apply String.eqb_neq. congruence. Qed.

(** ** One endpoint's checks and the records of the others *)

Lemma updateStatus_isolated now m r s m' :
  m' <> m ->
  let s' := (updateStatus now m r s).2 in
  statuses s' !! m' = statuses s !! m' /\
  incidentsOf s' m' = incidentsOf s m' /\
  alertsOf s' m' = alertsOf s m'.
Proof.
  intros Hne s'.
  destruct (updateStatus_frame now m r s) as [_ Hst]. fold s' in Hst.
  split. { rewrite Hst. apply lookup_insert_ne. congruence. }
  pose proof (updateStatus_policy now m r s) as Hpol. cbv zeta in Hpol.
  fold s' in Hpol. unfold incidentsOf, alertsOf.
  assert (Hopen : forall msg, opensIncident now m msg s s' ->
            List.filter (fun i => String.eqb (inc_monitorId i) m') (incidents s')
            = List.filter (fun i => String.eqb (inc_monitorId i) m') (incidents s) /\
            List.filter (fun a => String.eqb (al_monitorId a) m') (alerts s')
            = List.filter (fun a => String.eqb (al_monitorId a) m') (alerts s)).
  { intros msg (i & a & Hi & Him & _ & _ & _ & Ha & Ham & _).
    rewrite Hi, Ha. cbn [List.filter]. rewrite Him, Ham.
    now rewrite (eqb_other m m' Hne). }
  assert (Hsame : untouched s s' ->
            List.filter (fun i => String.eqb (inc_monitorId i) m') (incidents s')
            = List.filter (fun i => String.eqb (inc_monitorId i) m') (incidents s) /\
            List.filter (fun a => String.eqb (al_monitorId a) m') (alerts s')
            = List.filter (fun a => String.eqb (al_monitorId a) m') (alerts s)).
  { intros [Hi Ha]. now rewrite Hi, Ha. }
  assert (Hres :
            incidents s' = update_first (ongoing_incident_of m)
                             (mark_incident_resolved now) (incidents s) /\
            alerts s' = update_all (active_alert_of m) (mark_resolved now) (alerts s) ->
            List.filter (fun i => String.eqb (inc_monitorId i) m') (incidents s')
            = List.filter (fun i => String.eqb (inc_monitorId i) m') (incidents s) /\
            List.filter (fun a => String.eqb (al_monitorId a) m') (alerts s')
            = List.filter (fun a => String.eqb (al_monitorId a) m') (alerts s)).
  { intros [Hi Ha]. rewrite Hi, Ha. split.
    - apply filter_update_first_other. intros x Hx.
      unfold ongoing_incident_of in Hx. apply andb_true_iff in Hx as [Hx _].
      apply String.eqb_eq in Hx. cbn [mark_incident_resolved inc_monitorId].
      rewrite Hx. now rewrite (eqb_other m m' Hne).
    - apply filter_update_all_other. intros x Hx.
      unfold active_alert_of in Hx. apply andb_true_iff in Hx as [Hx _].
      apply String.eqb_eq in Hx. cbn [mark_resolved al_monitorId].
      rewrite Hx. now rewrite (eqb_other m m' Hne). }
  destruct (status (currentStatus s m)), (cr_status r);
    repeat case_match; eauto.
Qed.

(** Property X3.  The check results of one endpoint never touch another
    endpoint: its status record, its incidents and its alerts are after any
    number of updates what they were before. *)
Theorem checks_leave_other_endpoints_alone (m m' : string)
    (samples : list (Z * CheckResult)) (s : State) :
  m' <> m ->
  let s' := feed m samples s in
  getStatus s' m' = getStatus s m' /\
  incidentsOf s' m' = incidentsOf s m' /\
  alertsOf s' m' = alertsOf s m' /\
  ongoingIncidents s' m' = ongoingIncidents s m' /\
  activeAlerts s' m' = activeAlerts s m'.
Proof.
  intros Hne s'.
  assert (H : getStatus s' m' = getStatus s m' /\
              incidentsOf s' m' = incidentsOf s m' /\
              alertsOf s' m' = alertsOf s m').
  { subst s'. induction samples as [|sample samples IH] using rev_ind.
    - repeat split.
    - rewrite feed_snoc.
      destruct (updateStatus_isolated sample.1 m sample.2 (feed m samples s) m' Hne)
        as (H1 & H2 & H3).
      destruct IH as (I1 & I2 & I3). unfold getStatus in *.
      rewrite H1, H2, H3. exact (conj I1 (conj I2 I3)). }
  destruct H as (H1 & H2 & H3). repeat split; try assumption.
  - unfold ongoingIncidents, ongoing_incident_of.
    transitivity (List.filter incident_is_ongoing (incidentsOf s' m')).
    + unfold incidentsOf. induction (incidents s') as [|x t IH]; [reflexivity|].
      cbn [List.filter]. destruct (String.eqb _ _); cbn [andb List.filter];
        rewrite IH; reflexivity.
    + rewrite H2. unfold incidentsOf.
      induction (incidents s) as [|x t IH]; [reflexivity|].
      cbn [List.filter]. destruct (String.eqb _ _); cbn [andb List.filter];
        rewrite IH; reflexivity.
  - unfold activeAlerts, active_alert_of.
    transitivity (List.filter alert_is_active (alertsOf s' m')).
    + unfold alertsOf. induction (alerts s') as [|x t IH]; [reflexivity|].
      cbn [List.filter]. destruct (String.eqb _ _); cbn [andb List.filter];
        rewrite IH; reflexivity.
    + rewrite H3. unfold alertsOf.
      induction (alerts s) as [|x t IH]; [reflexivity|].
      cbn [List.filter]. destruct (String.eqb _ _); cbn [andb List.filter];
        rewrite IH; reflexivity.
Qed.

Lemma checks_leave_other_endpoints_alone_witness :
  let s := (createMonitor 5 exampleMonitor (oneMonitor true)).2 in
  let s' := feed "uuid-0" [sampleAt 1000 CHECK_UP; sampleAt 2000 CHECK_DOWN] s in
  getStatus s' "uuid-3" = getStatus s "uuid-3" /\
  incidentsOf s' "uuid-3" = incidentsOf s "uuid-3" /\
  alertsOf s' "uuid-3" = alertsOf s "uuid-3" /\
  ongoingIncidents s' "uuid-3" = ongoingIncidents s "uuid-3" /\
  activeAlerts s' "uuid-3" = activeAlerts s "uuid-3".
Proof.
  apply (checks_leave_other_endpoints_alone "uuid-0" "uuid-3"
           [sampleAt 1000 CHECK_UP; sampleAt 2000 CHECK_DOWN]
           (createMonitor 5 exampleMonitor (oneMonitor true)).2).
  discriminate.
Defined.

(** ** Incidents and alerts are kept *)

Lemma updateStatus_append_only now m r s :
  let s' := (updateStatus now m r s).2 in
  suffix (map incidentIdentity (incidents s)) (map incidentIdentity (incidents s')) /\
  suffix (map alertIdentity (alerts s)) (map alertIdentity (alerts s')) /\
  (forall i, In i (incidents s) -> inc_status i = resolved -> In i (incidents s')) /\
  (forall a, In a (alerts s) -> al_status a <> active -> In a (alerts s')) /\
  (length (incidents s') + length (alerts s)
   = length (alerts s') + length (incidents s))%nat.
Proof.
  intros s'.
  pose proof (updateStatus_policy now m r s) as Hpol. cbv zeta in Hpol.
  fold s' in Hpol.
  assert (Hopen : forall msg, opensIncident now m msg s s' ->
    suffix (map incidentIdentity (incidents s)) (map incidentIdentity (incidents s')) /\
    suffix (map alertIdentity (alerts s)) (map alertIdentity (alerts s')) /\
    (forall i, In i (incidents s) -> inc_status i = resolved -> In i (incidents s')) /\
    (forall a, In a (alerts s) -> al_status a <> active -> In a (alerts s')) /\
    (length (incidents s') + length (alerts s)
     = length (alerts s') + length (incidents s))%nat).
  { intros msg (i & a & Hi & _ & _ & _ & _ & Ha & _).
    rewrite Hi, Ha. cbn [map length].
    split; [apply suffix_cons_r; reflexivity|].
    split; [apply suffix_cons_r; reflexivity|].
    split; [intros; now right|]. split; [intros; now right|lia]. }
  assert (Hsame : untouched s s' ->
    suffix (map incidentIdentity (incidents s)) (map incidentIdentity (incidents s')) /\
    suffix (map alertIdentity (alerts s)) (map alertIdentity (alerts s')) /\
    (forall i, In i (incidents s) -> inc_status i = resolved -> In i (incidents s')) /\
    (forall a, In a (alerts s) -> al_status a <> active -> In a (alerts s')) /\
    (length (incidents s') + length (alerts s)
     = length (alerts s') + length (incidents s))%nat).
  { intros [Hi Ha]. rewrite Hi, Ha. repeat split; auto; lia. }
  assert (Hres :
    incidents s' = update_first (ongoing_incident_of m)
                     (mark_incident_resolved now) (incidents s) /\
    alerts s' = update_all (active_alert_of m) (mark_resolved now) (alerts s) ->
    suffix (map incidentIdentity (incidents s)) (map incidentIdentity (incidents s')) /\
    suffix (map alertIdentity (alerts s)) (map alertIdentity (alerts s')) /\
    (forall i, In i (incidents s) -> inc_status i = resolved -> In i (incidents s')) /\
    (forall a, In a (alerts s) -> al_status a <> active -> In a (alerts s')) /\
    (length (incidents s') + length (alerts s)
     = length (alerts s') + length (incidents s))%nat).
  { intros [Hi Ha]. rewrite Hi, Ha.
    rewrite (map_update_first _ _ incidentIdentity), (map_update_all _ _ alertIdentity)
      by reflexivity.
    split; [reflexivity|]. split; [reflexivity|]. split; [|split].
    - intros i Hin Hr. apply In_update_first_keep; [exact Hin|].
      unfold ongoing_incident_of, incident_is_ongoing. rewrite Hr.
      apply andb_false_r.
    - intros a Hin Hna. apply In_update_all_keep; [exact Hin|].
      unfold active_alert_of, alert_is_active.
      destruct (al_status a); [congruence|apply andb_false_r..].
    - rewrite <- (length_map (fun _ => tt) (update_first _ _ _)),
        <- (length_map (fun _ => tt) (update_all _ _ _)).
      rewrite map_update_first, map_update_all by reflexivity.
      rewrite !length_map. lia. }
  destruct (status (currentStatus s m)), (cr_status r);
    repeat case_match; eauto.
Qed.

(** Property X4.  The state machine keeps its records: checks only put new
    incidents and alerts in front of the existing ones, whose identity never
    changes; an incident that is resolved and an alert that is acknowledged
    or resolved stay exactly as they are; and as many alerts are raised as
    incidents are opened. *)
Theorem checks_keep_incidents_and_alerts (m : string)
    (samples : list (Z * CheckResult)) (s : State) :
  let s' := feed m samples s in
  suffix (map incidentIdentity (incidents s)) (map incidentIdentity (incidents s')) /\
  suffix (map alertIdentity (alerts s)) (map alertIdentity (alerts s')) /\
  (forall i, In i (incidents s) -> inc_status i = resolved -> In i (incidents s')) /\
  (forall a, In a (alerts s) -> al_status a <> active -> In a (alerts s')) /\
  (length (incidents s') + length (alerts s)
   = length (alerts s') + length (incidents s))%nat.
Proof.
  cbv zeta. induction samples as [|sample samples IH] using rev_ind.
  - unfold feed. cbn [fold_left].
    split; [reflexivity|]. split; [reflexivity|].
    split; [auto|]. split; [auto|lia].
  - rewrite feed_snoc.
    destruct (updateStatus_append_only sample.1 m sample.2 (feed m samples s))
      as (H1 & H2 & H3 & H4 & H5).
    destruct IH as (I1 & I2 & I3 & I4 & I5).
    split; [etransitivity; eassumption|].
    split; [etransitivity; eassumption|].
    split; [auto|]. split; [auto|lia].
Qed.

(** ** Handling an alert by hand *)

Lemma find_alert_by_id alertId l a :
  NoDup (map al_id l) -> In a l -> al_id a = alertId ->
  find (alert_has_id alertId) l = Some a.
Proof.
  intros Hnd Hin Hid. induction l as [|b t IH]; [destruct Hin|].
  cbn [map] in Hnd. apply NoDup_cons in Hnd as [Hb Hnd].
  cbn [find]. unfold alert_has_id at 1. destruct Hin as [->|Hin].
  - rewrite Hid, String.eqb_refl. reflexivity.
  - destruct (String.eqb (al_id b) alertId) eqn:E; [|now apply IH].
    apply String.eqb_eq in E. exfalso. apply Hb.
    rewrite E, <- Hid. apply list_elem_of_In, in_map, Hin.
Qed.

Lemma find_alert_unknown alertId l :
  ~ In alertId (map al_id l) -> find (alert_has_id alertId) l = None.
Proof.
  intros H. induction l as [|b t IH]; [reflexivity|].
  cbn [find]. unfold alert_has_id at 1.
  destruct (String.eqb (al_id b) alertId) eqn:E.
  - apply String.eqb_eq in E. exfalso. apply H. left. exact E.
  - apply IH. intros Hin. apply H. now right.
Qed.

Section HandledAlert.
Variables (mark : Alert -> Alert) (alertId : string).
Hypothesis mark_id : forall a, al_id (mark a) = al_id a.
Hypothesis mark_done : forall a, alert_is_active (mark a) = false.

Lemma handled_alert_not_active l :
  NoDup (map al_id l) ->
  ~ In alertId
      (map al_id (List.filter alert_is_active
                    (update_first (alert_has_id alertId) mark l))).
Proof.
  intros Hnd. induction l as [|b t IH]; [intros []|].
  cbn [map] in Hnd. apply NoDup_cons in Hnd as [Hb Hnd].
  cbn [update_first]. unfold alert_has_id at 1.
  destruct (String.eqb (al_id b) alertId) eqn:E.
  - apply String.eqb_eq in E. cbn [List.filter]. rewrite mark_done.
    intros Hin. apply Hb. rewrite E. apply list_elem_of_In.
    apply in_map_iff in Hin as (c & Hc & Hin). apply filter_In in Hin as [Hin _].
    apply in_map_iff. now exists c.
  - cbn [List.filter]. destruct (alert_is_active b); [|now apply IH].
    cbn [map]. intros [Hin|Hin]; [|now apply IH].
    apply String.eqb_neq in E. congruence.
Qed.

End HandledAlert.

(** Property X5.  Resolving or acknowledging an alert by hand marks the
    alert with that id and nothing else: the other alerts, every incident
    (also the one the alert was raised for) and every status record stay as
    they are, and the alert is no longer among the active ones.  An id that
    no alert carries changes nothing at all. *)
Theorem handling_an_alert_touches_that_alert_only (now : Z) (alertId : string)
    (s : State) (a : Alert) :
  NoDup (map al_id (alerts s)) ->
  In a (alerts s) ->
  al_id a = alertId ->
  let r := resolveAlert now alertId s in
  let k := acknowledgeAlert now alertId s in
  (r.1 = Some (mark_resolved now a) /\ In (mark_resolved now a) (alerts r.2) /\
   k.1 = Some (mark_acknowledged now a) /\ In (mark_acknowledged now a) (alerts k.2)) /\
  (~ In alertId (map al_id (getActiveAlerts r.2)) /\
   ~ In alertId (map al_id (getActiveAlerts k.2))) /\
  (forall b, In b (alerts s) -> al_id b <> alertId ->
     In b (alerts r.2) /\ In b (alerts k.2)) /\
  (map alertIdentity (alerts r.2) = map alertIdentity (alerts s) /\
   map alertIdentity (alerts k.2) = map alertIdentity (alerts s)) /\
  (incidents r.2 = incidents s /\ statuses r.2 = statuses s /\
   incidents k.2 = incidents s /\ statuses k.2 = statuses s) /\
  (forall unknown, ~ In unknown (map al_id (alerts s)) ->
     resolveAlert now unknown s = (None, s) /\
     acknowledgeAlert now unknown s = (None, s)).
Proof.
  intros Hnd Hin Hid r k.
  pose proof (find_alert_by_id alertId (alerts s) a Hnd Hin Hid) as Hfind.
  assert (Hr : r.1 = Some (mark_resolved now a) /\
               alerts r.2 = update_first (alert_has_id alertId) (mark_resolved now)
                              (alerts s) /\
               incidents r.2 = incidents s /\ statuses r.2 = statuses s).
  { subst r. unfold resolveAlert. rewrite Hfind.
    cbn [fst snd].
    match goal with |- context [addActivity ?n ?x ?y ?z ?w ?st] =>
      destruct (addActivity_frame n st x y z w) as (_ & H2 & _ & _ & H5 & H6 & _)
    end.
    cbv zeta in H2, H5, H6. rewrite H2, H5, H6. now cbn. }
  assert (Hk : k.1 = Some (mark_acknowledged now a) /\
               alerts k.2 = update_first (alert_has_id alertId) (mark_acknowledged now)
                              (alerts s) /\
               incidents k.2 = incidents s /\ statuses k.2 = statuses s).
  { subst k. unfold acknowledgeAlert. rewrite Hfind.
    cbn [fst snd].
    match goal with |- context [addActivity ?n ?x ?y ?z ?w ?st] =>
      destruct (addActivity_frame n st x y z w) as (_ & H2 & _ & _ & H5 & H6 & _)
    end.
    cbv zeta in H2, H5, H6. rewrite H2, H5, H6. now cbn. }
  destruct Hr as (Hr1 & Hr2 & Hr3 & Hr4), Hk as (Hk1 & Hk2 & Hk3 & Hk4).
  unfold getActiveAlerts. rewrite Hr2, Hk2.
  split; [|split; [|split; [|split; [|split]]]].
  - repeat split; try assumption.
    + now apply find_update_first.
    + now apply find_update_first.
  - split; apply handled_alert_not_active; auto.
  - intros b Hb Hne.
    split; apply In_update_first_keep; try assumption;
      unfold alert_has_id; now apply String.eqb_neq.
  - split; apply map_update_first; reflexivity.
  - auto.
  - intros unknown Hun. unfold resolveAlert, acknowledgeAlert.
    now rewrite (find_alert_unknown unknown (alerts s) Hun).
Qed.

Lemma handling_an_alert_touches_that_alert_only_witness :
  (resolveAlert 70000 "a1" oneAlert).1 = Some (mark_resolved 70000 exampleAlert) /\
  incidents (resolveAlert 70000 "a1" oneAlert).2 = incidents oneAlert.
Proof.
  destruct (handling_an_alert_touches_that_alert_only 70000 "a1" oneAlert
              exampleAlert)
    as ((Hr & _) & _ & _ & _ & (Hinc & _) & _).
  - apply (bool_decide_unpack _). vm_compute. reflexivity.
  - left. reflexivity.
  - reflexivity.
  - split; [exact Hr|exact Hinc].
Defined.

(** ** What a dispatch sends and what it leaves alone *)

Lemma smtpRequests_app l1 l2 :
  smtpRequests (l1 ++ l2) = smtpRequests l1 ++ smtpRequests l2.
Proof.
  induction l1 as [|o l1 IH]; [reflexivity|].
  destruct o; cbn [app smtpRequests]; now rewrite IH.
Qed.

Lemma sendSms_onlyLogs env now phone message s :
  onlyLogs s (sendSms env now phone message s).1.2.
Proof.
  unfold sendSms. repeat case_match; repeat split.
Qed.

Lemma sendSmsBatch_onlyLogs env now phones message s :
  onlyLogs s (sendSmsBatch env now phones message s).1.2.
Proof.
  unfold sendSmsBatch. destruct (negb _); [apply onlyLogs_refl|].
  destruct phones; [apply onlyLogs_refl|apply sendSms_onlyLogs].
Qed.

Lemma sendSms_no_mail env now phone message s :
  smtpRequests (sendSms env now phone message s).2 = [].
Proof. unfold sendSms. repeat case_match; reflexivity. Qed.

Lemma sendSmsBatch_no_mail env now phones message s :
  smtpRequests (sendSmsBatch env now phones message s).2 = [].
Proof.
  unfold sendSmsBatch. destruct (negb _); [reflexivity|].
  destruct phones; [reflexivity|apply sendSms_no_mail].
Qed.

Lemma speak_no_mail env text s : smtpRequests (speak env text s).2 = [].
Proof. unfold speak. repeat case_match; reflexivity. Qed.

Lemma emailConfigured_onlyLogs s s' :
  onlyLogs s s' -> emailConfigured s' = emailConfigured s.
Proof.
  intros ((_ & _ & _ & Hs & _) & _). unfold emailConfigured. now rewrite Hs.
Qed.

Lemma sendEmail_requests env now recipient subject s :
  smtpRequests (sendEmail env now recipient subject s).2
  = if emailConfigured s then [recipient] else [].
Proof.
  unfold sendEmail, emailConfigured.
  destruct (emailEnabled (settings s)); [|reflexivity]. cbn [negb andb].
  destruct (String.eqb (smtpHost (settings s)) ""); [reflexivity|].
  destruct (String.eqb (smtpUser (settings s)) ""); [reflexivity|].
  cbn [orb negb andb]. destruct (transporter_sendMail _ _ _); reflexivity.
Qed.

Lemma sendEmails_requests env now subject recipients s :
  smtpRequests (sendEmails env now subject recipients s).2
  = if emailConfigured s
    then map (fun c => js_str (ct_email c)) recipients
    else [].
Proof.
  revert s. induction recipients as [|c rest IH]; intros s.
  - cbn. now destruct (emailConfigured s).
  - cbn [sendEmails map].
    pose proof (sendEmail_onlyLogs env now (js_str (ct_email c)) subject s) as H1.
    pose proof (sendEmail_requests env now (js_str (ct_email c)) subject s) as H2.
    destruct (sendEmail env now (js_str (ct_email c)) subject s) as [[res s1] out1].
    cbn [fst snd] in H1, H2. specialize (IH s1).
    rewrite (emailConfigured_onlyLogs _ _ H1) in IH.
    destruct (sendEmails env now subject rest s1) as [s2 out2].
    cbn [snd] in *. rewrite smtpRequests_app, H2, IH.
    now destruct (emailConfigured s).
Qed.

Lemma sendAlertNotification_onlyLogs env now alert monitor s :
  onlyLogs s (sendAlertNotification env now alert monitor s).1.2.
Proof.
  unfold sendAlertNotification.
  set (subject := _ +:+ _ +:+ _ +:+ _ +:+ _ +:+ al_type alert).
  set (smsText := _ +:+ _ +:+ _ +:+ _ +:+ _ +:+ al_message alert).
  set (phones := map js_str _).
  assert (Hmail : forall b : bool,
            onlyLogs s (if b then sendEmails env now subject
                                    (emailRecipients (getRecipientsForAlert s)) s
                        else (s, [])).1).
  { intros []; [apply sendEmails_onlyLogs|apply onlyLogs_refl]. }
  specialize (Hmail (emailEnabled (settings s) &&
                     negb (Nat.eqb (length (emailRecipients (getRecipientsForAlert s))) 0))).
  destruct (if emailEnabled (settings s) && _ then _ else _) as [s1 outMail].
  cbn [fst] in Hmail.
  destruct (smsEnabled (settings s) && _); [|exact Hmail].
  destruct phones as [|p ps]; [exact Hmail|].
  pose proof (sendSmsBatch_onlyLogs env now (p :: ps) smsText s1) as Hsms.
  destruct (sendSmsBatch env now (p :: ps) smsText s1) as [[res s2] out].
  cbn [fst snd] in *. eapply onlyLogs_trans; eassumption.
Qed.

(** Property X6.  Dispatching an alert writes log and activity entries and
    nothing else: monitors, status records, incidents, alerts (the alert
    being announced included), contacts, groups and settings are after the
    dispatch what they were before, whatever the mail server and the SMS
    API answer. *)
Theorem dispatch_changes_only_logs (env : Env) (now : Z) (alert : Alert)
    (monitor : option Monitor) (s : State) :
  let s' := (sendAlertNotification env now alert monitor s).1.2 in
  monitors s' = monitors s /\ statuses s' = statuses s /\
  incidents s' = incidents s /\ alerts s' = alerts s /\
  contacts s' = contacts s /\ contactGroups s' = contactGroups s /\
  settings s' = settings s /\ networkStatus s' = networkStatus s /\
  getRecipientsForAlert s' = getRecipientsForAlert s.
Proof.
  cbv zeta.
  destruct (sendAlertNotification_onlyLogs env now alert monitor s)
    as ((H1 & H2 & H3 & H4 & H5) & H6 & H7 & H8).
  repeat split; try assumption.
  unfold getRecipientsForAlert. now rewrite H2, H3.
Qed.

(** Property X7.  An alert is mailed once to every e-mail recipient, in
    the order of the recipient list and also after a mail has failed, when
    e-mail is enabled and an SMTP host and user are set; otherwise no mail
    leaves the process.  The counts in the result are those of the
    recipients, not of the deliveries. *)
Theorem alert_is_mailed_once_to_each_recipient (env : Env) (now : Z)
    (alert : Alert) (monitor : option Monitor) (s : State) :
  let r := getRecipientsForAlert s in
  let result := sendAlertNotification env now alert monitor s in
  smtpRequests result.2
  = (if emailConfigured s
     then map (fun c => js_str (ct_email c)) (emailRecipients r)
     else []) /\
  emailsSent result.1.1 = length (emailRecipients r) /\
  smsSent result.1.1 = length (smsRecipients r).
Proof.
  cbv zeta. unfold sendAlertNotification.
  set (subject := _ +:+ _ +:+ _ +:+ _ +:+ _ +:+ al_type alert).
  set (smsText := _ +:+ _ +:+ _ +:+ _ +:+ _ +:+ al_message alert).
  set (phones := map js_str _).
  set (r := getRecipientsForAlert s).
  set (outTts := if soundEnabled (settings s) && ttsEnabled (settings s)
                 then _ else _).
  assert (Htts : smtpRequests outTts = []).
  { subst outTts. destruct (_ && _); [apply speak_no_mail|reflexivity]. }
  assert (Hmail : smtpRequests
            (if emailEnabled (settings s) &&
                negb (Nat.eqb (length (emailRecipients r)) 0)
             then sendEmails env now subject (emailRecipients r) s
             else (s, [])).2
          = if emailConfigured s
            then map (fun c => js_str (ct_email c)) (emailRecipients r)
            else []).
  { destruct (emailEnabled (settings s)) eqn:He; cbn [andb].
    - destruct (emailRecipients r) as [|c rest] eqn:Hr; cbn [length Nat.eqb negb].
      + cbn. now destruct (emailConfigured s).
      + apply sendEmails_requests.
    - unfold emailConfigured. rewrite He. reflexivity. }
  destruct (if emailEnabled (settings s) && _ then _ else _) as [s1 outMail].
  cbn [snd] in Hmail.
  assert (Hsms : forall b : bool,
            smtpRequests
              (if b
               then match phones with
                    | [] => (s1, [])
                    | _ :: _ =>
                        let '(_, s2, out) := sendSmsBatch env now phones smsText s1 in
                        (s2, out)
                    end
               else (s1, [])).2 = []).
  { intros []; [|reflexivity]. destruct phones as [|p ps]; [reflexivity|].
    pose proof (sendSmsBatch_no_mail env now (p :: ps) smsText s1) as H.
    now destruct (sendSmsBatch env now (p :: ps) smsText s1) as [[res s2] out]. }
  specialize (Hsms (smsEnabled (settings s) &&
                    negb (Nat.eqb (length (smsRecipients r)) 0))).
  destruct (if smsEnabled (settings s) && _ then _ else _) as [s2 outSms].
  cbn [fst snd emailsSent smsSent] in *.
  rewrite !smtpRequests_app, Htts, Hmail, Hsms, app_nil_r.
  repeat split.
Qed.

(** ** What [runCheck] announces *)


Lemma alertNotifications_requests out : alertNotifications (map Request out) = [].
Proof. induction out as [|o out IH]; [reflexivity|exact IH]. Qed.

Lemma requests_app l1 l2 : requests (l1 ++ l2) = requests l1 ++ requests l2.
Proof.
  induction l1 as [|e l1 IH]; [reflexivity|].
  destruct e; cbn [app requests]; rewrite IH; reflexivity.
Qed.

Lemma requests_map out : requests (map Request out) = out.
Proof.
  induction out as [|o out IH]; [reflexivity|].
  cbn [map requests]. rewrite IH. reflexivity.
Qed.

Lemma getStatus_current s m st : getStatus s m = Some st -> currentStatus s m = st.
Proof. unfold getStatus, currentStatus. intros ->. reflexivity. Qed.

Lemma status_eqb_refl v : status_eqb v v = true.
Proof. destruct v; reflexivity. Qed.

(** A check that sees the status it saw before only broadcasts. *)
Lemma runCheck_finish_unchanged env now m mon r srv st :
  getStatus (state srv) m = Some st ->
  status st = status_of (cr_status r) ->
  runCheck_finish env now m mon r srv
  = (set_state (updateStatus now m r (state srv)).2 srv,
     [Broadcast "statuses-update"; Broadcast "stats-update"]).
Proof.
  intros Hst Heq. unfold runCheck_finish. rewrite Hst, Heq, status_eqb_refl.
  reflexivity.
Qed.

Lemma find_none_filter {A} (p q : A -> bool) l :
  (forall x, q x = true -> p x = true) ->
  List.filter p l = [] -> find q l = None.
Proof.
  intros Hqp. induction l as [|x t IH]; [reflexivity|].
  cbn [List.filter find]. destruct (q x) eqn:Hq.
  - rewrite (Hqp x Hq). discriminate.
  - destruct (p x); [discriminate|exact IH].
Qed.


(** Property X8.  When a check finds an endpoint DOWN that was UP,
    [runCheck] announces exactly one alert: the alert of the incident this
    check has opened. *)
Theorem outage_is_announced_with_its_alert (env : Env) (now : Z) (m : string)
    (mon : Monitor) (r : CheckResult) (srv : Server) (st : Status) :
  getStatus (state srv) m = Some st ->
  status st = UP ->
  cr_status r = CHECK_DOWN ->
  let p := runCheck_finish env now m mon r srv in
  exists i a,
    incidents (state p.1) = i :: incidents (state srv) /\
    alerts (state p.1) = a :: alerts (state srv) /\
    inc_monitorId i = m /\ inc_status i = ongoing /\
    al_monitorId a = m /\ al_type a = "incident" /\ al_status a = active /\
    al_message a = cr_message r /\
    alertNotifications p.2 = [a] /\
    requests p.2
    = (sendAlertNotification env now a (Some mon)
         (updateStatus now m r (state srv)).2).2.
Proof.
  intros Hst Hup Hr p.
  pose proof (updateStatus_policy now m r (state srv)) as Hpol.
  cbv zeta in Hpol. rewrite (getStatus_current _ _ _ Hst), Hup, Hr in Hpol.
  destruct Hpol as (i & a & Hi & Him & Hio & _ & _ & Ha & Ham & Hat & Hmsg & _ & Hact & Hcr).
  exists i, a. subst p. unfold runCheck_finish. rewrite Hst, Hup, Hr.
  cbn [status_of status_eqb negb]. unfold getAllAlerts.
  rewrite Ha. cbn [find].
  assert (Hrecent : recent_active_alert_of now m a = true).
  { unfold recent_active_alert_of, active_alert_of, alert_is_active.
    rewrite Ham, Hact, Hcr, String.eqb_refl. cbn [andb].
    apply Z.ltb_lt. lia. }
  rewrite Hrecent.
  pose proof (sendAlertNotification_onlyLogs env now a (Some mon)
                (updateStatus now m (r) (state srv)).2) as Hlogs.
  destruct (sendAlertNotification env now a (Some mon)
              (updateStatus now m r (state srv)).2) as [[res s2] out].
  cbn [fst snd state set_state] in *.
  destruct Hlogs as (_ & _ & Hi2 & Ha2).
  rewrite Hi2, Ha2, Hi, Ha. repeat (split; [assumption || reflexivity|]).
  split.
  - cbn [app alertNotifications]. rewrite alertNotifications_requests.
    reflexivity.
  - cbn [app requests]. apply requests_map.
Qed.

Lemma outage_is_announced_with_its_alert_witness :
  length
    (alertNotifications
       (runCheck_finish exampleEnv 60100 "uuid-0" exampleMonitor
          (sampleAt 60100 CHECK_DOWN).2 (serverAfterUp true)).2) = 1%nat.
Proof.
  destruct (outage_is_announced_with_its_alert exampleEnv 60100 "uuid-0"
              exampleMonitor (sampleAt 60100 CHECK_DOWN).2 (serverAfterUp true)
              (currentStatus (state (serverAfterUp true)) "uuid-0"))
    as (i & a & _ & _ & _ & _ & _ & _ & _ & _ & Hn & _).
  - vm_compute. reflexivity.
  - vm_compute. reflexivity.
  - reflexivity.
  - rewrite Hn. reflexivity.
Defined.

(** Property X9.  When a check finds an endpoint UP that was DOWN, with
    auto-resolve on and an incident of the endpoint ongoing, the incident
    and every active alert of the endpoint are resolved by the state
    machine, and [runCheck] finds no alert left to announce: nothing is
    sent. *)
Theorem recovery_with_autoResolve_is_not_announced (env : Env) (now : Z)
    (m : string) (mon : Monitor) (r : CheckResult) (srv : Server) (st : Status)
    (i : Incident) :
  getStatus (state srv) m = Some st ->
  status st = DOWN ->
  cr_status r = CHECK_UP ->
  autoResolve (settings (state srv)) = true ->
  find (ongoing_incident_of m) (incidents (state srv)) = Some i ->
  let p := runCheck_finish env now m mon r srv in
  state p.1 = (updateStatus now m r (state srv)).2 /\
  In (mark_incident_resolved now i) (incidents (state p.1)) /\
  activeAlerts (state p.1) m = [] /\
  alertNotifications p.2 = [] /\
  requests p.2 = [].
Proof.
  intros Hst Hdown Hr Hauto Hfind p.
  destruct (recovery_with_autoResolve now m r (state srv) i)
    as (Hin & _ & _ & _ & _ & _ & _ & Hnone); try assumption.
  { rewrite (getStatus_current _ _ _ Hst). exact Hdown. }
  assert (Hp : p = (set_state (updateStatus now m r (state srv)).2 srv,
                    [Broadcast "statuses-update"; Broadcast "stats-update"] ++
                    [Broadcast "alerts-update"; Broadcast "incidents-update";
                     Broadcast "logs-update"; Broadcast "activity-update"])).
  { subst p. unfold runCheck_finish. rewrite Hst, Hdown, Hr.
    cbn [status_of status_eqb negb fmap option_fmap option_map status].
    rewrite Hdown. unfold getAllAlerts.
    rewrite (find_none_filter (active_alert_of m) (active_alert_of m));
      [reflexivity|auto|exact Hnone]. }
  rewrite Hp. cbn [fst snd state set_state].
  split; [reflexivity|]. split; [exact Hin|]. split; [exact Hnone|].
  split; reflexivity.
Qed.

Lemma recovery_with_autoResolve_is_not_announced_witness :
  (runCheck_finish exampleEnv 120100 "uuid-0" exampleMonitor
     (sampleAt 120100 CHECK_UP).2 (serverInOutage true)).2
  = [Broadcast "statuses-update"; Broadcast "stats-update";
     Broadcast "alerts-update"; Broadcast "incidents-update";
     Broadcast "logs-update"; Broadcast "activity-update"] /\
  requests
    (runCheck_finish exampleEnv 120100 "uuid-0" exampleMonitor
       (sampleAt 120100 CHECK_UP).2 (serverInOutage true)).2 = [].
Proof.
  assert (Hi : exists i, find (ongoing_incident_of "uuid-0")
                           (incidents (state (serverInOutage true))) = Some i).
  { vm_compute. eexists. reflexivity. }
  destruct Hi as [i Hi].
  destruct (recovery_with_autoResolve_is_not_announced exampleEnv 120100
              "uuid-0" exampleMonitor (sampleAt 120100 CHECK_UP).2
              (serverInOutage true)
              (currentStatus (state (serverInOutage true)) "uuid-0") i)
    as (_ & _ & _ & _ & Hreq).
  - vm_compute. reflexivity.
  - vm_compute. reflexivity.
  - reflexivity.
  - vm_compute. reflexivity.
  - exact Hi.
  - split; [vm_compute; reflexivity|exact Hreq].
Defined.

(** ** An endpoint that has never been UP *)







Section NeverUp.
Variables (env : Env) (m : string) (mon : Monitor) (srv : Server).
Hypothesis Hmon : getMonitor (state srv) m = Some mon.
Hypothesis Hidle : inFlight srv = [].
Hypothesis Hfresh : getStatus (state srv) m = Some initialStatus.
Hypothesis Hnone : ongoingIncidents (state srv) m = [].
Hypothesis Hquiet : activeAlerts (state srv) m = [].


End NeverUp.



(** ** The records of the self check *)

Lemma checkNetworkConnectivity_records env now reachable srv :
  let p := checkNetworkConnectivity env now reachable srv in
  if isConnected (networkStatus (state srv)) && negb reachable
  then exists i a1 a2,
         incidents (state p.1) = i :: incidents (state srv) /\
         alerts (state p.1) = a2 :: a1 :: alerts (state srv) /\
         ongoing_incident_of "NETWORK" i = true /\
         active_alert_of "NETWORK" a1 = true /\
         active_alert_of "NETWORK" a2 = true /\
         al_type a1 = "incident" /\ al_type a2 = "connectivity"
  else untouched (state srv) (state p.1).
Proof.
  cbv zeta. unfold checkNetworkConnectivity, getNetworkStatus, setNetworkStatus.
  destruct reachable, (isConnected (networkStatus (state srv)));
    cbn [negb Bool.eqb andb fst snd];
    try (repeat split; fail).
  - (* restored *)
    rewrite !mayNotify_state.
    destruct (mayNotify now connected srv); [|repeat split].
    match goal with
    | |- context [sendNetworkStatusNotification ?e ?n ?c ?s] =>
        pose proof (sendNetworkStatusNotification_onlyLogs e n c s)
          as (_ & _ & Hi & Ha);
        destruct (sendNetworkStatusNotification e n c s) as [s1 out]
    end.
    cbn [fst snd state set_state] in *. split; assumption.
  - (* lost *)
    rewrite !mayNotify_state.
    match goal with
    | |- context [createAlert ?n ?m ?t ?msg ?sev ?s0] =>
        pose proof (createAlert_spec n s0 m t msg sev) as Hal;
        match s0 with
        | context [createIncident ?n2 ?m2 ?msg2 ?s1] =>
            pose proof (createIncident_spec n2 s1 m2 msg2) as Hinc;
            assert (Hs1 : incidents s1 = incidents (state srv) /\
                          alerts s1 = alerts (state srv)) by (split; reflexivity);
            generalize dependent (createIncident n2 m2 msg2 s1)
        end
    end.
    intros [i s2] Hal Hinc. cbv zeta in Hal, Hinc. cbn [fst snd] in Hal, Hinc |- *.
    destruct Hs1 as [Hs1i Hs1a].
    destruct Hinc as (_ & _ & _ & _ & Hi & _ & _ & Him & Hio & _ & _ & _
                      & a1 & Ha1 & Ham1 & Hat1 & _ & _ & Has1 & _).
    generalize dependent (createAlert now "NETWORK" "connectivity"
                            "Internet connectivity lost" critical s2).
    intros [a2 s3] Hal. cbn [fst snd] in Hal.
    destruct Hal as (_ & _ & _ & _ & Hi3 & Ha3 & _ & _ & Ham2 & Hat2 & _ & _
                     & Has2 & _).
    assert (Hrec : incidents s3 = i :: incidents (state srv) /\
                   alerts s3 = a2 :: a1 :: alerts (state srv) /\
                   ongoing_incident_of "NETWORK" i = true /\
                   active_alert_of "NETWORK" a1 = true /\
                   active_alert_of "NETWORK" a2 = true /\
                   al_type a1 = "incident" /\ al_type a2 = "connectivity").
    { rewrite Hi3, Hi, Ha3, Ha1, Hs1i, Hs1a.
      unfold ongoing_incident_of, incident_is_ongoing, active_alert_of,
        alert_is_active.
      rewrite Him, Hio, Ham1, Ham2, Has1, Has2. repeat split; assumption. }
    clear - Hrec.
    destruct (mayNotify now disconnected srv).
    + match goal with
      | |- context [sendNetworkStatusNotification ?e ?n ?c ?s] =>
          pose proof (sendNetworkStatusNotification_onlyLogs e n c s)
            as (_ & _ & Hi & Ha);
          destruct (sendNetworkStatusNotification e n c s) as [s4 out]
      end.
      cbn [fst snd state set_state] in *. exists i, a1, a2.
      rewrite Hi, Ha. exact Hrec.
    + cbn [fst snd state set_state]. exists i, a1, a2. exact Hrec.
Qed.

(** Property X11.  The self check only ever adds to the incidents and
    alerts: each tick that observes the connection lost puts one ongoing
    NETWORK incident and two active NETWORK alerts in front of the existing
    ones, and no tick, a reconnection included, resolves or changes any of
    them. *)
Theorem network_incidents_are_never_resolved (env : Env)
    (ticks : list (Z * bool)) (srv : Server) :
  let p := runNetworkChecks env ticks srv in
  let n := lostTransitions (isConnected (networkStatus (state srv))) ticks in
  suffix (incidents (state srv)) (incidents (state p.1)) /\
  suffix (alerts (state srv)) (alerts (state p.1)) /\
  length (ongoingIncidents (state p.1) "NETWORK")
  = (length (ongoingIncidents (state srv) "NETWORK") + n)%nat /\
  length (activeAlerts (state p.1) "NETWORK")
  = (length (activeAlerts (state srv) "NETWORK") + 2 * n)%nat.
Proof.
  cbv zeta. revert srv. induction ticks as [|[now reachable] rest IH]; intros srv.
  - cbn [runNetworkChecks fst]. unfold lostTransitions.
    cbn [observedTransitions List.filter length].
    split; [reflexivity|]. split; [reflexivity|]. split; lia.
  - rewrite runNetworkChecks_cons. cbv zeta. cbn [fst].
    pose proof (checkNetworkConnectivity_records env now reachable srv) as Hrec.
    destruct (checkNetworkConnectivity_step env now reachable srv) as [Hconn _].
    cbv zeta in Hrec, Hconn.
    set (srv1 := (checkNetworkConnectivity env now reachable srv).1) in *.
    destruct (IH srv1) as (I1 & I2 & I3 & I4). rewrite Hconn in I3, I4.
    rewrite I3, I4. unfold lostTransitions. cbn [observedTransitions].
    unfold ongoingIncidents, activeAlerts in *.
    destruct (isConnected (networkStatus (state srv))), reachable;
      cbn [andb negb Bool.eqb List.filter snd length] in *.
    + destruct Hrec as [Hi Ha]. rewrite <- Hi, <- Ha.
      split; [exact I1|]. split; [exact I2|]. split; reflexivity.
    + destruct Hrec as (i & a1 & a2 & Hi & Ha & Hio & Ha1 & Ha2 & _).
      split; [etransitivity; [|exact I1]; rewrite Hi; apply suffix_cons_r; reflexivity|].
      split; [etransitivity; [|exact I2]; rewrite Ha;
              do 2 apply suffix_cons_r; reflexivity|].
      rewrite Hi, Ha. cbn [List.filter]. rewrite Hio, Ha1, Ha2.
      cbn [length]. split; lia.
    + destruct Hrec as [Hi Ha]. rewrite <- Hi, <- Ha.
      split; [exact I1|]. split; [exact I2|]. split; reflexivity.
    + destruct Hrec as [Hi Ha]. rewrite <- Hi, <- Ha.
      split; [exact I1|]. split; [exact I2|]. split; reflexivity.
Qed.

(** ** What the self check sends *)

Lemma sendNetworkStatusNotification_requests env now c s :
  let out := (sendNetworkStatusNotification env now c s).2 in
  smsApiRequests out = [] /\
  smtpRequests out
  = if emailConfigured s
    then map (fun contact => js_str (ct_email contact))
           (List.filter emailEligible (getContactsForAlert s))
    else [].
Proof.
  cbv zeta. unfold sendNetworkStatusNotification.
  set (subject := if c then "[INFO] Network Connectivity Restored" else _).
  set (text := if c then _ else _).
  set (outTts := if soundEnabled (settings s) && ttsEnabled (settings s)
                 then _ else _).
  assert (Htts : smsApiRequests outTts = [] /\ smtpRequests outTts = []).
  { subst outTts. destruct (_ && _); [|split; reflexivity].
    split; [apply speak_no_sms|apply speak_no_mail]. }
  destruct Htts as [Ht1 Ht2].
  destruct (emailEnabled (settings s)) eqn:He; cbn [andb].
  - destruct (getContactsForAlert s) as [|c0 cs] eqn:Hc; cbn [length Nat.eqb negb].
    + cbn [snd List.filter map]. rewrite app_nil_r.
      split; [exact Ht1|]. rewrite Ht2. destruct (emailConfigured s); reflexivity.
    + pose proof (sendEmails_no_sms env now subject
                    (List.filter emailEligible (c0 :: cs)) s) as H1.
      pose proof (sendEmails_requests env now subject
                    (List.filter emailEligible (c0 :: cs)) s) as H2.
      destruct (sendEmails env now subject _ s) as [s1 out].
      cbn [snd] in *. rewrite smsApiRequests_app, smtpRequests_app, Ht1, Ht2, H1, H2.
      split; reflexivity.
  - cbn [snd]. rewrite app_nil_r. split; [exact Ht1|].
    rewrite Ht2. unfold emailConfigured. rewrite He. reflexivity.
Qed.

Lemma checkNetworkConnectivity_requests env now reachable srv :
  smsApiRequests (requests (checkNetworkConnectivity env now reachable srv).2) = [].
Proof.
  unfold checkNetworkConnectivity, getNetworkStatus, setNetworkStatus.
  destruct reachable, (isConnected (networkStatus (state srv)));
    cbn [negb Bool.eqb andb fst snd]; try reflexivity.
  - rewrite !mayNotify_state.
    destruct (mayNotify now connected srv); [|reflexivity].
    match goal with
    | |- context [sendNetworkStatusNotification ?e ?n ?c ?s] =>
        destruct (sendNetworkStatusNotification_requests e n c s) as [H _];
        destruct (sendNetworkStatusNotification e n c s) as [s1 out]
    end.
    cbn [fst snd app requests] in *. rewrite requests_map. exact H.
  - rewrite !mayNotify_state.
    destruct (mayNotify now disconnected srv); [|reflexivity].
    match goal with
    | |- context [sendNetworkStatusNotification ?e ?n ?c ?s] =>
        destruct (sendNetworkStatusNotification_requests e n c s) as [H _];
        destruct (sendNetworkStatusNotification e n c s) as [s1 out]
    end.
    cbn [fst snd app requests] in *. rewrite requests_map. exact H.
Qed.

(** Property X12.  The self check never calls the SMS API, whatever the
    settings and the contacts are; a connectivity notification is mailed to
    the contacts that want notifications and have an address and the
    e-mail flag, contact groups playing no part. *)
Theorem network_notifications_send_no_sms (env : Env) (ticks : list (Z * bool))
    (srv : Server) :
  smsApiRequests (requests (runNetworkChecks env ticks srv).2) = [] /\
  (forall now isConnected s,
     let out := (sendNetworkStatusNotification env now isConnected s).2 in
     smsApiRequests out = [] /\
     smtpRequests out
     = if emailConfigured s
       then map (fun contact => js_str (ct_email contact))
              (List.filter emailEligible (getContactsForAlert s))
       else []).
Proof.
  split; [|intros; apply sendNetworkStatusNotification_requests].
  revert srv. induction ticks as [|[now reachable] rest IH]; intros srv.
  - reflexivity.
  - rewrite runNetworkChecks_cons. cbv zeta. cbn [snd].
    rewrite requests_app, smsApiRequests_app, checkNetworkConnectivity_requests.
    apply IH.
Qed.

(** ** Who is notified *)

Lemma jsmap_set_Forall {V} (P : string * V -> Prop) k v (m : jsmap V) :
  Forall P m -> P (k, v) -> Forall P (jsmap_set k v m).
Proof.
  intros Hm Hkv. induction m as [|[k' v'] t IH]; [repeat constructor; exact Hkv|].
  apply Forall_cons in Hm as [Hh Ht]. cbn [jsmap_set].
  destruct (String.eqb k k'); constructor; auto.
Qed.

Lemma jsmap_get_value {V} k (v : V) m :
  jsmap_get k m = Some v -> In v (jsmap_values m).
Proof.
  intros H. apply jsmap_get_In in H. unfold jsmap_values.
  apply in_map_iff. exists (k, v). split; [reflexivity|exact H].
Qed.

Lemma recipientMap_from_store s :
  Forall (fun entry => In entry.2 (jsmap_values (contacts s)) /\
                       wantsNotifications entry.2 = true)
    (expandGroups (contacts s) (jsmap_values (contactGroups s))
       (addDirectContacts (jsmap_values (contacts s)) [])).
Proof.
  set (P := fun entry : string * Contact =>
              In entry.2 (jsmap_values (contacts s)) /\
              wantsNotifications entry.2 = true).
  assert (Hdirect : forall cs m,
            (forall c, In c cs -> In c (jsmap_values (contacts s))) ->
            Forall P m -> Forall P (addDirectContacts cs m)).
  { unfold addDirectContacts. induction cs as [|c cs IH]; intros m Hcs Hm; [exact Hm|].
    cbn [fold_left]. apply IH; [intros c' Hc'; apply Hcs; now right|].
    destruct (wantsNotifications c) eqn:Hw; [|exact Hm].
    apply jsmap_set_Forall; [exact Hm|]. split; [apply Hcs; now left|exact Hw]. }
  assert (Hmembers : forall ids m,
            Forall P m -> Forall P (addGroupMembers (contacts s) ids m)).
  { unfold addGroupMembers. induction ids as [|id ids IH]; intros m Hm; [exact Hm|].
    cbn [fold_left]. apply IH.
    destruct (jsmap_get id (contacts s)) as [c|] eqn:Hg; [|exact Hm].
    destruct (wantsNotifications c) eqn:Hw; [|exact Hm].
    apply jsmap_set_Forall; [exact Hm|].
    split; [exact (jsmap_get_value _ _ _ Hg)|exact Hw]. }
  assert (Hgroups : forall gs m,
            Forall P m -> Forall P (expandGroups (contacts s) gs m)).
  { unfold expandGroups. induction gs as [|g gs IH]; intros m Hm; [exact Hm|].
    cbn [fold_left]. apply IH. destruct (cg_contactIds g); auto. }
  apply Hgroups, Hdirect; [auto|constructor].
Qed.

(** Property X13.  Whoever is notified is a contact of the store that
    wants notifications, however the contact groups look: an e-mail
    recipient has an address and the e-mail flag, an SMS recipient a phone
    number and the SMS flag, and an id that a group lists but no contact
    carries adds nobody. *)
Theorem recipients_are_stored_contacts (s : State) :
  let r := getRecipientsForAlert s in
  (forall c, In c (allRecipients r) ->
     In c (jsmap_values (contacts s)) /\ wantsNotifications c = true) /\
  (forall c, In c (emailRecipients r) ->
     In c (allRecipients r) /\ truthy (ct_email c) = true /\
     ct_notifyEmail c = true) /\
  (forall c, In c (smsRecipients r) ->
     In c (allRecipients r) /\ truthy (ct_phone c) = true /\
     ct_notifySms c = true) /\
  (contacts s = [] -> allRecipients r = []).
Proof.
  cbv zeta. pose proof (recipientMap_from_store s) as Hall.
  unfold getRecipientsForAlert. cbn [allRecipients emailRecipients smsRecipients].
  set (recipientMap := expandGroups _ _ _) in *.
  split; [|split; [|split]].
  - intros c Hc. unfold jsmap_values in Hc at 1.
    apply in_map_iff in Hc as (entry & <- & Hin).
    rewrite Forall_forall in Hall. apply Hall. apply list_elem_of_In. exact Hin.
  - intros c Hc. apply filter_In in Hc as [Hin He].
    unfold emailEligible in He. apply andb_true_iff in He as [He1 He2].
    auto.
  - intros c Hc. apply filter_In in Hc as [Hin He].
    unfold smsEligible in He. apply andb_true_iff in He as [He1 He2].
    auto.
  - intros Hempty. destruct (jsmap_values recipientMap) as [|c rest] eqn:Hv;
      [reflexivity|].
    assert (Hin : In c (jsmap_values recipientMap)) by (rewrite Hv; now left).
    unfold jsmap_values in Hin at 1.
    apply in_map_iff in Hin as (entry & <- & Hin).
    rewrite Forall_forall in Hall. apply list_elem_of_In, Hall in Hin.
    destruct Hin as [Hin _]. rewrite Hempty in Hin. destruct Hin.
Qed.

(** Property X14.  In a store that keeps every contact under its own id,
    contact groups make no difference to who is notified: the recipients
    are the contacts that want notifications, in the order of the store,
    and two states with the same contacts have the same recipients whatever
    their groups are. *)
Theorem groups_do_not_change_recipients (s s2 : State) :
  wellFormedContacts (contacts s) ->
  contacts s2 = contacts s ->
  allRecipients (getRecipientsForAlert s) = getContactsForAlert s /\
  getRecipientsForAlert s2 = getRecipientsForAlert s.
Proof.
  intros Hwf Heq.
  pose proof (allRecipients_direct s Hwf) as E1.
  assert (Hwf2 : wellFormedContacts (contacts s2)) by (rewrite Heq; exact Hwf).
  pose proof (allRecipients_direct s2 Hwf2) as E2.
  split; [exact E1|].
  unfold getRecipientsForAlert in *. cbn [allRecipients] in E1, E2.
  rewrite E1, E2, Heq. reflexivity.
Qed.

Lemma groups_do_not_change_recipients_witness :
  getRecipientsForAlert threeSmsContactsUngrouped
  = getRecipientsForAlert threeSmsContacts.
Proof.
  apply (groups_do_not_change_recipients threeSmsContacts
           threeSmsContactsUngrouped).
  - split; [apply (bool_decide_unpack _); vm_compute; reflexivity
           |repeat constructor].
  - reflexivity.
Defined.

Lemma jsmap_get_None {V} k (m : jsmap V) :
  jsmap_get k m = None -> ~ In k (jsmap_keys m).
Proof.
  induction m as [|[k' v'] t IH]; intros H; [intros []|].
  cbn [jsmap_get] in H. destruct (String.eqb k k') eqn:E; [discriminate|].
  intros [Hk|Hk]; [|exact (IH H Hk)].
  cbn [fst] in Hk. subst k'. rewrite String.eqb_refl in E. discriminate.
Qed.

Lemma jsmap_delete_gone {V} k (m : jsmap V) :
  NoDup (jsmap_keys m) -> ~ In k (jsmap_keys (jsmap_delete k m)).
Proof.
  unfold jsmap_keys. induction m as [|[k' v'] t IH]; intros Hnd; [intros []|].
  cbn [map fst] in Hnd. apply NoDup_cons in Hnd as [Hk' Hnd].
  cbn [jsmap_delete]. destruct (String.eqb k k') eqn:E.
  - apply String.eqb_eq in E. subst k'. intros Hin. apply Hk'.
    apply list_elem_of_In. exact Hin.
  - cbn [map fst]. intros [Hk|Hk]; [|exact (IH Hnd Hk)].
    subst k'. rewrite String.eqb_refl in E. discriminate.
Qed.

(** Property X15.  Deleting a contact leaves the contact groups as they
    are, so a group can go on listing the id; all the same nobody with that
    id is notified any more, and everybody else is notified as before. *)
Theorem deleted_contact_is_not_notified (now : Z) (id : string) (s : State) :
  wellFormedContacts (contacts s) ->
  let s' := (deleteContact now id s).2 in
  contactGroups s' = contactGroups s /\
  ~ In id (map ct_id (allRecipients (getRecipientsForAlert s'))) /\
  (forall c, In c (allRecipients (getRecipientsForAlert s)) -> ct_id c <> id ->
     In c (allRecipients (getRecipientsForAlert s'))).
Proof.
  intros Hwf s'.
  assert (Hs' : contactGroups s' = contactGroups s /\
                contacts s' = jsmap_delete id (contacts s)).
  { subst s'. unfold deleteContact.
    destruct (jsmap_get id (contacts s)) eqn:Hg.
    - split; reflexivity.
    - split; [reflexivity|]. cbn [snd].
      apply jsmap_get_None in Hg. clear -Hg.
      induction (contacts s) as [|[k v] t IH]; [reflexivity|].
      cbn [jsmap_delete]. destruct (String.eqb id k) eqn:E.
      + apply String.eqb_eq in E. subst k. exfalso. apply Hg. now left.
      + f_equal. apply IH. intros H. apply Hg. now right. }
  destruct Hs' as [Hg Hc]. split; [exact Hg|].
  assert (Hwf' : wellFormedContacts (contacts s')).
  { rewrite Hc. apply jsmap_delete_wellFormed. exact Hwf. }
  rewrite (allRecipients_direct s' Hwf'), (allRecipients_direct s Hwf), Hc.
  split.
  - intros Hin. apply in_map_iff in Hin as (c & Hid & Hin).
    apply filter_In in Hin as [Hin _].
    apply (jsmap_delete_gone id (contacts s)); [apply Hwf|].
    rewrite <- (keyedById_ids (jsmap_delete id (contacts s)));
      [|rewrite <- Hc; apply Hwf'].
    apply in_map_iff. exists c. split; assumption.
  - intros c Hin Hne. apply filter_In in Hin as [Hin Hw].
    apply filter_In. split; [|exact Hw].
    destruct Hwf as [_ Hk]. clear -Hin Hne Hk.
    unfold jsmap_values, keyedById in *.
    induction (contacts s) as [|[k v] t IH]; [destruct Hin|].
    apply Forall_cons in Hk as [Hkv Hk]. cbn [fst snd] in Hkv.
    cbn [jsmap_delete map snd] in *. destruct Hin as [Hv|Hin].
    + subst v. destruct (String.eqb id k) eqn:E.
      * apply String.eqb_eq in E. congruence.
      * now left.
    + destruct (String.eqb id k); [exact Hin|right; auto].
Qed.

Lemma deleted_contact_is_not_notified_witness :
  ~ In "c2"
      (map ct_id
         (allRecipients
            (getRecipientsForAlert (deleteContact 5 "c2" threeSmsContacts).2))) /\
  In "c2" (default [] (cg_contactIds
                         (default {| cg_id := ""; cg_name := "";
                                     cg_contactIds := None |}
                            (jsmap_get "g1"
                               (contactGroups
                                  (deleteContact 5 "c2" threeSmsContacts).2))))).
Proof.
  destruct (deleted_contact_is_not_notified 5 "c2" threeSmsContacts)
    as (_ & Hgone & _).
  - split; [apply (bool_decide_unpack _); vm_compute; reflexivity
           |repeat constructor].
  - split; [exact Hgone|]. vm_compute. left. reflexivity.
Defined.

(** ** Validation and dispatch of a monitor *)

Lemma toLowerCase_empty s : toLowerCase s = "" -> s = "".
Proof. destruct s; [reflexivity|discriminate]. Qed.

Lemma pushIf_nil missing e errors :
  pushIf missing e errors = [] <-> missing = false /\ errors = [].
Proof.
  unfold pushIf. destruct missing.
  - split; [intros H; destruct errors; discriminate|intros [H _]; discriminate].
  - split; [auto|intros [_ H]; exact H].
Qed.

Lemma pushIf_length missing e errors :
  (length (pushIf missing e errors) <= S (length errors))%nat /\
  (length errors <= length (pushIf missing e errors))%nat.
Proof.
  unfold pushIf. destruct missing; [rewrite length_app; cbn [length]|]; lia.
Qed.

Lemma length_zero_iff_nil {A} (l : list A) : Nat.eqb (length l) 0 = true <-> l = [].
Proof. destruct l; cbn; split; congruence. Qed.

Lemma unknown_type t :
  ~ In t knownTypes ->
  String.eqb t "http" = false /\ String.eqb t "https" = false /\
  String.eqb t "icmp" = false /\ String.eqb t "ping" = false /\
  String.eqb t "tcp" = false /\ String.eqb t "ssh" = false /\
  String.eqb t "telnet" = false /\ String.eqb t "sftp" = false.
Proof.
  intros H. repeat split; apply String.eqb_neq; intros ->; apply H;
    unfold knownTypes; cbn [In]; tauto.
Qed.

Lemma known_or_unknown t : In t knownTypes \/ ~ In t knownTypes.
Proof.
  destruct (in_dec String.string_dec t knownTypes); [left|right]; assumption.
Qed.

(** The verdict on a configuration whose type is a string. *)
Lemma validate_string_type name s url host port user pass key :
  let config := {| cfg_name := name; cfg_type := JsString s; cfg_url := url;
                   cfg_host := host; cfg_port := port; cfg_username := user;
                   cfg_password := pass; cfg_privateKey := key |} in
  exists v,
    validateMonitorConfig config = Some v /\
    (valid v = true <-> errors v = []) /\
    (length (errors v) <= 4)%nat /\
    (valid v = true <->
       isTruthy name = true /\
       requiredFieldsPresent (toLowerCase s) config = Some true).
Proof.
  intros config. eexists. split; [reflexivity|].
  unfold requiredFieldsPresent, config.
  cbn [valid errors lowerType isCase cfg_type cfg_name cfg_url cfg_host
       cfg_port cfg_username cfg_password cfg_privateKey isTruthy existsb].
  split; [apply length_zero_iff_nil|].
  rewrite length_zero_iff_nil.
  destruct s as [|c rest].
  - cbn. unfold pushIf. destruct (isTruthy name); cbn; split; [lia| |lia|];
      (split; [discriminate|intros [_ H]; discriminate]).
  - change (String.eqb (String c rest) "") with false. cbn [negb].
    generalize (toLowerCase (String c rest)). intros t.
    destruct (known_or_unknown t) as [Hin|Hout].
    + unfold knownTypes in Hin. cbn [In] in Hin.
      repeat (destruct Hin as [<-|Hin]); try (destruct Hin);
        cbn [String.eqb Ascii.eqb Bool.eqb orb andb];
        unfold pushIf;
        repeat match goal with
               | |- context [isTruthy ?v] => destruct (isTruthy v)
               end;
        cbn [negb andb orb app length];
        (split; [lia|]);
        (split; [try discriminate; intros _; split; reflexivity
                |try (intros [? ?]; discriminate); reflexivity]).
    + destruct (unknown_type t Hout) as (E1 & E2 & E3 & E4 & E5 & E6 & E7 & E8).
      rewrite E1, E2, E3, E4, E5, E6, E7, E8. cbn [orb].
      unfold pushIf. destruct (isTruthy name); cbn [negb app length];
        (split; [lia|]);
        (split; [intros H; destruct t; discriminate
                |intros [_ H]; discriminate]).
Qed.

Lemma validate_string config s :
  cfg_type config = JsString s ->
  exists v,
    validateMonitorConfig config = Some v /\
    (valid v = true <-> errors v = []) /\
    (length (errors v) <= 4)%nat /\
    (valid v = true <->
       isTruthy (cfg_name config) = true /\
       requiredFieldsPresent (toLowerCase s) config = Some true).
Proof.
  destruct config as [name type url host port user pass key].
  cbn [cfg_type cfg_name]. intros ->. apply validate_string_type.
Qed.

Lemma requiredFieldsPresent_known t config b :
  requiredFieldsPresent t config = Some b -> In t knownTypes.
Proof.
  intros H. destruct (known_or_unknown t) as [Hin|Hout]; [exact Hin|].
  destruct (unknown_type t Hout) as (E1 & E2 & E3 & E4 & E5 & E6 & E7 & E8).
  unfold requiredFieldsPresent in H. cbn [existsb] in H.
  rewrite E1, E2, E3, E4, E5, E6, E7, E8 in H. discriminate.
Qed.

(** Property X16.  [validateMonitorConfig] accepts a configuration exactly
    when it has a name and the fields its type needs, the type being read
    without regard to case; its verdict is [valid] exactly when it reports
    no error, and it reports at most four.  A missing type is reported
    twice, as required and as unknown, and a type that is not a string
    makes the validation throw. *)
Theorem validation_accepts_complete_configs (config : Config) :
  (validateMonitorConfig config = None <-> exists b, cfg_type config = JsOther b) /\
  (forall v, validateMonitorConfig config = Some v ->
     (valid v = true <-> errors v = []) /\
     (length (errors v) <= 4)%nat /\
     (valid v = true <->
        isTruthy (cfg_name config) = true /\
        match cfg_type config with
        | JsString s => requiredFieldsPresent (toLowerCase s) config = Some true
        | _ => False
        end)) /\
  (cfg_type config = JsNullish ->
   exists v,
     validateMonitorConfig config = Some v /\ valid v = false /\
     errors v = pushIf (negb (isTruthy (cfg_name config))) "Name is required" []
                ++ ["Type is required"; "Unknown monitor type: undefined"]).
Proof.
  destruct (cfg_type config) as [|s|b] eqn:Htype.
  - (* no type *)
    assert (Hv : validateMonitorConfig config
                 = Some {| valid := false;
                           errors :=
                             pushIf (negb (isTruthy (cfg_name config)))
                               "Name is required" []
                             ++ ["Type is required";
                                 "Unknown monitor type: undefined"] |}).
    { unfold validateMonitorConfig. rewrite Htype.
      cbn [lowerType isCase orb isTruthy negb js_str].
      unfold pushIf. destruct (isTruthy (cfg_name config)); reflexivity. }
    split; [|split].
    + rewrite Hv. split; [discriminate|intros [b H]; discriminate].
    + intros v Hv'. rewrite Hv in Hv'. injection Hv' as <-.
      cbn [valid errors]. unfold pushIf.
      destruct (isTruthy (cfg_name config)); cbn [negb app length].
      * split; [split; discriminate|]. split; [lia|].
        split; [discriminate|intros [_ []]].
      * split; [split; discriminate|]. split; [lia|].
        split; [discriminate|intros [_ []]].
    + intros _. eexists. split; [exact Hv|]. split; reflexivity.
  - (* a string *)
    destruct (validate_string config s Htype) as (v0 & Hv & H1 & H2 & H3).
    split; [|split].
    + rewrite Hv. split; [discriminate|intros [b H]; discriminate].
    + intros v Hv'. rewrite Hv in Hv'. injection Hv' as <-.
      split; [exact H1|]. split; [exact H2|exact H3].
    + discriminate.
  - (* another value *)
    assert (Hv : validateMonitorConfig config = None).
    { unfold validateMonitorConfig. rewrite Htype. reflexivity. }
    split; [|split].
    + rewrite Hv. split; [intros _; exists b; reflexivity|reflexivity].
    + intros v Hv'. rewrite Hv in Hv'. discriminate.
    + discriminate.
Qed.

Lemma lowerAscii_ascii c :
  (Ascii.N_of_ascii (lowerAscii c) <? 128)%N = true ->
  (Ascii.N_of_ascii c <? 128)%N = true.
Proof.
  unfold lowerAscii.
  destruct ((65 <=? Ascii.N_of_ascii c) && (Ascii.N_of_ascii c <=? 90))%N
    eqn:Hupper; [|auto].
  intros _. apply andb_true_iff in Hupper as [_ Hle].
  apply N.leb_le in Hle. apply N.ltb_lt. lia.
Qed.

Lemma toLowerCase_ascii s :
  isAscii (toLowerCase s) = true -> isAscii s = true.
Proof.
  induction s as [|c rest IH]; [reflexivity|].
  cbn [toLowerCase isAscii]. rewrite !andb_true_iff.
  intros [Hc Hrest]. split; [apply lowerAscii_ascii, Hc | apply IH, Hrest].
Qed.

Lemma known_type_ascii s :
  In (toLowerCase s) knownTypes -> isAscii s = true.
Proof.
  intros Hin. apply toLowerCase_ascii. revert Hin.
  generalize (toLowerCase s). intros t Hin.
  unfold knownTypes in Hin. cbn [In] in Hin.
  repeat (destruct Hin as [<-|Hin]); try (destruct Hin); reflexivity.
Qed.

Lemma known_type_dispatch engineLower probes monitor :
  In (lowerCase engineLower (mon_type monitor)) knownTypes ->
  In (checkMonitorOnce engineLower probes monitor) (probeResults probes monitor).
Proof.
  unfold checkMonitorOnce, probeResults, knownTypes.
  generalize (lowerCase engineLower (mon_type monitor)).
  intros t Hin. cbn [In] in Hin.
  repeat (destruct Hin as [<-|Hin]); try (destruct Hin);
    cbn [String.eqb Ascii.eqb Bool.eqb orb andb In]; tauto.
Qed.

(** Property X17.  A monitor whose configuration has passed validation has
    a type of ASCII characters that is a monitor type in some spelling of
    upper and lower case, and it is always checked by one of the six
    probes, whatever the engine does to other strings.  The answer "Unknown
    monitor type", DOWN with response time 0 and no probe run, is given
    exactly to the types whose lower case is not a monitor type, and it
    echoes that lower case: the letters A to Z lowered for a type of ASCII
    characters, and what the engine computes for any other. *)
Theorem validated_monitor_reaches_a_probe (engineLower : string -> string)
    (probes : Probes) (config : Config) (monitor : Monitor) (v : Validation) :
  validateMonitorConfig config = Some v ->
  valid v = true ->
  cfg_type config = JsString (mon_type monitor) ->
  In (toLowerCase (mon_type monitor)) knownTypes /\
  isAscii (mon_type monitor) = true /\
  In (checkMonitorOnce engineLower probes monitor) (probeResults probes monitor) /\
  (forall other,
     let type :=
       if isAscii (mon_type other)
       then toLowerCase (mon_type other)
       else engineLower (mon_type other) in
     (In type knownTypes ->
      In (checkMonitorOnce engineLower probes other) (probeResults probes other)) /\
     (~ In type knownTypes ->
      checkMonitorOnce engineLower probes other
      = {| cr_status := CHECK_DOWN; cr_responseTime := 0;
           cr_message := "Unknown monitor type: " +:+ type;
           cr_statusCode := None; cr_sslInfo := None |})).
Proof.
  intros Hv Hvalid Htype.
  destruct (validate_string config _ Htype) as (v0 & Hv0 & _ & _ & H3).
  rewrite Hv in Hv0. injection Hv0 as <-.
  apply H3 in Hvalid as [_ Hreq].
  apply requiredFieldsPresent_known in Hreq.
  pose proof (known_type_ascii _ Hreq) as Hascii.
  split; [exact Hreq|]. split; [exact Hascii|].
  split.
  { apply known_type_dispatch. unfold lowerCase. rewrite Hascii. exact Hreq. }
  intros other. cbv zeta. split; [apply known_type_dispatch|].
  intros Hout. unfold checkMonitorOnce.
  change (lowerCase engineLower (mon_type other))
    with (if isAscii (mon_type other)
          then toLowerCase (mon_type other)
          else engineLower (mon_type other)).
  destruct (unknown_type _ Hout) as (E1 & E2 & E3 & E4 & E5 & E6 & E7 & E8).
  rewrite E1, E2, E3, E4, E5, E6, E7, E8. reflexivity.
Qed.

Lemma validated_monitor_reaches_a_probe_witness :
  checkMonitorOnce toLowerCase exampleProbes upperCaseMonitor
  = (sampleAt 0 CHECK_UP).2 /\
  In (checkMonitorOnce toLowerCase exampleProbes upperCaseMonitor)
    (probeResults exampleProbes upperCaseMonitor).
Proof.
  split; [reflexivity|].
  destruct (validated_monitor_reaches_a_probe toLowerCase exampleProbes
              exampleConfig upperCaseMonitor
              {| valid := true; errors := [] |})
    as (_ & _ & Hprobe & _); [reflexivity | reflexivity | reflexivity |].
  exact Hprobe.
Defined.

(** ** The timers and the monitors *)

Lemma scheduled_lookup srv :
  scheduled srv <->
  forall id, monitorIntervals srv !! id = monitors (state srv) !! id ≫= timerOf.
Proof.
  unfold scheduled. split.
  - intros H id. rewrite H. apply lookup_omap.
  - intros H. apply map_eq. intros id. rewrite H, lookup_omap. reflexivity.
Qed.

Lemma updateMonitor_spec now id data s :
  let p := updateMonitor now id data s in
  statuses p.2 = statuses s /\ incidents p.2 = incidents s /\
  alerts p.2 = alerts s /\ contacts p.2 = contacts s /\
  contactGroups p.2 = contactGroups s /\ settings p.2 = settings s /\
  match monitors s !! id with
  | Some monitor =>
      p.1 = Some (spread id monitor data) /\
      monitors p.2 = <[id := spread id monitor data]> (monitors s)
  | None => p = (None, s)
  end.
Proof.
  cbv zeta. unfold updateMonitor. destruct (monitors s !! id) as [monitor|].
  - repeat split.
  - repeat split.
Qed.

Lemma startMonitorInterval_spec now id srv :
  let srv' := startMonitorInterval now id srv in
  monitors (state srv') = monitors (state srv) /\
  statuses (state srv') = statuses (state srv) /\
  incidents (state srv') = incidents (state srv) /\
  alerts (state srv') = alerts (state srv) /\
  inFlight srv' = inFlight srv /\
  monitorIntervals srv'
  = match monitors (state srv) !! id ≫= timerOf with
    | Some ms => <[id := ms]> (monitorIntervals srv)
    | None => monitorIntervals srv
    end.
Proof.
  cbv zeta. unfold startMonitorInterval, getMonitor, timerOf.
  destruct (monitors (state srv) !! id) as [monitor|]; cbn [mbind option_bind];
    [|repeat split].
  destruct (mon_enabled monitor); cbn [negb]; [|repeat split].
  destruct (stopMonitorInterval_spec id srv) as [Hi Hs].
  cbn [state set_state monitorIntervals set_monitorIntervals inFlight].
  rewrite Hs, Hi. repeat split.
  - unfold stopMonitorInterval. destruct (monitorIntervals srv !! id); reflexivity.
  - apply map_eq. intros j. destruct (decide (j = id)) as [->|Hne].
    + rewrite !lookup_insert_eq. reflexivity.
    + rewrite !lookup_insert_ne, lookup_delete_ne by congruence. reflexivity.
Qed.

Lemma runCheck_start_spec id srv :
  state (runCheck_start id srv) = state srv /\
  monitorIntervals (runCheck_start id srv) = monitorIntervals srv.
Proof.
  unfold runCheck_start. destruct (getMonitor (state srv) id); split; reflexivity.
Qed.

Lemma runCheck_finish_frame env now m mon r srv :
  let p := runCheck_finish env now m mon r srv in
  monitorIntervals p.1 = monitorIntervals srv /\
  inFlight p.1 = inFlight srv /\
  monitors (state p.1) = monitors (state srv) /\
  statuses (state p.1) = statuses (updateStatus now m r (state srv)).2 /\
  incidents (state p.1) = incidents (updateStatus now m r (state srv)).2.
Proof.
  cbv zeta. unfold runCheck_finish.
  destruct (updateStatus_frame now m r (state srv)) as [(Hm & _) _].
  set (s1 := (updateStatus now m r (state srv)).2) in *.
  assert (Hsend : forall alert (s : State) (eff : list Outbound -> list Effect),
            monitors s = monitors s1 -> statuses s = statuses s1 ->
            incidents s = incidents s1 ->
            let q := (let '(_, s', out) :=
                        sendAlertNotification env now alert (Some mon) s in
                      (set_state s' srv, eff out)) in
            monitorIntervals q.1 = monitorIntervals srv /\
            inFlight q.1 = inFlight srv /\
            monitors (state q.1) = monitors (state srv) /\
            statuses (state q.1) = statuses s1 /\
            incidents (state q.1) = incidents s1).
  { intros alert s eff H1 H2 H3.
    pose proof (sendAlertNotification_onlyLogs env now alert (Some mon) s) as Hl.
    destruct (sendAlertNotification env now alert (Some mon) s) as [[res s'] out].
    cbn [fst snd state set_state monitorIntervals inFlight] in *.
    destruct Hl as ((Hlm & _) & Hls & Hli & _).
    rewrite Hlm, Hls, Hli, H1, H2, H3, Hm. repeat split. }
  destruct (match getStatus (state srv) m with
            | Some st => negb (status_eqb (status st) (status_of (cr_status r)))
            | None => true
            end); [|cbn [fst state set_state]; rewrite Hm; repeat split].
  destruct (cr_status r).
  - destruct (status <$> getStatus (state srv) m) as [[| |]|];
      try (cbn [fst state set_state]; rewrite Hm; repeat split; fail).
    destruct (find (active_alert_of m) (getAllAlerts s1)) as [alert|];
      [|cbn [fst state set_state]; rewrite Hm; repeat split].
    exact (Hsend (mark_resolved now alert)
             (set_alerts (update_first (active_alert_of m) (mark_resolved now)
                            (alerts s1)) s1)
             (fun out => _) eq_refl eq_refl eq_refl).
  - destruct (find (recent_active_alert_of now m) (getAllAlerts s1)) as [alert|];
      [|cbn [fst state set_state]; rewrite Hm; repeat split].
    exact (Hsend alert s1 (fun out => _) eq_refl eq_refl eq_refl).
Qed.

Lemma createMonitor_monitors now data s :
  let p := createMonitor now data s in
  mon_id p.1 = nextId s /\ mon_enabled p.1 = mon_enabled data /\
  mon_schedule p.1 = mon_schedule data /\
  monitors p.2 = <[nextId s := p.1]> (monitors s).
Proof. repeat split. Qed.

Lemma deleteMonitor_monitors now id s :
  let p := deleteMonitor now id s in
  monitors p.2 = delete id (monitors s) /\
  incidents p.2 = incidents s /\ alerts p.2 = alerts s /\
  p.1 = bool_decide (is_Some (monitors s !! id)).
Proof.
  cbv zeta. unfold deleteMonitor. destruct (monitors s !! id) eqn:E.
  - repeat split.
  - cbn [fst snd]. rewrite delete_id by exact E. repeat split.
Qed.

Section Scheduled.
Variables (now : Z) (srv : Server).
Hypothesis Hsched : scheduled srv.

Lemma scheduled_at id :
  monitorIntervals srv !! id = monitors (state srv) !! id ≫= timerOf.
Proof. apply scheduled_lookup. exact Hsched. Qed.

Lemma startMonitorInterval_scheduled id srv1 :
  (forall j, j <> id ->
     monitorIntervals srv1 !! j = monitors (state srv1) !! j ≫= timerOf) ->
  (monitors (state srv1) !! id ≫= timerOf = None ->
   monitorIntervals srv1 !! id = None) ->
  scheduled (startMonitorInterval now id srv1).
Proof.
  intros Hother Hid. apply scheduled_lookup. intros j.
  destruct (startMonitorInterval_spec now id srv1) as (Hm & _ & _ & _ & _ & Hi).
  rewrite Hm, Hi.
  destruct (monitors (state srv1) !! id ≫= timerOf) as [ms|] eqn:E.
  - destruct (decide (j = id)) as [->|Hne].
    + rewrite lookup_insert_eq, E. reflexivity.
    + rewrite lookup_insert_ne by congruence. apply Hother. exact Hne.
  - destruct (decide (j = id)) as [->|Hne].
    + rewrite E. apply Hid. reflexivity.
    + apply Hother. exact Hne.
Qed.

Lemma onMonitorCreate_scheduled data :
  monitors (state srv) !! nextId (state srv) = None ->
  scheduled (onMonitorCreate now data srv).1.
Proof.
  intros Hfresh. unfold onMonitorCreate.
  destruct (createMonitor_monitors now data (state srv)) as (Hid & Hen & _ & Hm).
  destruct (createMonitor now data (state srv)) as [monitor s].
  cbn [fst snd] in *.
  assert (Hother : forall j, j <> mon_id monitor ->
            monitorIntervals (set_state s srv) !! j
            = monitors (state (set_state s srv)) !! j ≫= timerOf).
  { intros j Hne. cbn [state set_state monitorIntervals]. rewrite Hm.
    rewrite lookup_insert_ne by congruence. apply scheduled_at. }
  destruct (mon_enabled monitor) eqn:E; cbn [fst].
  - apply scheduled_lookup. intros j.
    destruct (runCheck_start_spec (mon_id monitor)
                (startMonitorInterval now (mon_id monitor) (set_state s srv)))
      as [Hs Hi].
    rewrite Hs, Hi. apply scheduled_lookup.
    apply startMonitorInterval_scheduled; [exact Hother|].
    cbn [state set_state]. rewrite Hm, Hid, lookup_insert_eq.
    unfold timerOf. cbn [mbind option_bind]. rewrite E. discriminate.
  - apply scheduled_lookup. intros j.
    destruct (decide (j = mon_id monitor)) as [->|Hne]; [|apply Hother; exact Hne].
    cbn [state set_state monitorIntervals]. rewrite Hm, Hid, lookup_insert_eq.
    rewrite scheduled_at, Hfresh. unfold timerOf. cbn [mbind option_bind].
    rewrite E. reflexivity.
Qed.

Lemma onMonitorDelete_scheduled id :
  scheduled (onMonitorDelete now id srv).1.
Proof.
  unfold onMonitorDelete.
  destruct (stopMonitorInterval_spec id srv) as [Hi Hs].
  destruct (deleteMonitor_monitors now id (state (stopMonitorInterval id srv)))
    as (Hm & _).
  destruct (deleteMonitor now id (state (stopMonitorInterval id srv)))
    as [result s].
  cbn [fst snd] in *.
  assert (H : scheduled (set_state s (stopMonitorInterval id srv))).
  { apply scheduled_lookup. intros j.
    cbn [state set_state monitorIntervals]. rewrite Hm, Hi, Hs.
    destruct (decide (j = id)) as [->|Hne].
    - rewrite !lookup_delete_eq. reflexivity.
    - rewrite !lookup_delete_ne by congruence. apply scheduled_at. }
  destruct result; exact H.
Qed.

Lemma after_update_scheduled id data monitor s :
  monitors (state srv) !! id = Some monitor ->
  monitors s = <[id := spread id monitor data]> (monitors (state srv)) ->
  let srv1 := stopMonitorInterval id (set_state s srv) in
  scheduled (startMonitorInterval now id srv1) /\
  (mon_enabled (spread id monitor data) = false -> scheduled srv1).
Proof.
  intros Hmon Hm srv1.
  destruct (stopMonitorInterval_spec id (set_state s srv)) as [Hi Hs].
  fold srv1 in Hi, Hs. cbn [state set_state monitorIntervals] in Hi, Hs.
  assert (Hother : forall j, j <> id ->
            monitorIntervals srv1 !! j = monitors (state srv1) !! j ≫= timerOf).
  { intros j Hne. rewrite Hi, Hs, Hm.
    rewrite lookup_delete_ne, lookup_insert_ne by congruence.
    apply scheduled_at. }
  assert (Hnone : monitorIntervals srv1 !! id = None).
  { rewrite Hi. apply lookup_delete_eq. }
  split.
  - apply startMonitorInterval_scheduled; [exact Hother|]. intros _. exact Hnone.
  - intros Hoff. apply scheduled_lookup. intros j.
    destruct (decide (j = id)) as [->|Hne]; [|apply Hother; exact Hne].
    rewrite Hnone, Hs, Hm, lookup_insert_eq. unfold timerOf.
    cbn [mbind option_bind]. rewrite Hoff. reflexivity.
Qed.

Lemma onMonitorUpdate_scheduled id data :
  scheduled (onMonitorUpdate now id data srv).1.
Proof.
  unfold onMonitorUpdate.
  destruct (updateMonitor_spec now id data (state srv))
    as (_ & _ & _ & _ & _ & _ & Hu).
  destruct (monitors (state srv) !! id) as [monitor|] eqn:Hmon.
  - destruct Hu as [H1 Hm].
    destruct (updateMonitor now id data (state srv)) as [updated s].
    cbn [fst snd] in *. subst updated.
    destruct (after_update_scheduled id data monitor s Hmon Hm) as [Hon Hoff].
    destruct (mon_enabled (spread id monitor data)) eqn:E; cbn [fst].
    + exact Hon.
    + apply Hoff. reflexivity.
  - rewrite Hu. cbn [fst]. destruct srv; exact Hsched.
Qed.

Lemma onMonitorToggle_scheduled id :
  scheduled (onMonitorToggle now id srv).1.
Proof.
  unfold onMonitorToggle, getMonitor.
  destruct (monitors (state srv) !! id) as [monitor|] eqn:Hmon;
    [|exact Hsched].
  destruct (updateMonitor_spec now id (toggled monitor) (state srv))
    as (_ & _ & _ & _ & _ & _ & Hu).
  rewrite Hmon in Hu. destruct Hu as [H1 Hm].
  destruct (updateMonitor now id (toggled monitor) (state srv)) as [updated s].
  cbn [fst snd] in *. subst updated. cbn [fst].
  destruct (after_update_scheduled id (toggled monitor) monitor s Hmon Hm)
    as [Hon Hoff].
  destruct (mon_enabled (spread id monitor (toggled monitor))) eqn:E.
  - apply scheduled_lookup. intros j.
    destruct (runCheck_start_spec id (startMonitorInterval now id (set_state s srv)))
      as [Hs Hi].
    rewrite Hs, Hi. apply scheduled_lookup.
    apply startMonitorInterval_scheduled.
    + intros k Hne. cbn [state set_state monitorIntervals]. rewrite Hm.
      rewrite lookup_insert_ne by congruence. apply scheduled_at.
    + cbn [state set_state monitorIntervals]. rewrite Hm, lookup_insert_eq.
      unfold timerOf. cbn [mbind option_bind]. rewrite E. discriminate.
  - apply Hoff. reflexivity.
Qed.

End Scheduled.

(** Property X18.  The socket handlers keep the timers in step with the
    monitors: when every enabled monitor has a timer of its own interval
    and there is no other timer, this is so again after a monitor has been
    created (under an id no monitor carries yet), updated, toggled or
    deleted, and after a timer has fired or a check has run. *)
Theorem socket_handlers_keep_timers_in_step (env : Env) (now : Z)
    (srv : Server) :
  scheduled srv ->
  monitors (state srv) !! nextId (state srv) = None ->
  (forall e, scheduled (step env now e srv).1) /\
  (forall id data, scheduled (onMonitorUpdate now id data srv).1) /\
  (forall id, scheduled (onMonitorToggle now id srv).1).
Proof.
  intros Hsched Hfresh. split; [|split].
  - intros [id|id|id r|data|id]; cbn [step].
    + destruct (monitorIntervals srv !! id); [|exact Hsched].
      cbn [fst]. apply scheduled_lookup. intros j.
      destruct (runCheck_start_spec id srv) as [Hs Hi]. rewrite Hs, Hi.
      apply scheduled_at. exact Hsched.
    + cbn [fst]. apply scheduled_lookup. intros j.
      destruct (runCheck_start_spec id srv) as [Hs Hi]. rewrite Hs, Hi.
      apply scheduled_at. exact Hsched.
    + destruct (takeInFlight id (inFlight srv)) as [[monitor rest]|];
        [|exact Hsched].
      destruct (runCheck_finish_frame env now id monitor r (set_inFlight rest srv))
        as (Hi & _ & Hm & _).
      apply scheduled_lookup. intros j. rewrite Hi, Hm.
      apply scheduled_at. exact Hsched.
    + apply onMonitorCreate_scheduled; assumption.
    + apply onMonitorDelete_scheduled; assumption.
  - intros id data. apply onMonitorUpdate_scheduled. exact Hsched.
  - intros id. apply onMonitorToggle_scheduled. exact Hsched.
Qed.

Lemma socket_handlers_keep_timers_in_step_witness :
  scheduled (onMonitorToggle 200 "uuid-0" (serverAfterUp true)).1 /\
  monitorIntervals (onMonitorToggle 200 "uuid-0" (serverAfterUp true)).1
    !! "uuid-0" = None.
Proof.
  split; [|vm_compute; reflexivity].
  apply (socket_handlers_keep_timers_in_step exampleEnv 200 (serverAfterUp true)).
  - vm_compute. reflexivity.
  - vm_compute. reflexivity.
Defined.

(** Property X19.  The REST routes for monitors change the store and never
    the timers.  Deleting a scheduled monitor over REST leaves its timer
    registered, with every later tick of it doing nothing; a monitor that
    is created enabled over REST gets no timer and no first check; and an
    update over REST leaves the timer at its old interval. *)
Theorem rest_routes_bypass_the_scheduler (now : Z) (id : string)
    (monitor : Monitor) (srv : Server) :
  scheduled srv ->
  monitors (state srv) !! id = Some monitor ->
  mon_enabled monitor = true ->
  (let srv' := (deleteMonitorRoute now id srv).1 in
   monitorIntervals srv' !! id = Some (intervalMs monitor) /\
   getMonitor (state srv') id = None /\
   (forall env t, step env t (TimerFires id) srv' = (srv', [])) /\
   ~ scheduled srv') /\
  (forall data,
     mon_enabled data = true ->
     monitors (state srv) !! nextId (state srv) = None ->
     let p := postMonitor now data srv in
     getMonitor (state p.1) (mon_id p.2) = Some p.2 /\
     monitorIntervals p.1 !! mon_id p.2 = None /\
     inFlight p.1 = inFlight srv /\
     ~ scheduled p.1) /\
  (forall data,
     let p := putMonitor now id data srv in
     p.2 = Some (spread id monitor data) /\
     getMonitor (state p.1) id = Some (spread id monitor data) /\
     monitorIntervals p.1 !! id = Some (intervalMs monitor)).
Proof.
  intros Hsched Hmon Hon.
  assert (Htimer : monitorIntervals srv !! id = Some (intervalMs monitor)).
  { rewrite (scheduled_at srv Hsched), Hmon. unfold timerOf.
    cbn [mbind option_bind]. rewrite Hon. reflexivity. }
  split; [|split].
  - unfold deleteMonitorRoute.
    destruct (deleteMonitor_monitors now id (state srv)) as (Hm & _).
    destruct (deleteMonitor now id (state srv)) as [result s].
    cbn [fst snd] in *.
    assert (Hgone : getMonitor (state (set_state s srv)) id = None).
    { unfold getMonitor. cbn [state set_state]. rewrite Hm.
      apply lookup_delete_eq. }
    split; [exact Htimer|]. split; [exact Hgone|]. split.
    + intros env t. cbn [step monitorIntervals set_state].
      rewrite Htimer. unfold runCheck_start. rewrite Hgone. reflexivity.
    + intros H. pose proof (scheduled_at _ H id) as Hid.
      cbn [monitorIntervals set_state] in Hid. unfold getMonitor in Hgone.
      rewrite Htimer, Hgone in Hid. discriminate.
  - intros data Hen Hfresh. unfold postMonitor.
    destruct (createMonitor_monitors now data (state srv)) as (Hid & He & _ & Hm).
    destruct (createMonitor now data (state srv)) as [created s].
    cbn [fst snd] in *.
    assert (Hnone : monitorIntervals srv !! mon_id created = None).
    { rewrite (scheduled_at srv Hsched), Hid, Hfresh. reflexivity. }
    assert (Hget : getMonitor (state (set_state s srv)) (mon_id created)
                   = Some created).
    { unfold getMonitor. cbn [state set_state]. rewrite Hm, Hid.
      apply lookup_insert_eq. }
    split; [exact Hget|]. split; [exact Hnone|]. split; [reflexivity|].
    intros H. pose proof (scheduled_at _ H (mon_id created)) as Hc.
    cbn [monitorIntervals set_state] in Hc. unfold getMonitor in Hget.
    rewrite Hnone, Hget in Hc. unfold timerOf in Hc.
    cbn [mbind option_bind] in Hc. rewrite He, Hen in Hc. discriminate.
  - intros data. unfold putMonitor.
    destruct (updateMonitor_spec now id data (state srv))
      as (_ & _ & _ & _ & _ & _ & Hu).
    rewrite Hmon in Hu. destruct Hu as [H1 Hm].
    destruct (updateMonitor now id data (state srv)) as [updated s].
    cbn [fst snd] in *. split; [exact H1|]. split; [|exact Htimer].
    unfold getMonitor. cbn [state set_state]. rewrite Hm.
    apply lookup_insert_eq.
Qed.

Lemma rest_routes_bypass_the_scheduler_witness :
  let srv' := (deleteMonitorRoute 200 "uuid-0" (serverAfterUp true)).1 in
  monitorIntervals srv' !! "uuid-0" = Some 60000 /\
  getMonitor (state srv') "uuid-0" = None.
Proof.
  destruct (rest_routes_bypass_the_scheduler 200 "uuid-0"
              (default exampleMonitor
                 (getMonitor (state (serverAfterUp true)) "uuid-0"))
              (serverAfterUp true))
    as ((Ht & Hg & _) & _).
  - vm_compute. reflexivity.
  - vm_compute. reflexivity.
  - vm_compute. reflexivity.
  - split; [exact Ht|exact Hg].
Defined.

(** Property X20.  Editing a monitor over the socket keeps everything that
    was recorded for it: the status records, the incidents and the alerts
    are after [monitor:update] and after [monitor:toggle] what they were
    before, only the stored monitor and its timer change; an id that no
    monitor carries changes nothing. *)
Theorem editing_a_monitor_keeps_its_records (now : Z) (id : string)
    (data : MonitorPatch) (srv : Server) :
  let u := onMonitorUpdate now id data srv in
  let t := onMonitorToggle now id srv in
  (statuses (state u.1) = statuses (state srv) /\
   incidents (state u.1) = incidents (state srv) /\
   alerts (state u.1) = alerts (state srv)) /\
  (statuses (state t.1) = statuses (state srv) /\
   incidents (state t.1) = incidents (state srv) /\
   alerts (state t.1) = alerts (state srv)) /\
  match monitors (state srv) !! id with
  | Some monitor =>
      getMonitor (state u.1) id = Some (spread id monitor data) /\
      monitorIntervals u.1 !! id = timerOf (spread id monitor data) /\
      getMonitor (state t.1) id = Some (spread id monitor (toggled monitor)) /\
      mon_enabled (spread id monitor (toggled monitor))
      = negb (mon_enabled monitor) /\
      monitorIntervals t.1 !! id = timerOf (spread id monitor (toggled monitor))
  | None => u = (srv, []) /\ t = (srv, [])
  end.
Proof.
  cbv zeta. unfold onMonitorUpdate, onMonitorToggle, getMonitor.
  destruct (monitors (state srv) !! id) as [monitor|] eqn:Hmon.
  - destruct (updateMonitor_spec now id data (state srv))
      as (Hs & Hi & Ha & _ & _ & _ & Hu).
    destruct (updateMonitor_spec now id (toggled monitor) (state srv))
      as (Hs' & Hi' & Ha' & _ & _ & _ & Hu').
    rewrite Hmon in Hu, Hu'. destruct Hu as [H1 Hm], Hu' as [H1' Hm'].
    destruct (updateMonitor now id data (state srv)) as [updated s].
    destruct (updateMonitor now id (toggled monitor) (state srv))
      as [updated' s'].
    cbn [fst snd] in *. subst updated updated'.
    set (srv1 := stopMonitorInterval id (set_state s srv)).
    destruct (stopMonitorInterval_spec id (set_state s srv)) as [Hi1 Hs1].
    fold srv1 in Hi1, Hs1. cbn [state set_state monitorIntervals] in Hi1, Hs1.
    destruct (startMonitorInterval_spec now id srv1)
      as (Gm & Gs & Gi & Ga & _ & Gt).
    destruct (stopMonitorInterval_spec id (set_state s' srv)) as [Hi2 Hs2].
    cbn [state set_state monitorIntervals] in Hi2, Hs2.
    destruct (startMonitorInterval_spec now id (set_state s' srv))
      as (Gm' & Gs' & Gi' & Ga' & _ & Gt').
    cbn [state set_state monitorIntervals] in Gm', Gs', Gi', Ga', Gt'.
    destruct (runCheck_start_spec id (startMonitorInterval now id (set_state s' srv)))
      as [Rs Ri].
    rewrite Hs1, Hm, lookup_insert_eq in Gt. rewrite Hm', lookup_insert_eq in Gt'.
    cbn [mbind option_bind] in Gt, Gt'.
    assert (Hu1 :
      let u := if mon_enabled (spread id monitor data)
               then (startMonitorInterval now (mon_id (spread id monitor data)) srv1,
                     [Broadcast "monitors-update"; Broadcast "applications-update"])
               else (srv1, [Broadcast "monitors-update";
                            Broadcast "applications-update"]) in
      statuses (state u.1) = statuses (state srv) /\
      incidents (state u.1) = incidents (state srv) /\
      alerts (state u.1) = alerts (state srv) /\
      monitors (state u.1) !! id = Some (spread id monitor data) /\
      monitorIntervals u.1 !! id = timerOf (spread id monitor data)).
    { cbv zeta. unfold timerOf in *. cbn [spread mon_id].
      destruct (mon_enabled (spread id monitor data)); cbn [fst].
      - rewrite Gs, Gi, Ga, Gm, Gt, Hs1, Hs, Hi, Ha, Hm, !lookup_insert_eq.
        repeat split.
      - rewrite Hi1, Hs1, Hs, Hi, Ha, Hm, lookup_insert_eq, lookup_delete_eq.
        repeat split. }
    assert (Ht1 :
      let t := if mon_enabled (spread id monitor (toggled monitor))
               then runCheck_start id (startMonitorInterval now id (set_state s' srv))
               else stopMonitorInterval id (set_state s' srv) in
      statuses (state t) = statuses (state srv) /\
      incidents (state t) = incidents (state srv) /\
      alerts (state t) = alerts (state srv) /\
      monitors (state t) !! id = Some (spread id monitor (toggled monitor)) /\
      monitorIntervals t !! id = timerOf (spread id monitor (toggled monitor))).
    { cbv zeta. unfold timerOf in *.
      destruct (mon_enabled (spread id monitor (toggled monitor))).
      - rewrite Rs, Ri, Gs', Gi', Ga', Gm', Gt', Hs', Hi', Ha', Hm',
          !lookup_insert_eq.
        repeat split.
      - rewrite Hi2, Hs2, Hs', Hi', Ha', Hm', lookup_insert_eq, lookup_delete_eq.
        repeat split. }
    cbv zeta in Hu1, Ht1. cbn [fst].
    destruct Hu1 as (U1 & U2 & U3 & U4 & U5), Ht1 as (T1 & T2 & T3 & T4 & T5).
    repeat split; assumption.
  - destruct (updateMonitor_spec now id data (state srv))
      as (_ & _ & _ & _ & _ & _ & Hu).
    rewrite Hmon in Hu. rewrite Hu. cbn [fst snd].
    destruct srv; repeat split.
Qed.

(** ** Members of a contact group *)

Lemma jsmap_get_set_eq {V} k (v : V) m : jsmap_get k (jsmap_set k v m) = Some v.
Proof.
  induction m as [|[k' v'] t IH]; cbn [jsmap_set jsmap_get].
  - rewrite String.eqb_refl. reflexivity.
  - destruct (String.eqb k k') eqn:E; cbn [jsmap_get].
    + rewrite String.eqb_refl. reflexivity.
    + rewrite E. exact IH.
Qed.

Lemma jsmap_get_set_ne {V} k k' (v : V) m :
  k' <> k -> jsmap_get k' (jsmap_set k v m) = jsmap_get k' m.
Proof.
  intros Hne. induction m as [|[k2 v2] t IH]; cbn [jsmap_set jsmap_get].
  - rewrite (proj2 (String.eqb_neq k' k) Hne). reflexivity.
  - destruct (String.eqb k k2) eqn:E; cbn [jsmap_get].
    + apply String.eqb_eq in E. subst k2.
      rewrite (proj2 (String.eqb_neq k' k) Hne). reflexivity.
    + destruct (String.eqb k' k2); [reflexivity|exact IH].
Qed.

Lemma includesId_In ids c : includesId ids c = true <-> In c ids.
Proof.
  unfold includesId. rewrite existsb_exists. split.
  - intros (x & Hin & Hx). apply String.eqb_eq in Hx. subst x. exact Hin.
  - intros Hin. exists c. split; [exact Hin|apply String.eqb_refl].
Qed.

Lemma withoutId_In ids c x : In x (withoutId ids c) <-> In x ids /\ x <> c.
Proof.
  unfold withoutId. rewrite filter_In. split; intros [H1 H2]; split; try exact H1.
  - intros ->. rewrite String.eqb_refl in H2. discriminate.
  - apply negb_true_iff, String.eqb_neq. exact H2.
Qed.

Lemma withoutId_notin ids c : ~ In c ids -> withoutId ids c = ids.
Proof.
  intros H. unfold withoutId. induction ids as [|x t IH]; [reflexivity|].
  cbn [List.filter]. destruct (String.eqb x c) eqn:E.
  - apply String.eqb_eq in E. subst x. exfalso. apply H. now left.
  - cbn [negb]. f_equal. apply IH. intros Hin. apply H. now right.
Qed.

Lemma withoutId_app ids1 ids2 c :
  withoutId (ids1 ++ ids2) c = withoutId ids1 c ++ withoutId ids2 c.
Proof. unfold withoutId. apply List.filter_app. Qed.

(** The mutated group object is stored under [groupId], and only there. *)
Lemma stored_group now groupId group s :
  let s' := (updateContactGroup now groupId (asPatch group)
               (mutateStored groupId group s)).2 in
  getContactGroup s' groupId
  = Some {| cg_id := groupId; cg_name := cg_name group;
            cg_contactIds := cg_contactIds group |} /\
  (forall other, other <> groupId ->
     getContactGroup s' other = getContactGroup s other) /\
  contacts s' = contacts s /\ monitors s' = monitors s /\
  statuses s' = statuses s /\ incidents s' = incidents s /\
  alerts s' = alerts s /\ settings s' = settings s.
Proof.
  cbv zeta. unfold updateContactGroup, mutateStored, getContactGroup.
  cbn [contactGroups set_contactGroups]. rewrite jsmap_get_set_eq.
  cbn [snd asPatch cgp_name cgp_contactIds default from_option].
  match goal with
  | |- context [addActivity ?n ?a ?b ?c ?d ?st] =>
      destruct (addActivity_frame n st a b c d)
        as (H1 & H2 & H3 & H4 & H5 & H6 & H7 & _)
  end.
  cbv zeta in H1, H2, H3, H4, H5, H6, H7.
  rewrite H1, H2, H3, H4, H5, H6, H7. cbn [contactGroups set_contactGroups].
  split; [apply jsmap_get_set_eq|].
  split; [|repeat split].
  intros other Hne.
  rewrite !jsmap_get_set_ne by exact Hne. reflexivity.
Qed.

Lemma members_stored s groupId name ids :
  getContactGroup s groupId
  = Some {| cg_id := groupId; cg_name := name; cg_contactIds := Some ids |} ->
  members s groupId = ids.
Proof. unfold members. intros ->. reflexivity. Qed.

Lemma contactIdsOrEmpty_listed unlisted group :
  (cg_contactIds group = None -> unlisted = Falsy) ->
  contactIdsOrEmpty unlisted group = inl (default [] (cg_contactIds group)).
Proof.
  unfold contactIdsOrEmpty. destruct (cg_contactIds group); [reflexivity|].
  intros H. rewrite (H eq_refl). reflexivity.
Qed.

(** Property X21.  Adding a member to a contact group whose member list is
    an array, or missing and then taken to be empty, appends the id to the
    list unless the list has it already, in which case the request is
    refused (409 over REST) and nothing changes; so a member list without
    duplicates stays without duplicates.  When the stored list is a truthy
    value that is no array, nothing changes either: the request is refused
    in the same way when the [includes] of that value finds the id, and
    otherwise the call of what is no function throws, which the socket
    handler answers with the message of the error and the route with the
    500 of Express.  The contacts are not consulted and not changed, the
    other groups are left alone, and an unknown group is answered with an
    error. *)
Theorem add_member_never_duplicates (unlisted : NotAnArray) (typeError : string)
    (now : Z) (groupId contactId : string) (s : State) (group : ContactGroup) :
  getContactGroup s groupId = Some group ->
  let ids := default [] (cg_contactIds group) in
  let p := onAddMember unlisted typeError now groupId contactId s in
  let q := postMember unlisted typeError now groupId contactId s in
  ((cg_contactIds group = None -> unlisted = Falsy) ->
   (In contactId ids ->
    p = (Failure "Contact already in group", s) /\
    q = (409, Failure "Contact already in group", s)) /\
   (~ In contactId ids ->
    p.1 = Success (withContactIds (ids ++ [contactId]) group) /\
    q.1 = (201, Success (withContactIds (ids ++ [contactId]) group)) /\
    members p.2 groupId = ids ++ [contactId] /\
    members q.2 groupId = ids ++ [contactId])) /\
  (forall includes,
     cg_contactIds group = None -> unlisted = Truthy includes ->
     (includes contactId = Some true ->
      p = (Failure "Contact already in group", s) /\
      q = (409, Failure "Contact already in group", s)) /\
     (includes contactId <> Some true ->
      p = (Failure typeError, s) /\
      q = (500, Thrown typeError, s))) /\
  (NoDup ids -> NoDup (members p.2 groupId) /\ NoDup (members q.2 groupId)) /\
  (contacts p.2 = contacts s /\ contacts q.2 = contacts s) /\
  (forall other, other <> groupId ->
     getContactGroup p.2 other = getContactGroup s other /\
     getContactGroup q.2 other = getContactGroup s other) /\
  (forall unknown, getContactGroup s unknown = None ->
     onAddMember unlisted typeError now unknown contactId s
     = (Failure "Contact group not found", s) /\
     postMember unlisted typeError now unknown contactId s
     = (404, Failure "Contact group not found", s)).
Proof.
  intros Hg ids p q.
  assert (Hm : members s groupId = ids).
  { unfold members. rewrite Hg. reflexivity. }
  assert (Hunknown : forall unknown, getContactGroup s unknown = None ->
            onAddMember unlisted typeError now unknown contactId s
            = (Failure "Contact group not found", s) /\
            postMember unlisted typeError now unknown contactId s
            = (404, Failure "Contact group not found", s)).
  { intros unknown Hun. unfold onAddMember, postMember. rewrite Hun.
    split; reflexivity. }
  assert (Hsame : forall e code r,
            p = (e, s) -> q = (code, r, s) ->
            (NoDup ids -> NoDup (members p.2 groupId) /\
                          NoDup (members q.2 groupId)) /\
            (contacts p.2 = contacts s /\ contacts q.2 = contacts s) /\
            (forall other, other <> groupId ->
               getContactGroup p.2 other = getContactGroup s other /\
               getContactGroup q.2 other = getContactGroup s other)).
  { intros e code r -> ->. cbn [snd]. rewrite Hm.
    split; [intros H; split; exact H|].
    split; [split; reflexivity|]. intros; split; reflexivity. }
  destruct (contactIdsOrEmpty unlisted group) as [ids0|includes] eqn:Hcase.
  - (* an array, or nothing and then the empty array *)
    assert (Hlisted : cg_contactIds group = None -> unlisted = Falsy).
    { unfold contactIdsOrEmpty in Hcase.
      destruct (cg_contactIds group), unlisted; try reflexivity; discriminate. }
    assert (Hids0 : ids0 = ids).
    { rewrite (contactIdsOrEmpty_listed _ _ Hlisted) in Hcase.
      injection Hcase as <-. reflexivity. }
    subst ids0.
    assert (Hno : forall includes,
              cg_contactIds group = None -> unlisted <> Truthy includes).
    { intros includes Hnone. rewrite (Hlisted Hnone). discriminate. }
    destruct (includesId ids contactId) eqn:Hinc.
    + (* already a member *)
      assert (Hp : p = (Failure "Contact already in group", s)).
      { subst p. unfold onAddMember. rewrite Hg, Hcase, Hinc. reflexivity. }
      assert (Hq : q = (409, Failure "Contact already in group", s)).
      { subst q. unfold postMember. rewrite Hg, Hcase, Hinc. reflexivity. }
      apply includesId_In in Hinc.
      destruct (Hsame _ _ _ Hp Hq) as (H1 & H2 & H3).
      split.
      { intros _. split; [intros _; split; assumption|].
        intros H; contradiction. }
      split.
      { intros includes Hnone Hun. destruct (Hno includes Hnone Hun). }
      split; [exact H1|]. split; [exact H2|]. split; [exact H3|exact Hunknown].
    + (* a new member *)
      assert (Hnot : ~ In contactId ids).
      { intros H. apply includesId_In in H. congruence. }
      set (group' := withContactIds (ids ++ [contactId]) group).
      destruct (stored_group now groupId group' s)
        as (Hget & Hother & Hc & _).
      set (s1 := (updateContactGroup now groupId (asPatch group')
                    (mutateStored groupId group' s)).2) in *.
      assert (Hp : p = (Success group',
                        addActivity now "member_added" "contactGroup" groupId
                          (Some (cg_name group')) s1)).
      { subst p. unfold onAddMember. rewrite Hg, Hcase, Hinc. reflexivity. }
      assert (Hq : q = (201, Success group', s1)).
      { subst q. unfold postMember. rewrite Hg, Hcase, Hinc. reflexivity. }
      destruct (addActivity_frame now s1 "member_added" "contactGroup" groupId
                  (Some (cg_name group')))
        as (_ & _ & Hac & Hag & _).
      cbv zeta in Hac, Hag.
      assert (Hmp : members p.2 groupId = ids ++ [contactId]).
      { rewrite Hp. cbn [snd]. unfold members, getContactGroup. rewrite Hag.
        fold (getContactGroup s1 groupId). rewrite Hget. reflexivity. }
      assert (Hmq : members q.2 groupId = ids ++ [contactId]).
      { rewrite Hq. cbn [snd]. unfold members. rewrite Hget. reflexivity. }
      split.
      { intros _. split; [intros H; contradiction|].
        intros _. split; [rewrite Hp; reflexivity|].
        split; [rewrite Hq; reflexivity|]. split; assumption. }
      split.
      { intros includes Hnone Hun. destruct (Hno includes Hnone Hun). }
      split.
      { intros Hnd. rewrite Hmp, Hmq.
        assert (NoDup (ids ++ [contactId])).
        { apply NoDup_app. split; [exact Hnd|]. split.
          - intros x Hx Hx'. apply list_elem_of_In in Hx.
            apply list_elem_of_In in Hx'. destruct Hx' as [<-|[]]. contradiction.
          - apply NoDup_singleton. }
        split; assumption. }
      split.
      { rewrite Hp, Hq. cbn [snd]. rewrite Hac. split; exact Hc. }
      split; [|exact Hunknown].
      intros other Hne. rewrite Hp, Hq. cbn [snd].
      split; [|apply Hother; exact Hne].
      unfold getContactGroup at 1. rewrite Hag. apply Hother. exact Hne.
  - (* a truthy value that is no array *)
    assert (Hun : cg_contactIds group = None /\ unlisted = Truthy includes).
    { unfold contactIdsOrEmpty in Hcase.
      destruct (cg_contactIds group), unlisted; try discriminate.
      injection Hcase as ->. split; reflexivity. }
    destruct Hun as [Hnone Hun].
    assert (Hpq : exists e code r,
              p = (e, s) /\ q = (code, r, s) /\
              (includes contactId = Some true ->
               e = Failure "Contact already in group" /\ code = 409 /\
               r = Failure "Contact already in group") /\
              (includes contactId <> Some true ->
               e = Failure typeError /\ code = 500 /\ r = Thrown typeError)).
    { subst p q. unfold onAddMember, postMember. rewrite Hg, Hcase.
      destruct (includes contactId) as [[]|]; do 3 eexists;
        (split; [reflexivity|]); (split; [reflexivity|]);
        split; intros H; try discriminate; try (destruct H; reflexivity);
        repeat split. }
    destruct Hpq as (e & code & r & Hp & Hq & Hyes & Hthrow).
    destruct (Hsame _ _ _ Hp Hq) as (H1 & H2 & H3).
    split.
    { intros Hlisted. rewrite (Hlisted Hnone) in Hun. discriminate. }
    split.
    { intros includes' _ Hun'. rewrite Hun in Hun'. injection Hun' as <-.
      split; intros H.
      - destruct (Hyes H) as (-> & -> & ->). split; assumption.
      - destruct (Hthrow H) as (-> & -> & ->). split; assumption. }
    split; [exact H1|]. split; [exact H2|]. split; [exact H3|exact Hunknown].
Qed.

Lemma add_member_never_duplicates_witness :
  members (onAddMember Falsy "" 10 "g1" "c3" threeSmsContacts).2 "g1"
  = ["c2"; "c1"; "c3"] /\
  onAddMember Falsy "" 20 "g1" "c3"
    (onAddMember Falsy "" 10 "g1" "c3" threeSmsContacts).2
  = (Failure "Contact already in group",
     (onAddMember Falsy "" 10 "g1" "c3" threeSmsContacts).2).
Proof.
  split; [vm_compute; reflexivity|].
  destruct (add_member_never_duplicates Falsy "" 20 "g1" "c3"
              (onAddMember Falsy "" 10 "g1" "c3" threeSmsContacts).2
              (default {| cg_id := ""; cg_name := ""; cg_contactIds := None |}
                 (getContactGroup
                    (onAddMember Falsy "" 10 "g1" "c3" threeSmsContacts).2
                    "g1")))
    as (Hlisted & _).
  - vm_compute. reflexivity.
  - destruct Hlisted as [Hhas _]; [reflexivity|].
    apply Hhas. vm_compute. right. right. left. reflexivity.
Defined.

(** Property X22.  Removing a member from a contact group removes every
    occurrence of the id from the member list and keeps the other ids in
    their order; removing an id that is not in the list succeeds and
    leaves the list as it is, so removing a member that was just added
    gives the list back.  A group without a member list is answered with
    an error and nothing changes. *)
Theorem remove_member_removes_every_occurrence (now : Z)
    (groupId contactId : string) (s : State) (group : ContactGroup)
    (ids : list string) :
  getContactGroup s groupId = Some group ->
  cg_contactIds group = Some ids ->
  let p := onRemoveMember now groupId contactId s in
  let q := deleteMember now groupId contactId s in
  (p.1 = Success (withContactIds (withoutId ids contactId) group) /\
   q.1 = (200, Success (withContactIds (withoutId ids contactId) group))) /\
  (members p.2 groupId = withoutId ids contactId /\
   members q.2 groupId = withoutId ids contactId) /\
  ~ In contactId (members p.2 groupId) /\
  (forall id, id <> contactId -> (In id (members p.2 groupId) <-> In id ids)) /\
  (~ In contactId ids -> members p.2 groupId = ids) /\
  (~ In contactId ids ->
   forall later unlisted typeError,
     members (onRemoveMember later groupId contactId
                (onAddMember unlisted typeError now groupId contactId s).2).2
       groupId = ids) /\
  (contacts p.2 = contacts s /\ contacts q.2 = contacts s) /\
  (forall other empty,
     getContactGroup s other = Some empty -> cg_contactIds empty = None ->
     onRemoveMember now other contactId s = (Failure "Failed to remove member", s) /\
     deleteMember now other contactId s
     = (404, Failure "Contact not in group", s)).
Proof.
  intros Hg Hids p q.
  set (group' := withContactIds (withoutId ids contactId) group).
  destruct (stored_group now groupId group' s) as (Hget & _ & Hc & _).
  set (s1 := (updateContactGroup now groupId (asPatch group')
                (mutateStored groupId group' s)).2) in *.
  assert (Hp : p = (Success group',
                    addActivity now "member_removed" "contactGroup" groupId
                      (Some (cg_name group')) s1)).
  { subst p. unfold onRemoveMember. rewrite Hg, Hids. reflexivity. }
  assert (Hq : q = (200, Success group', s1)).
  { subst q. unfold deleteMember. rewrite Hg, Hids. reflexivity. }
  destruct (addActivity_frame now s1 "member_removed" "contactGroup" groupId
              (Some (cg_name group')))
    as (_ & _ & Hac & Hag & _).
  cbv zeta in Hac, Hag.
  assert (Hmp : members p.2 groupId = withoutId ids contactId).
  { rewrite Hp. cbn [snd]. unfold members, getContactGroup. rewrite Hag.
    fold (getContactGroup s1 groupId). rewrite Hget. reflexivity. }
  assert (Hmq : members q.2 groupId = withoutId ids contactId).
  { rewrite Hq. cbn [snd]. unfold members. rewrite Hget. reflexivity. }
  split; [rewrite Hp, Hq; split; reflexivity|].
  split; [split; assumption|].
  split.
  { rewrite Hmp. intros H. apply withoutId_In in H as [_ H]. congruence. }
  split.
  { intros id Hne. rewrite Hmp, withoutId_In. tauto. }
  split.
  { intros Hnot. rewrite Hmp. apply withoutId_notin. exact Hnot. }
  split.
  { intros Hnot later unlisted typeError.
    assert (Hinc : includesId ids contactId = false).
    { destruct (includesId ids contactId) eqn:E; [|reflexivity].
      apply includesId_In in E. contradiction. }
    set (added := withContactIds (ids ++ [contactId]) group).
    destruct (stored_group now groupId added s) as (Hget2 & _).
    set (s2 := (updateContactGroup now groupId (asPatch added)
                  (mutateStored groupId added s)).2) in *.
    assert (Ha : (onAddMember unlisted typeError now groupId contactId s).2
                 = addActivity now "member_added" "contactGroup" groupId
                     (Some (cg_name added)) s2).
    { unfold onAddMember, contactIdsOrEmpty. rewrite Hg, Hids, Hinc.
      reflexivity. }
    rewrite Ha.
    destruct (addActivity_frame now s2 "member_added" "contactGroup" groupId
                (Some (cg_name added)))
      as (_ & _ & _ & Hag2 & _).
    cbv zeta in Hag2.
    set (s3 := addActivity now "member_added" "contactGroup" groupId
                 (Some (cg_name added)) s2) in *.
    assert (Hget3 : getContactGroup s3 groupId
                    = Some {| cg_id := groupId; cg_name := cg_name added;
                              cg_contactIds := cg_contactIds added |}).
    { unfold getContactGroup. rewrite Hag2. exact Hget2. }
    set (group3 := {| cg_id := groupId; cg_name := cg_name added;
                      cg_contactIds := cg_contactIds added |}) in *.
    set (removed := withContactIds (withoutId (ids ++ [contactId]) contactId) group3).
    destruct (stored_group later groupId removed s3) as (Hget4 & _).
    set (s4 := (updateContactGroup later groupId (asPatch removed)
                  (mutateStored groupId removed s3)).2) in *.
    assert (Hr : (onRemoveMember later groupId contactId s3).2
                 = addActivity later "member_removed" "contactGroup" groupId
                     (Some (cg_name removed)) s4).
    { unfold onRemoveMember. rewrite Hget3. reflexivity. }
    rewrite Hr.
    destruct (addActivity_frame later s4 "member_removed" "contactGroup" groupId
                (Some (cg_name removed)))
      as (_ & _ & _ & Hag4 & _).
    cbv zeta in Hag4. unfold members, getContactGroup. rewrite Hag4.
    fold (getContactGroup s4 groupId). rewrite Hget4.
    change (withoutId (ids ++ [contactId]) contactId = ids).
    rewrite withoutId_app, (withoutId_notin ids contactId Hnot).
    unfold withoutId. cbn [List.filter]. rewrite String.eqb_refl.
    cbn [negb]. apply app_nil_r. }
  split.
  { rewrite Hp, Hq. cbn [snd]. rewrite Hac. split; exact Hc. }
  intros other empty Ho He. unfold onRemoveMember, deleteMember.
  rewrite Ho, He. split; reflexivity.
Qed.

Lemma remove_member_removes_every_occurrence_witness :
  members (onRemoveMember 10 "g2" "c1" threeSmsContactsReordered).2 "g2" = ["c3"].
Proof.
  destruct (remove_member_removes_every_occurrence 10 "g2" "c1"
              threeSmsContactsReordered
              {| cg_id := "g2"; cg_name := "Backup";
                 cg_contactIds := Some ["c1"; "c3"; "c1"] |}
              ["c1"; "c3"; "c1"])
    as (_ & (Hm & _) & _).
  - reflexivity.
  - reflexivity.
  - rewrite Hm. reflexivity.
Defined.

(** ** Creating and deleting a contact group *)

Lemma jsmap_delete_get {V} k (m : jsmap V) :
  NoDup (jsmap_keys m) -> jsmap_get k (jsmap_delete k m) = None.
Proof.
  intros Hnd. pose proof (jsmap_delete_gone k m Hnd) as H.
  induction (jsmap_delete k m) as [|[k' v'] t IH]; [reflexivity|].
  cbn [jsmap_get]. destruct (String.eqb k k') eqn:E.
  - apply String.eqb_eq in E. subst k'. exfalso. apply H. now left.
  - apply IH. intros Hin. apply H. now right.
Qed.

Lemma jsmap_delete_get_ne {V} k k' (m : jsmap V) :
  k' <> k -> jsmap_get k' (jsmap_delete k m) = jsmap_get k' m.
Proof.
  intros Hne. induction m as [|[k2 v2] t IH]; [reflexivity|].
  cbn [jsmap_delete jsmap_get]. destruct (String.eqb k k2) eqn:E.
  - apply String.eqb_eq in E. subst k2.
    rewrite (proj2 (String.eqb_neq k' k) Hne). reflexivity.
  - cbn [jsmap_get]. destruct (String.eqb k' k2); [reflexivity|exact IH].
Qed.

(** Property X23.  A contact group that has been created is found under
    the id it was given, with the name it was created with and with a
    member list, the empty one when none was supplied; after
    [deleteContactGroup] it is found no more, while the other groups and
    all the contacts stay; deleting or updating an id that no group
    carries changes nothing. *)
Theorem contact_group_is_found_until_deleted (now later : Z)
    (data : ContactGroup) (s : State) :
  NoDup (jsmap_keys (contactGroups s)) ->
  let c := createContactGroup now data s in
  let d := deleteContactGroup later (cg_id c.1) c.2 in
  (getContactGroup c.2 (cg_id c.1) = Some c.1 /\
   cg_name c.1 = cg_name data /\
   members c.2 (cg_id c.1) = default [] (cg_contactIds data)) /\
  (d.1 = true /\ getContactGroup d.2 (cg_id c.1) = None /\
   members d.2 (cg_id c.1) = []) /\
  (forall other, other <> cg_id c.1 ->
     getContactGroup c.2 other = getContactGroup s other /\
     getContactGroup d.2 other = getContactGroup s other) /\
  (contacts c.2 = contacts s /\ contacts d.2 = contacts s) /\
  (forall unknown patch,
     getContactGroup s unknown = None ->
     deleteContactGroup later unknown s = (false, s) /\
     updateContactGroup later unknown patch s = (None, s)).
Proof.
  intros Hnd c d.
  set (id := nextId s).
  set (group := {| cg_id := id; cg_name := cg_name data;
                   cg_contactIds := Some (default [] (cg_contactIds data)) |}).
  assert (Hc : c.1 = group /\
               contactGroups c.2 = jsmap_set id group (contactGroups s) /\
               contacts c.2 = contacts s).
  { repeat split. }
  destruct Hc as (Hc1 & Hc2 & Hc3).
  assert (Hget : getContactGroup c.2 id = Some group).
  { unfold getContactGroup. rewrite Hc2. apply jsmap_get_set_eq. }
  assert (Hd : d.1 = true /\
               contactGroups d.2 = jsmap_delete id (contactGroups c.2) /\
               contacts d.2 = contacts c.2).
  { subst d. rewrite Hc1. cbn [cg_id group]. unfold deleteContactGroup.
    unfold getContactGroup in Hget. rewrite Hget. repeat split. }
  destruct Hd as (Hd1 & Hd2 & Hd3).
  rewrite Hc1. cbn [cg_id cg_name group].
  split; [|split; [|split; [|split]]].
  - split; [exact Hget|]. split; [reflexivity|].
    unfold members. rewrite Hget. reflexivity.
  - assert (Hgone : getContactGroup d.2 id = None).
    { unfold getContactGroup. rewrite Hd2, Hc2. apply jsmap_delete_get.
      apply jsmap_set_NoDup. exact Hnd. }
    split; [exact Hd1|]. split; [exact Hgone|].
    unfold members. rewrite Hgone. reflexivity.
  - intros other Hne. unfold getContactGroup. rewrite Hd2, Hc2.
    rewrite jsmap_delete_get_ne, jsmap_get_set_ne by exact Hne.
    split; reflexivity.
  - rewrite Hd3, Hc3. split; reflexivity.
  - intros unknown patch Hun. unfold deleteContactGroup, updateContactGroup.
    unfold getContactGroup in Hun. rewrite Hun. split; reflexivity.
Qed.

Lemma contact_group_is_found_until_deleted_witness :
  let c := createContactGroup 10
             {| cg_id := ""; cg_name := "Night shift"; cg_contactIds := None |}
             threeSmsContacts in
  members c.2 (cg_id c.1) = [] /\
  getContactGroup (deleteContactGroup 20 (cg_id c.1) c.2).2 (cg_id c.1) = None.
Proof.
  destruct (contact_group_is_found_until_deleted 10 20
              {| cg_id := ""; cg_name := "Night shift"; cg_contactIds := None |}
              threeSmsContacts)
    as ((_ & _ & Hm) & (_ & Hgone & _) & _).
  - apply (bool_decide_unpack _). vm_compute. reflexivity.
  - split; [exact Hm|exact Hgone].
Defined.

(** ** Retention of the logs *)

Lemma addLog_bounded now level message s :
  logsBounded s -> logsBounded (addLog now level message s).
Proof.
  intros [_ Ha]. split; [|exact Ha].
  unfold addLog, uuidv4. cbn [logs set_logs]. rewrite length_take. lia.
Qed.

Lemma addActivity_bounded now action entityType entityId name s :
  logsBounded s -> logsBounded (addActivity now action entityType entityId name s).
Proof.
  intros [Hl _]. split; [exact Hl|].
  unfold addActivity, uuidv4. cbn [activityLogs set_activityLogs].
  rewrite length_take. lia.
Qed.

Lemma createAlert_bounded now m type message severity s :
  logsBounded s -> logsBounded (createAlert now m type message severity s).2.
Proof.
  intros H. unfold createAlert.
  apply addLog_bounded, addActivity_bounded. exact H.
Qed.

Lemma createIncident_bounded now m message s :
  logsBounded s -> logsBounded (createIncident now m message s).2.
Proof.
  intros H. unfold createIncident.
  apply addLog_bounded, addActivity_bounded.
  match goal with
  | |- logsBounded (snd (createAlert ?n ?mm ?t ?msg ?sev ?st)) =>
      apply (createAlert_bounded n mm t msg sev st)
  end.
  exact H.
Qed.

Lemma resolveIncident_bounded now m s :
  logsBounded s -> logsBounded (resolveIncidentForMonitor now m s).2.
Proof.
  intros H. unfold resolveIncidentForMonitor.
  destruct (find (ongoing_incident_of m) (incidents s)); [|exact H].
  apply addLog_bounded, addActivity_bounded. exact H.
Qed.

Lemma updateStatus_bounded now m r s :
  logsBounded s -> logsBounded (updateStatus now m r s).2.
Proof.
  intros H. rewrite updateStatus_unfold. cbn [snd].
  assert (Hrec : logsBounded (recorded now m r s)).
  { unfold recorded. destruct (negb _); [apply addActivity_bounded|]; exact H. }
  generalize dependent (recorded now m r s). intros s1 Hrec.
  unfold incidentBranch.
  repeat match goal with
         | |- logsBounded (if ?b then _ else _) => destruct b
         | |- logsBounded (match ?o with Some _ => _ | None => _ end) => destruct o
         end;
    try exact Hrec;
    try (apply createIncident_bounded; exact Hrec);
    apply resolveIncident_bounded; exact Hrec.
Qed.

(** Property X24.  The state machine keeps the logs within their limits:
    when the system log holds at most 2000 entries and the activity log at
    most 5000, this is so again after any number of check results, with
    the incidents they open and resolve, have been recorded; an entry that
    is logged becomes the first of the log, in front of the older ones. *)
Theorem checks_keep_logs_bounded (m : string) (samples : list (Z * CheckResult))
    (s : State) :
  logsBounded s ->
  logsBounded (feed m samples s) /\
  (forall now level message,
     logsBounded (addLog now level message s) /\
     exists entry,
       log_timestamp entry = now /\ log_level entry = level /\
       log_message entry = message /\
       logs (addLog now level message s) = take 2000 (entry :: logs s)).
Proof.
  intros H. split.
  - induction samples as [|sample samples IH] using rev_ind; [exact H|].
    rewrite feed_snoc. apply updateStatus_bounded. exact IH.
  - intros now level message. split; [apply addLog_bounded; exact H|].
    exists {| log_id := nextId s; log_timestamp := now; log_level := level;
              log_message := message |}.
    repeat split.
Qed.

Lemma checks_keep_logs_bounded_witness :
  logsBounded
    (feed "uuid-0" [sampleAt 1000 CHECK_UP; sampleAt 2000 CHECK_DOWN]
       (oneMonitor true)).
Proof.
  destruct (checks_keep_logs_bounded "uuid-0"
              [sampleAt 1000 CHECK_UP; sampleAt 2000 CHECK_DOWN]
              (oneMonitor true)) as [H _]; [|exact H].
  split; apply Nat.leb_le; vm_compute; reflexivity.
Defined.

(** ** What the self check records *)

Lemma checkNetworkConnectivity_status env now reachable srv :
  networkStatus (state (checkNetworkConnectivity env now reachable srv).1)
  = {| isConnected := reachable; lastChecked := now;
       lastConnectedAt :=
         if reachable then now else lastConnectedAt (networkStatus (state srv)) |}.
Proof.
  unfold checkNetworkConnectivity, getNetworkStatus, setNetworkStatus.
  destruct reachable, (isConnected (networkStatus (state srv)));
    cbn [negb Bool.eqb andb fst snd]; try reflexivity.
  - rewrite !mayNotify_state.
    destruct (mayNotify now connected srv); [|reflexivity].
    match goal with
    | |- context [sendNetworkStatusNotification ?e ?n ?c ?s] =>
        pose proof (sendNetworkStatusNotification_onlyLogs e n c s)
          as ((_ & _ & _ & _ & Hn) & _);
        destruct (sendNetworkStatusNotification e n c s) as [s1 out]
    end.
    cbn [fst snd state set_state] in *. rewrite Hn. reflexivity.
  - rewrite !mayNotify_state.
    match goal with
    | |- context [createAlert ?n ?m ?t ?msg ?sev ?s0] =>
        pose proof (createAlert_spec n s0 m t msg sev) as Hal;
        match s0 with
        | context [createIncident ?n2 ?m2 ?msg2 ?s1] =>
            pose proof (createIncident_spec n2 s1 m2 msg2) as Hinc;
            assert (Hs1 : networkStatus s1
                          = {| isConnected := false; lastChecked := now;
                               lastConnectedAt :=
                                 lastConnectedAt (networkStatus (state srv)) |})
              by reflexivity;
            generalize dependent (createIncident n2 m2 msg2 s1)
        end
    end.
    intros [i s2] Hal Hinc. cbv zeta in Hal, Hinc. cbn [fst snd] in Hal, Hinc |- *.
    destruct Hinc as (_ & _ & _ & _ & _ & _ & Hn2 & _).
    generalize dependent (createAlert now "NETWORK" "connectivity"
                            "Internet connectivity lost" critical s2).
    intros [a2 s3] Hal. cbn [fst snd] in Hal.
    destruct Hal as (_ & _ & _ & _ & _ & _ & _ & Hn3 & _).
    assert (Hn : networkStatus s3
                 = {| isConnected := false; lastChecked := now;
                      lastConnectedAt :=
                        lastConnectedAt (networkStatus (state srv)) |}).
    { rewrite Hn3, Hn2. exact Hs1. }
    clear - Hn.
    destruct (mayNotify now disconnected srv).
    + match goal with
      | |- context [sendNetworkStatusNotification ?e ?n ?c ?s] =>
          pose proof (sendNetworkStatusNotification_onlyLogs e n c s)
            as ((_ & _ & _ & _ & Hn4) & _);
          destruct (sendNetworkStatusNotification e n c s) as [s4 out]
      end.
      cbn [fst snd state set_state] in *. rewrite Hn4. exact Hn.
    + cbn [fst snd state set_state]. exact Hn.
Qed.

Lemma default_last_cons {A} (d x : A) l :
  default d (last (x :: l)) = default x (last l).
Proof.
  revert d x. induction l as [|y t IH]; intros d x; [reflexivity|].
  change (last (x :: y :: t)) with (last (y :: t)).
  rewrite (IH d y), (IH x y). reflexivity.
Qed.

(** Property X25.  After any number of ticks of the self check
    [state.networkStatus] holds the outcome and the time of the last tick,
    and as [lastConnectedAt] the time of the last tick that found the
    connection up; with no such tick it keeps the time it held. *)
Theorem network_status_tracks_ticks (env : Env) (ticks : list (Z * bool))
    (srv : Server) :
  let before := networkStatus (state srv) in
  networkStatus (state (runNetworkChecks env ticks srv).1)
  = {| isConnected := default (isConnected before) (last (map snd ticks));
       lastChecked := default (lastChecked before) (last (map fst ticks));
       lastConnectedAt :=
         default (lastConnectedAt before)
           (last (map fst (List.filter snd ticks))) |}.
Proof.
  cbv zeta. revert srv. induction ticks as [|[now reachable] rest IH]; intros srv.
  - cbn [runNetworkChecks fst map List.filter last default from_option].
    destruct (networkStatus (state srv)); reflexivity.
  - rewrite runNetworkChecks_cons. cbv zeta. cbn [fst].
    rewrite IH, checkNetworkConnectivity_status.
    cbn [isConnected lastChecked lastConnectedAt map List.filter fst snd].
    rewrite !default_last_cons.
    destruct reachable; cbn [map fst]; [rewrite default_last_cons|]; reflexivity.
Qed.

(** ** Reading the incidents *)

(** Property X26.  The incidents route answers with the newest incidents,
    in the order of the store: as many as the limit says when it is
    positive, 100 when the limit is missing, not a number or 0, and all
    but the oldest [-limit] when it is negative. *)
Theorem incidents_route_answers_the_newest (parsed : option Z) (s : State) :
  let answer := incidentsRoute parsed s in
  let n := Z.of_nat (length (incidents s)) in
  answer `prefix_of` incidents s /\
  Z.of_nat (length answer)
  = match parsed with
    | Some limit =>
        if limit =? 0 then Z.min 100 n
        else if limit <? 0 then Z.max 0 (n + limit)
        else Z.min limit n
    | None => Z.min 100 n
    end /\
  getIncidents None s = incidentsRoute None s.
Proof.
  cbv zeta. unfold incidentsRoute, getIncidents, slice0.
  cbn [default from_option id].
  split; [|split; [|reflexivity]].
  - destruct (_ <? 0); apply prefix_take.
  - destruct parsed as [limit|].
    + destruct (limit =? 0) eqn:E0.
      * change (100 <? 0) with false. cbv iota. rewrite length_take. lia.
      * destruct (limit <? 0) eqn:E1; rewrite length_take; lia.
    + change (100 <? 0) with false. cbv iota. rewrite length_take. lia.
Qed.

(** ** A check over REST *)

(** Property X27.  A check run over the REST route records its result and
    announces nothing.  When it is the one that finds an endpoint DOWN that
    was UP, the incident and its alert are opened by it, and the checks of
    the scheduler that find the endpoint DOWN afterwards see no change of
    status: the outage is never announced. *)
Theorem outage_found_over_rest_is_never_announced (now : Z) (m : string)
    (r : CheckResult) (srv : Server) (st : Status) :
  getStatus (state srv) m = Some st ->
  status st = UP ->
  cr_status r = CHECK_DOWN ->
  let srv1 := (checkRoute_finish now m r srv).1 in
  (exists i a,
     incidents (state srv1) = i :: incidents (state srv) /\
     alerts (state srv1) = a :: alerts (state srv) /\
     inc_monitorId i = m /\ inc_status i = ongoing /\
     al_monitorId a = m /\ al_status a = active) /\
  monitorIntervals srv1 = monitorIntervals srv /\
  status (currentStatus (state srv1) m) = DOWN /\
  (forall env later mon r',
     cr_status r' = CHECK_DOWN ->
     let p := runCheck_finish env later m mon r' srv1 in
     alertNotifications p.2 = [] /\ requests p.2 = [] /\
     status (currentStatus (state p.1) m) = DOWN).
Proof.
  intros Hst Hup Hr srv1.
  pose proof (updateStatus_policy now m r (state srv)) as Hpol.
  cbv zeta in Hpol. rewrite (getStatus_current _ _ _ Hst), Hup, Hr in Hpol.
  destruct Hpol as (i & a & Hi & Him & Hio & _ & _ & Ha & Ham & _ & _ & _ & Hact & _).
  assert (Hdown : status (currentStatus (state srv1) m) = DOWN).
  { subst srv1. cbn [checkRoute_finish fst state set_state].
    rewrite updateStatus_status, Hr. reflexivity. }
  assert (Hget : getStatus (state srv1) m
                 = Some (currentStatus (state srv1) m)).
  { subst srv1. cbn [checkRoute_finish fst state set_state].
    unfold getStatus, currentStatus.
    destruct (updateStatus_frame now m r (state srv)) as [_ Hs].
    rewrite Hs, lookup_insert_eq. reflexivity. }
  split.
  { exists i, a. repeat split; assumption. }
  split; [reflexivity|]. split; [exact Hdown|].
  intros env later mon r' Hr' p. subst p.
  rewrite (runCheck_finish_unchanged env later m mon r' srv1 _ Hget).
  - cbn [fst snd state set_state]. split; [reflexivity|]. split; [reflexivity|].
    rewrite updateStatus_status, Hr'. reflexivity.
  - rewrite Hdown, Hr'. reflexivity.
Qed.

Lemma outage_found_over_rest_is_never_announced_witness :
  let srv1 := (checkRoute_finish 50000 "uuid-0" (sampleAt 50000 CHECK_DOWN).2
                 (serverAfterUp true)).1 in
  length (incidents (state srv1)) = 1%nat /\
  alertNotifications
    (runCheck_finish exampleEnv 60100 "uuid-0" exampleMonitor
       (sampleAt 60100 CHECK_DOWN).2 srv1).2 = [].
Proof.
  destruct (outage_found_over_rest_is_never_announced 50000 "uuid-0"
              (sampleAt 50000 CHECK_DOWN).2 (serverAfterUp true)
              (currentStatus (state (serverAfterUp true)) "uuid-0"))
    as (_ & _ & _ & Hquiet).
  - vm_compute. reflexivity.
  - vm_compute. reflexivity.
  - reflexivity.
  - split; [vm_compute; reflexivity|].
    apply (Hquiet exampleEnv 60100 exampleMonitor (sampleAt 60100 CHECK_DOWN).2).
    reflexivity.
Defined.
